(** * Slide navigation and persistence controller (src/js/main.js)

    A shallow embedding of [class PresentationController] and of the two
    page-lifecycle listeners that follow it in [src/js/main.js], together
    with the browser services the class talks to: the slide elements and
    their class lists, the two navigation buttons, [localStorage], the
    animation-frame queue and the timer table.

    Every method of the class is a function from worlds to worlds that
    follows the method statement by statement.  Closures handed to
    [requestAnimationFrame] and [setTimeout] are defunctionalised into the
    type [callback]; the browser runs them when an [AnimationFrame] or
    [Timeout] event is delivered. *)

From Stdlib Require Import ZArith QArith Qabs Floats Lia.
From stdpp Require Import base option list gmap strings.

Local Open Scope Z_scope.

(** ** JavaScript built-ins used by the controller *)

Module JS.

(** A JavaScript string is a sequence of UTF-16 code units. *)
Definition jsstring := list N.

(** A string literal of the source (ASCII only). *)
Definition lit (s : string) : jsstring :=
  List.map Ascii.N_of_ascii (String.list_ascii_of_string s).

(** [StrWhiteSpaceChar] of ECMA-262: WhiteSpace and LineTerminator. *)
Definition isWhiteSpace (c : N) : bool :=
  ((9 <=? c) && (c <=? 13) || (c =? 32) || (c =? 160) || (c =? 5760)
   || (8192 <=? c) && (c <=? 8202) || (c =? 8232) || (c =? 8233)
   || (c =? 8239) || (c =? 8287) || (c =? 12288) || (c =? 65279))%N.

Fixpoint trimStart (s : jsstring) : jsstring :=
  match s with
  | c :: r => if isWhiteSpace c then trimStart r else s
  | [] => []
  end.

(** Value of a code unit as a digit: 0-9, then a-z and A-Z for 10-35. *)
Definition digitValue (c : N) : option Z :=
  if ((48 <=? c) && (c <=? 57))%N then Some (Z.of_N c - 48)
  else if ((97 <=? c) && (c <=? 122))%N then Some (Z.of_N c - 87)
  else if ((65 <=? c) && (c <=? 90))%N then Some (Z.of_N c - 55)
  else None.

Definition radixDigit (R : Z) (c : N) : option Z :=
  match digitValue c with
  | Some d => if d <? R then Some d else None
  | None => None
  end.

Definition accValue (acc : option Z) : Z := default 0 acc.

(** The longest prefix of radix-[R] digits, read as an integer; [acc] is
    [None] as long as no digit has been consumed. *)
Fixpoint parseDigits (R : Z) (acc : option Z) (s : jsstring) : option Z :=
  match s with
  | c :: r =>
      match radixDigit R c with
      | Some d => parseDigits R (Some (accValue acc * R + d)) r
      | None => acc
      end
  | [] => acc
  end.

Definition isSign (c : N) : bool := ((c =? 43) || (c =? 45))%N.
Definition isX (c : N) : bool := ((c =? 120) || (c =? 88))%N.

(** [parseInt(string)] with the radix left undefined (ECMA-262 19.2.5):
    leading white space is dropped, then an optional sign, then an optional
    [0x]/[0X] that selects radix 16 (radix 10 otherwise); the longest digit
    prefix is the result and an empty one gives [NaN], here [None].

    The result is the mathematical integer.  JavaScript rounds it to a
    double, which is the identity below 2^53 and never takes a value from
    above 2^53 to below it, so that the range test of [loadProgress] and the
    index it stores are those of this definition for every slide count a
    [NodeList] can have.  [-0] is identified with [0]. *)
Definition parseInt (s : jsstring) : option Z :=
  let s1 := trimStart s in
  let sign := match s1 with c :: _ => if (c =? 45)%N then -1 else 1 | [] => 1 end in
  let s2 := match s1 with c :: r => if isSign c then r else s1 | [] => s1 end in
  let '(R, s3) :=
    match s2 with
    | z :: x :: r => if (z =? 48)%N && isX x then (16, r) else (10, s2)
    | _ => (10, s2)
    end in
  match parseDigits R None s3 with
  | Some m => Some (sign * m)
  | None => None
  end.

(** Decimal digits of a non-negative integer, most significant first, put in
    front of [acc]. *)
Fixpoint digitsOf (fuel : nat) (n : Z) (acc : jsstring) : jsstring :=
  let acc' := Z.to_N (48 + n mod 10) :: acc in
  match fuel with
  | O => acc'
  | S fuel' => if n <? 10 then acc' else digitsOf fuel' (n / 10) acc'
  end.

(** [Number.prototype.toString()] on an integer-valued number (below 1e21,
    where JavaScript switches to exponent notation). *)
Definition toString (n : Z) : jsstring :=
  if n <? 0 then 45%N :: digitsOf (Z.to_nat (Z.log2 (- n))) (- n) []
  else digitsOf (Z.to_nat (Z.log2 n)) n [].

(** Numbers are IEEE-754 doubles; [ofInt] is exact below 2^53. *)
Definition ofInt (n : Z) : float :=
  if n <? 0 then PrimFloat.opp (PrimFloat.of_uint63 (Uint63.of_Z (- n)))
  else PrimFloat.of_uint63 (Uint63.of_Z n).

End JS.

(** ** The page, the browser and the controller object *)

(** A slide element: membership of the classes ['active'] and ['exit'] in
    its class list, and its inline [style.transition]. *)
Record slide := Slide {
  active : bool;
  exit : bool;
  transition : option string
}.

(** A navigation button: its [disabled] property and membership of the class
    ['disabled']. *)
Record button := Button {
  disabled : bool;
  disabledClass : bool
}.

(** The part of the document the controller reads and writes.  An element
    that [querySelector] does not find is [None].  Slides are identified by
    their position in the [NodeList]. *)
Record Document := {
  slides : list slide;                        (* querySelectorAll('.slide') *)
  currentSlideElement : option JS.jsstring;   (* textContent of .current-slide *)
  totalSlidesElement : option JS.jsstring;    (* textContent of .total-slides *)
  prevButton : option button;                 (* .nav-button.prev *)
  nextButton : option button;                 (* .nav-button.next *)
  progressFill : option (option float);       (* style.width of .progress-fill, in % *)
  canvases : list string;                     (* ids getElementById resolves *)
  activeElement : option nat                  (* the slide holding input focus *)
}.

(** [localStorage]: its entries, and whether reading and writing throw
    (storage disabled, privacy mode, quota exhausted). *)
Record Storage := {
  items : gmap string JS.jsstring;
  getItemThrows : bool;
  setItemThrows : bool
}.

(** The closures the controller hands to the scheduler. *)
Inductive callback :=
  | GoToSlideFrame1                           (* main.js 221: outer frame callback *)
  | GoToSlideFrame2                           (* main.js 222: inner frame callback *)
  | GoToSlideSettle (newSlideElement : option nat)   (* main.js 234 *)
  | ResizeSettled.                            (* main.js 138 *)

Record timer := Timer {
  timerId : positive;
  due : Z;
  timerCallback : callback
}.

Inductive warning :=
  | ChartJsNotLoaded | ChartInitFailed | CouldNotSave | CouldNotLoad.

(** Browser services.  [chartJs] is [None] when [Chart] is undefined and
    otherwise lists the canvas ids on which [new Chart] throws.  Timer
    handles are positive integers, as the HTML standard requires, hence
    always truthy. *)
Record Window := {
  innerWidth : Z;
  localStorage : Storage;
  now : Z;                                    (* Date.now(), in ms *)
  frameCallbacks : list callback;             (* requestAnimationFrame queue *)
  timers : list timer;                        (* pending setTimeout calls *)
  nextTimer : positive;
  chartJs : option (list string);
  console : list warning
}.

(** The fields of [this].  A chart handle is modelled by the number of
    [resize()] calls it has received. *)
Record Controller := {
  currentSlide : Z;
  totalSlides : Z;
  isAnimating : bool;
  touchStartX : Z;
  touchStartY : Z;
  touchStartTime : Z;
  charts : gmap string nat;
  isMobile : bool;
  isTablet : bool;
  resizeTimeout : option positive
}.

Record World := {
  this : Controller;
  document : Document;
  window : Window
}.

(** *** Field updates *)

Definition set_active (b : bool) (s : slide) : slide :=
  {| active := b; exit := exit s; transition := transition s |}.
Definition set_exit (b : bool) (s : slide) : slide :=
  {| active := active s; exit := b; transition := transition s |}.
Definition set_transition (t : string) (s : slide) : slide :=
  {| active := active s; exit := exit s; transition := Some t |}.

Definition set_currentSlide (v : Z) (c : Controller) : Controller :=
  {| currentSlide := v; totalSlides := totalSlides c; isAnimating := isAnimating c;
     touchStartX := touchStartX c; touchStartY := touchStartY c;
     touchStartTime := touchStartTime c; charts := charts c;
     isMobile := isMobile c; isTablet := isTablet c; resizeTimeout := resizeTimeout c |}.
Definition set_isAnimating (v : bool) (c : Controller) : Controller :=
  {| currentSlide := currentSlide c; totalSlides := totalSlides c; isAnimating := v;
     touchStartX := touchStartX c; touchStartY := touchStartY c;
     touchStartTime := touchStartTime c; charts := charts c;
     isMobile := isMobile c; isTablet := isTablet c; resizeTimeout := resizeTimeout c |}.
Definition set_touchStart (x y t : Z) (c : Controller) : Controller :=
  {| currentSlide := currentSlide c; totalSlides := totalSlides c;
     isAnimating := isAnimating c;
     touchStartX := x; touchStartY := y; touchStartTime := t; charts := charts c;
     isMobile := isMobile c; isTablet := isTablet c; resizeTimeout := resizeTimeout c |}.
Definition set_charts (v : gmap string nat) (c : Controller) : Controller :=
  {| currentSlide := currentSlide c; totalSlides := totalSlides c;
     isAnimating := isAnimating c;
     touchStartX := touchStartX c; touchStartY := touchStartY c;
     touchStartTime := touchStartTime c; charts := v;
     isMobile := isMobile c; isTablet := isTablet c; resizeTimeout := resizeTimeout c |}.
Definition set_device (mobile tablet : bool) (c : Controller) : Controller :=
  {| currentSlide := currentSlide c; totalSlides := totalSlides c;
     isAnimating := isAnimating c;
     touchStartX := touchStartX c; touchStartY := touchStartY c;
     touchStartTime := touchStartTime c; charts := charts c;
     isMobile := mobile; isTablet := tablet; resizeTimeout := resizeTimeout c |}.
Definition set_resizeTimeout (v : option positive) (c : Controller) : Controller :=
  {| currentSlide := currentSlide c; totalSlides := totalSlides c;
     isAnimating := isAnimating c;
     touchStartX := touchStartX c; touchStartY := touchStartY c;
     touchStartTime := touchStartTime c; charts := charts c;
     isMobile := isMobile c; isTablet := isTablet c; resizeTimeout := v |}.

Definition set_slides (v : list slide) (d : Document) : Document :=
  {| slides := v; currentSlideElement := currentSlideElement d;
     totalSlidesElement := totalSlidesElement d; prevButton := prevButton d;
     nextButton := nextButton d; progressFill := progressFill d;
     canvases := canvases d; activeElement := activeElement d |}.
Definition set_currentSlideElement (v : option JS.jsstring) (d : Document) : Document :=
  {| slides := slides d; currentSlideElement := v;
     totalSlidesElement := totalSlidesElement d; prevButton := prevButton d;
     nextButton := nextButton d; progressFill := progressFill d;
     canvases := canvases d; activeElement := activeElement d |}.
Definition set_totalSlidesElement (v : option JS.jsstring) (d : Document) : Document :=
  {| slides := slides d; currentSlideElement := currentSlideElement d;
     totalSlidesElement := v; prevButton := prevButton d;
     nextButton := nextButton d; progressFill := progressFill d;
     canvases := canvases d; activeElement := activeElement d |}.
Definition set_prevButton (v : option button) (d : Document) : Document :=
  {| slides := slides d; currentSlideElement := currentSlideElement d;
     totalSlidesElement := totalSlidesElement d; prevButton := v;
     nextButton := nextButton d; progressFill := progressFill d;
     canvases := canvases d; activeElement := activeElement d |}.
Definition set_nextButton (v : option button) (d : Document) : Document :=
  {| slides := slides d; currentSlideElement := currentSlideElement d;
     totalSlidesElement := totalSlidesElement d; prevButton := prevButton d;
     nextButton := v; progressFill := progressFill d;
     canvases := canvases d; activeElement := activeElement d |}.
Definition set_progressFill (v : option (option float)) (d : Document) : Document :=
  {| slides := slides d; currentSlideElement := currentSlideElement d;
     totalSlidesElement := totalSlidesElement d; prevButton := prevButton d;
     nextButton := nextButton d; progressFill := v;
     canvases := canvases d; activeElement := activeElement d |}.
Definition set_activeElement (v : option nat) (d : Document) : Document :=
  {| slides := slides d; currentSlideElement := currentSlideElement d;
     totalSlidesElement := totalSlidesElement d; prevButton := prevButton d;
     nextButton := nextButton d; progressFill := progressFill d;
     canvases := canvases d; activeElement := v |}.

Definition set_items (v : gmap string JS.jsstring) (s : Storage) : Storage :=
  {| items := v; getItemThrows := getItemThrows s; setItemThrows := setItemThrows s |}.

Definition set_innerWidth (v : Z) (e : Window) : Window :=
  {| innerWidth := v; localStorage := localStorage e; now := now e;
     frameCallbacks := frameCallbacks e; timers := timers e;
     nextTimer := nextTimer e; chartJs := chartJs e; console := console e |}.
Definition set_localStorage (v : Storage) (e : Window) : Window :=
  {| innerWidth := innerWidth e; localStorage := v; now := now e;
     frameCallbacks := frameCallbacks e; timers := timers e;
     nextTimer := nextTimer e; chartJs := chartJs e; console := console e |}.
Definition set_now (v : Z) (e : Window) : Window :=
  {| innerWidth := innerWidth e; localStorage := localStorage e; now := v;
     frameCallbacks := frameCallbacks e; timers := timers e;
     nextTimer := nextTimer e; chartJs := chartJs e; console := console e |}.
Definition set_frameCallbacks (v : list callback) (e : Window) : Window :=
  {| innerWidth := innerWidth e; localStorage := localStorage e; now := now e;
     frameCallbacks := v; timers := timers e;
     nextTimer := nextTimer e; chartJs := chartJs e; console := console e |}.
Definition set_timers (v : list timer) (n : positive) (e : Window) : Window :=
  {| innerWidth := innerWidth e; localStorage := localStorage e; now := now e;
     frameCallbacks := frameCallbacks e; timers := v;
     nextTimer := n; chartJs := chartJs e; console := console e |}.
Definition set_console (v : list warning) (e : Window) : Window :=
  {| innerWidth := innerWidth e; localStorage := localStorage e; now := now e;
     frameCallbacks := frameCallbacks e; timers := timers e;
     nextTimer := nextTimer e; chartJs := chartJs e; console := v |}.

Definition upd_this (f : Controller -> Controller) (w : World) : World :=
  {| this := f (this w); document := document w; window := window w |}.
Definition upd_document (f : Document -> Document) (w : World) : World :=
  {| this := this w; document := f (document w); window := window w |}.
Definition upd_window (f : Window -> Window) (w : World) : World :=
  {| this := this w; document := document w; window := f (window w) |}.

(** *** Browser primitives *)

(** [list[i]] for a JavaScript number [i]: the element's position, or
    [None] for [undefined]. *)
Definition nodeAt {A} (l : list A) (i : Z) : option nat :=
  if (0 <=? i) && (i <? Z.of_nat (length l)) then Some (Z.to_nat i) else None.

Definition requestAnimationFrame (cb : callback) (w : World) : World :=
  upd_window (fun e => set_frameCallbacks (frameCallbacks e ++ [cb]) e) w.

Definition setTimeout (cb : callback) (delay : Z) (w : World) : positive * World :=
  let e := window w in
  (nextTimer e,
   upd_window (set_timers (timers e ++ [Timer (nextTimer e) (now e + delay) cb])
                          (Pos.succ (nextTimer e))) w).

Definition clearTimeout (id : positive) (w : World) : World :=
  upd_window (fun e => set_timers (filter (fun t => timerId t ≠ id) (timers e))
                                  (nextTimer e) e) w.

Definition console_warn (msg : warning) (w : World) : World :=
  upd_window (fun e => set_console (console e ++ [msg]) e) w.

Definition storageKey : string := "presentationProgress".

(** ** The methods of [PresentationController] *)

(** main.js 262-277.  The second half of the method restarts the width
    animation of the [.stat-progress .progress-bar] elements, which are not
    part of this model. *)
Definition percentage (current total : Z) : float :=
  PrimFloat.mul (PrimFloat.div (JS.ofInt (current + 1)) (JS.ofInt total)) 100%float.

Definition updateProgress (w : World) : World :=
  match progressFill (document w) with
  | Some _ =>
      upd_document
        (set_progressFill
           (Some (Some (percentage (currentSlide (this w)) (totalSlides (this w)))))) w
  | None => w
  end.

(** main.js 279-286 *)
Definition updateSlideCounter (w : World) : World :=
  let w :=
    match currentSlideElement (document w) with
    | Some _ =>
        upd_document
          (set_currentSlideElement (Some (JS.toString (currentSlide (this w) + 1)))) w
    | None => w
    end in
  match totalSlidesElement (document w) with
  | Some _ =>
      upd_document (set_totalSlidesElement (Some (JS.toString (totalSlides (this w))))) w
  | None => w
  end.

(** main.js 288-297; [disabledArg] defaults to [false] in the source. *)
Definition updateButtonStates (disabledArg : bool) (w : World) : World :=
  let w :=
    match prevButton (document w) with
    | Some _ =>
        let d := disabledArg || (currentSlide (this w) =? 0) in
        upd_document (set_prevButton (Some (Button d d))) w
    | None => w
    end in
  match nextButton (document w) with
  | Some _ =>
      let d := disabledArg || (currentSlide (this w) =? totalSlides (this w) - 1) in
      upd_document (set_nextButton (Some (Button d d))) w
  | None => w
  end.

(** main.js 489-495 *)
Definition saveProgress (w : World) : World :=
  let st := localStorage (window w) in
  if setItemThrows st then console_warn CouldNotSave w
  else
    upd_window
      (set_localStorage
         (set_items (<[storageKey := JS.toString (currentSlide (this w))]> (items st)) st)) w.

(** main.js 497-509 *)
Definition loadProgress (w : World) : World :=
  let st := localStorage (window w) in
  if getItemThrows st then console_warn CouldNotLoad w
  else
    match items st !! storageKey with
    | Some saved =>
        match JS.parseInt saved with
        | Some savedSlide =>
            if (0 <=? savedSlide) && (savedSlide <? totalSlides (this w))
            then upd_this (set_currentSlide savedSlide) w
            else w
        | None => w
        end
    | None => w
    end.

(** main.js 247-260 *)
Definition showSlide (index : Z) (w : World) : World :=
  let w :=
    upd_document
      (fun d =>
         set_slides
           (imap (fun i s =>
                    let s := set_exit false (set_active false s) in
                    if Z.of_nat i =? index then set_active true s else s)
                 (slides d)) d) w in
  let w := upd_this (set_currentSlide index) w in
  let w := updateProgress w in
  let w := updateSlideCounter w in
  updateButtonStates false w.

(** main.js 202-219: the synchronous part of [goToSlide]. *)
Definition goToSlide (index : Z) (w : World) : World :=
  if isAnimating (this w) || (index <? 0) || (index >=? totalSlides (this w)) then w
  else
    let w := upd_this (set_isAnimating true) w in
    let w := updateButtonStates true w in
    let w :=
      match nodeAt (slides (document w)) (currentSlide (this w)) with
      | Some el =>
          upd_document
            (fun d => set_slides
                        (alter (fun s => set_exit true (set_active false s)) el (slides d)) d) w
      | None => w
      end in
    let w := upd_this (set_currentSlide index) w in
    requestAnimationFrame GoToSlideFrame1 w.

(** main.js 221: the outer animation-frame callback. *)
Definition goToSlide_frame1 (w : World) : World :=
  requestAnimationFrame GoToSlideFrame2 w.

(** main.js 222-243: the inner animation-frame callback. *)
Definition goToSlide_frame2 (w : World) : World :=
  let newSlideElement := nodeAt (slides (document w)) (currentSlide (this w)) in
  let w :=
    match newSlideElement with
    | Some el =>
        upd_document
          (fun d => set_slides
                      (alter (fun s => set_active true (set_exit false s)) el (slides d)) d) w
    | None => w
    end in
  let w := updateProgress w in
  let w := updateSlideCounter w in
  let w := saveProgress w in
  snd (setTimeout (GoToSlideSettle newSlideElement) 600 w).

(** main.js 234-242: the settle callback. *)
Definition goToSlide_settle (newSlideElement : option nat) (w : World) : World :=
  let w := upd_this (set_isAnimating false) w in
  let w := updateButtonStates false w in
  match newSlideElement with
  | Some el => upd_document (set_activeElement (Some el)) w
  | None => w
  end.

(** main.js 190-194 *)
Definition nextSlide (w : World) : World :=
  if currentSlide (this w) <? totalSlides (this w) - 1
  then goToSlide (currentSlide (this w) + 1) w
  else w.

(** main.js 196-200 *)
Definition previousSlide (w : World) : World :=
  if currentSlide (this w) >? 0
  then goToSlide (currentSlide (this w) - 1) w
  else w.

(** main.js 73-97.  The second component tells whether [e.preventDefault()]
    was called. *)
Definition handleKeyboard (key : string) (w : World) : World * bool :=
  if isAnimating (this w) then (w, false)
  else if String.eqb key "ArrowLeft" || String.eqb key "PageUp"
  then (previousSlide w, true)
  else if String.eqb key "ArrowRight" || String.eqb key "PageDown" || String.eqb key " "
  then (nextSlide w, true)
  else if String.eqb key "Home" then (goToSlide 0 w, true)
  else if String.eqb key "End" then (goToSlide (totalSlides (this w) - 1) w, true)
  else (w, false).

(** main.js 99-103; [x], [y] are [e.touches[0].clientX/Y]. *)
Definition handleTouchStart (x y : Z) (w : World) : World :=
  upd_this (set_touchStart x y (now (window w))) w.

(** main.js 105-130; [x], [y] are [e.changedTouches[0].clientX/Y].  The
    second component tells whether [e.preventDefault()] was called. *)
Definition handleTouchEnd (x y : Z) (w : World) : World * bool :=
  if isAnimating (this w) then (w, false)
  else
    let deltaX := x - touchStartX (this w) in
    let deltaY := y - touchStartY (this w) in
    let deltaTime := now (window w) - touchStartTime (this w) in
    if (Z.abs deltaX >? Z.abs deltaY) && (Z.abs deltaX >? 50) && (deltaTime <? 500)
    then
      if deltaX >? 0 then (previousSlide w, true) else (nextSlide w, true)
    else (w, false).

(** main.js 157-167 *)
Definition optimizeForMobile (w : World) : World :=
  upd_document
    (fun d =>
       set_slides
         (List.map (fun s =>
                      if isMobile (this w)
                      then set_transition "opacity 0.3s ease" s
                      else set_transition "all 0.6s cubic-bezier(0.4, 0, 0.2, 1)" s)
                   (slides d)) d) w.

(** main.js 132-137 and 154: cancel the pending timer, start a new one. *)
Definition handleResize (w : World) : World :=
  let w :=
    match resizeTimeout (this w) with
    | Some id => clearTimeout id w
    | None => w
    end in
  let '(id, w) := setTimeout ResizeSettled 250 w in
  upd_this (set_resizeTimeout (Some id)) w.

(** main.js 138-154: the debounced callback.  Every handle in the registry
    is a chart object, so the [typeof chart.resize] test passes. *)
Definition handleResize_settled (w : World) : World :=
  let width := innerWidth (window w) in
  let w := upd_this (set_device (width <=? 768) ((width >? 768) && (width <=? 1024))) w in
  let w := upd_this (fun c => set_charts (S <$> charts c) c) w in
  if isMobile (this w) then optimizeForMobile w else w.

(** main.js 299-465: the ten chart constructions in source order
    ([initCharts], [initKPICharts], [initTechRadarChart]). *)
Definition chartIds : list string :=
  [ "skillsChart"; "qualificationsChart"; "approachChart"; "methodologyChart";
    "serviceChart"; "satisfactionChart"; "responseTimeChart"; "skillsChart2";
    "successChart"; "techRadarChart" ].

(** Each construction is guarded by [canvas && typeof Chart !== 'undefined']
    and followed by [this.charts.set(id, chart)].  The second component is
    [true] when a constructor threw, which abandons the remaining ones. *)
Fixpoint createCharts (ids : list string) (w : World) : World * bool :=
  match ids with
  | [] => (w, false)
  | id :: rest =>
      match chartJs (window w) with
      | Some throwing =>
          if bool_decide (id ∈ canvases (document w)) then
            if bool_decide (id ∈ throwing) then (w, true)
            else createCharts rest
                   (upd_this (fun c => set_charts (<[id := 0%nat]> (charts c)) c) w)
          else createCharts rest w
      | None => createCharts rest w
      end
  end.

(** main.js 299-389: the [try]/[catch] around the constructions. *)
Definition initCharts (w : World) : World :=
  let '(w, thrown) := createCharts chartIds w in
  if thrown then console_warn ChartInitFailed w else w.

(** main.js 38-48.  [setupEventListeners] registers the handlers that
    [step] below dispatches to. *)
Definition init (w : World) : World :=
  let w := updateSlideCounter w in
  let w := updateProgress w in
  let w := updateButtonStates false w in
  let w := initCharts w in
  let w := loadProgress w in
  showSlide 0 w.

(** main.js 7-36 *)
Definition construct (d : Document) (e : Window) : World :=
  init
    {| this :=
         {| currentSlide := 0;
            totalSlides := Z.of_nat (length (slides d));
            isAnimating := false;
            touchStartX := 0; touchStartY := 0; touchStartTime := 0;
            charts := ∅;
            isMobile := innerWidth e <=? 768;
            isTablet := (innerWidth e >? 768) && (innerWidth e <=? 1024);
            resizeTimeout := None |};
       document := d;
       window := e |}.

(** main.js 513-521: the [DOMContentLoaded] listener, up to the creation of
    the controller. *)
Definition domContentLoaded (d : Document) (e : Window) : World :=
  match chartJs e with
  | None => construct d (set_console (console e ++ [ChartJsNotLoaded]) e)
  | Some _ => construct d e
  end.

(** ** The event loop *)

Inductive event :=
  | ClickPrev
  | ClickNext
  | KeyDown (key : string)
  | TouchStart (x y : Z)
  | TouchEnd (x y : Z)
  | WindowResize (width : Z)
  | ObservedResize (canvasIds : list string)
  | AnimationFrame
  | Elapse (ms : N)
  | Timeout (id : positive)
  | VisibilityChange (hidden : bool)
  | BeforeUnload
  | CallGoToSlide (index : Z).

Definition runCallback (cb : callback) (w : World) : World :=
  match cb with
  | GoToSlideFrame1 => goToSlide_frame1 w
  | GoToSlideFrame2 => goToSlide_frame2 w
  | GoToSlideSettle el => goToSlide_settle el w
  | ResizeSettled => handleResize_settled w
  end.

(** An animation frame runs the callbacks queued before it; those queued
    while it runs wait for the next frame. *)
Definition animationFrame (w : World) : World :=
  let queued := frameCallbacks (window w) in
  let w := upd_window (set_frameCallbacks []) w in
  fold_left (fun w cb => runCallback cb w) queued w.

(** A timer can fire once its delay has passed, never before. *)
Definition fireTimer (id : positive) (w : World) : World :=
  match List.find (fun t => Pos.eqb (timerId t) id) (timers (window w)) with
  | Some t =>
      if due t <=? now (window w)
      then runCallback (timerCallback t) (clearTimeout id w)
      else w
  | None => w
  end.

(** main.js 171-181: the [ResizeObserver] callback, one entry per canvas. *)
Definition observedResize (canvasIds : list string) (w : World) : World :=
  upd_this
    (fun c => set_charts (fold_left (fun m id => alter S id m) canvasIds (charts c)) c) w.

Definition step (e : event) (w : World) : World :=
  match e with
  | ClickPrev =>
      match prevButton (document w) with Some _ => previousSlide w | None => w end
  | ClickNext =>
      match nextButton (document w) with Some _ => nextSlide w | None => w end
  | KeyDown key => fst (handleKeyboard key w)
  | TouchStart x y => handleTouchStart x y w
  | TouchEnd x y => fst (handleTouchEnd x y w)
  | WindowResize width => handleResize (upd_window (set_innerWidth width) w)
  | ObservedResize ids => observedResize ids w
  | AnimationFrame => animationFrame w
  | Elapse ms => upd_window (fun e => set_now (now e + Z.of_N ms) e) w
  | Timeout id => fireTimer id w
  | VisibilityChange hidden => if hidden then saveProgress w else w   (* main.js 549-556 *)
  | BeforeUnload => saveProgress w                                  (* main.js 559-563 *)
  | CallGoToSlide index => goToSlide index w
  end.

Fixpoint run (trace : list event) (w : World) : World :=
  match trace with
  | [] => w
  | e :: rest => run rest (step e w)
  end.


(** ** A concrete page, used to run the model *)

Definition demoDocument (n : nat) : Document :=
  {| slides := replicate n (Slide false false None);
     currentSlideElement := Some [];
     totalSlidesElement := Some [];
     prevButton := Some (Button false false);
     nextButton := Some (Button false false);
     progressFill := Some None;
     canvases := ["skillsChart"; "successChart"];
     activeElement := None |}.

Definition demoStorage (saved : option JS.jsstring) : Storage :=
  {| items := match saved with
              | Some v => {[ storageKey := v ]}
              | None => ∅
              end;
     getItemThrows := false;
     setItemThrows := false |}.

Definition demoWindow (saved : option JS.jsstring) : Window :=
  {| innerWidth := 1280;
     localStorage := demoStorage saved;
     now := 0;
     frameCallbacks := [];
     timers := [];
     nextTimer := 1;
     chartJs := Some [];
     console := [] |}.

Definition demoWorld (n : nat) (saved : option JS.jsstring) : World :=
  domContentLoaded (demoDocument n) (demoWindow saved).

(** ** Specification vocabulary *)

(** Positions of the slides that carry the class ['active']. *)
Fixpoint activeFrom (i : nat) (l : list slide) : list nat :=
  match l with
  | [] => []
  | s :: r => if active s then i :: activeFrom (S i) r else activeFrom (S i) r
  end.

Definition activeSlides (w : World) : list nat := activeFrom 0 (slides (document w)).

(** Slide [k] is the only one marked active, and it is not marked exiting. *)
Definition marksAt (k : Z) (l : list slide) : Prop :=
  forall i s, l !! i = Some s ->
    active s = bool_decide (Z.of_nat i = k) /\ (Z.of_nat i = k -> exit s = false).

Definition noneActive (l : list slide) : Prop :=
  forall i s, l !! i = Some s -> active s = false.

(** The boundary rule for the two navigation controls. *)
Definition buttonsAt (k total : Z) (d : Document) : Prop :=
  (forall b, prevButton d = Some b -> b = Button (k =? 0) (k =? 0)) /\
  (forall b, nextButton d = Some b -> b = Button (k =? total - 1) (k =? total - 1)).

Definition buttonsLocked (d : Document) : Prop :=
  (forall b, prevButton d = Some b -> b = Button true true) /\
  (forall b, nextButton d = Some b -> b = Button true true).

(** Counter and progress bar show slide [k] of [total]. *)
Definition displayAt (k total : Z) (d : Document) : Prop :=
  (forall t, currentSlideElement d = Some t -> t = JS.toString (k + 1)) /\
  (forall p, progressFill d = Some p -> p = Some (percentage k total)).

Definition isSettle (cb : callback) : bool :=
  match cb with GoToSlideSettle _ => true | _ => false end.

Definition isResizeSettled (cb : callback) : bool :=
  match cb with ResizeSettled => true | _ => false end.

Definition noSettleTimer (tms : list timer) : Prop :=
  forall t, t ∈ tms -> isSettle (timerCallback t) = false.

(** The phases of the controller: [Idle], and the three stages of a
    transition (before the first frame, between the two frames, and waiting
    for the settle timer [id], due at [due]). *)
Inductive phase :=
  | Idle
  | Exiting1
  | Exiting2
  | Settling (id : positive) (due600 : Z).

Definition inPhase (p : phase) (w : World) : Prop :=
  match p with
  | Idle =>
      isAnimating (this w) = false /\
      frameCallbacks (window w) = [] /\
      noSettleTimer (timers (window w)) /\
      marksAt (currentSlide (this w)) (slides (document w)) /\
      buttonsAt (currentSlide (this w)) (totalSlides (this w)) (document w) /\
      displayAt (currentSlide (this w)) (totalSlides (this w)) (document w)
  | Exiting1 =>
      isAnimating (this w) = true /\
      frameCallbacks (window w) = [GoToSlideFrame1] /\
      noSettleTimer (timers (window w)) /\
      noneActive (slides (document w)) /\
      buttonsLocked (document w)
  | Exiting2 =>
      isAnimating (this w) = true /\
      frameCallbacks (window w) = [GoToSlideFrame2] /\
      noSettleTimer (timers (window w)) /\
      noneActive (slides (document w)) /\
      buttonsLocked (document w)
  | Settling id due600 =>
      isAnimating (this w) = true /\
      frameCallbacks (window w) = [] /\
      (let t := Timer id due600
                  (GoToSlideSettle (nodeAt (slides (document w)) (currentSlide (this w)))) in
       t ∈ timers (window w) /\
       forall t', t' ∈ timers (window w) -> isSettle (timerCallback t') = true -> t' = t) /\
      marksAt (currentSlide (this w)) (slides (document w)) /\
      buttonsLocked (document w) /\
      displayAt (currentSlide (this w)) (totalSlides (this w)) (document w)
  end.

(** The index is in range (or the deck is empty). *)
Definition indexOK (current total : Z) (l : list slide) : Prop :=
  total = Z.of_nat (length l) /\
  0 <= current /\ (current < total \/ current = 0).

(** Timer handles are never reused, [resizeTimeout] names the pending
    debounce timer whenever there is one, and every other pending timer is
    a settle timer. *)
Definition timersOK (tms : list timer) (next : positive) (rt : option positive) : Prop :=
  (forall t, t ∈ tms -> (timerId t < next)%positive) /\
  NoDup (timerId <$> tms) /\
  (forall t, t ∈ tms -> (timerCallback t = ResizeSettled <-> rt = Some (timerId t))) /\
  (forall id, rt = Some id -> (id < next)%positive) /\
  (forall t, t ∈ tms ->
     isSettle (timerCallback t) = true \/ timerCallback t = ResizeSettled).

(** What holds of every world the page can be in. *)
Record inv (w : World) : Prop := {
  inv_index : indexOK (currentSlide (this w)) (totalSlides (this w)) (slides (document w));
  inv_timers : timersOK (timers (window w)) (nextTimer (window w)) (resizeTimeout (this w));
  inv_phase : exists p, inPhase p w
}.

(** The window after [saveProgress] has stored (or failed to store) [k]. *)
Definition savedWindow (k : Z) (e : Window) : Window :=
  if setItemThrows (localStorage e) then set_console (console e ++ [CouldNotSave]) e
  else set_localStorage
         (set_items (<[storageKey := JS.toString k]> (items (localStorage e)))
                    (localStorage e)) e.

(** The slides after [goToSlide] has marked slide [k] exiting, and after the
    second frame has marked slide [k] active. *)
Definition slidesExited (k : Z) (l : list slide) : list slide :=
  match nodeAt l k with
  | Some el => alter (fun s => set_exit true (set_active false s)) el l
  | None => l
  end.

Definition slidesEntered (k : Z) (l : list slide) : list slide :=
  match nodeAt l k with
  | Some el => alter (fun s => set_active true (set_exit false s)) el l
  | None => l
  end.

(** The timer table after [handleResize]: the timer named by
    [resizeTimeout] is gone and a new debounce timer is pending. *)
Definition clearedTimers (rt : option positive) (tms : list timer) : list timer :=
  match rt with
  | Some id => filter (fun t => timerId t ≠ id) tms
  | None => tms
  end.

(** The world a completed transition to [target] leaves behind: what the
    three callbacks of [goToSlide] have written once the settle timer has
    fired, 600 ms after the second frame. *)
Definition settled (target : Z) (w : World) : World :=
  let total := totalSlides (this w) in
  let sl := slidesEntered target
              (slidesExited (currentSlide (this w)) (slides (document w))) in
  let e := savedWindow target (window w) in
  {| this := set_isAnimating false (set_currentSlide target (this w));
     document :=
       set_activeElement
         (match nodeAt sl target with
          | Some el => Some el
          | None => activeElement (document w)
          end)
         (set_nextButton
            ((fun _ => Button (target =? total - 1) (target =? total - 1))
               <$> nextButton (document w))
            (set_prevButton
               ((fun _ => Button (target =? 0) (target =? 0)) <$> prevButton (document w))
               (set_totalSlidesElement
                  ((fun _ => JS.toString total) <$> totalSlidesElement (document w))
                  (set_currentSlideElement
                     ((fun _ => JS.toString (target + 1))
                        <$> currentSlideElement (document w))
                     (set_progressFill
                        ((fun _ => Some (percentage target total))
                           <$> progressFill (document w))
                        (set_slides sl (document w)))))));
     window := set_timers (timers e) (Pos.succ (nextTimer e)) (set_now (now e + 600) e) |}.

(** Between two resize events of a burst: the debounce timer [id], started
    at time [T], is pending and no relayout has happened since the burst
    began with the chart registry [c0]. *)
Definition debouncing (T : Z) (id : positive) (c0 : gmap string nat) (w : World) : Prop :=
  inv w /\
  resizeTimeout (this w) = Some id /\
  Timer id (T + 250) ResizeSettled ∈ timers (window w) /\
  charts (this w) = c0.

(** Five resize events, each 100 ms after the one before. *)
Definition fiveResizes : list (list event * Z) :=
  [([Elapse 100], 1000); ([Elapse 100], 900); ([Elapse 100], 800); ([Elapse 100], 700)].

(** A controller in the middle of a transition. *)
Definition midTransition : World := goToSlide 1 (demoWorld 3 None).

(** A restyling of a slide that leaves its two marks alone. *)
Definition keepsMarks (f : slide -> slide) : Prop :=
  forall s, active (f s) = active s /\ exit (f s) = exit s.

(** Printed numbers: what may follow them without extending them. *)
Definition decimalChar (c : N) : Prop := (48 <= c <= 57)%N.

Definition fuelled (fuel : nat) (n : Z) : Prop := n < 10 * 2 ^ Z.of_nat fuel.

Definition stopsNumber (rest : JS.jsstring) : Prop :=
  match rest with
  | [] => True
  | c :: _ => JS.radixDigit 10 c = None
  end.

Definition startsWithX (rest : JS.jsstring) : bool :=
  match rest with
  | c :: _ => JS.isX c
  | [] => false
  end.

(** A window in which the page's script has not run yet, and the worlds the
    page can be in: those a trace of events leads to from a freshly
    constructed controller. *)
Definition pristine (e : Window) : Prop :=
  frameCallbacks e = [] /\ timers e = [].

Definition loaded (w : World) : Prop :=
  exists d e trace, pristine e /\ w = run trace (domContentLoaded d e).

(** The complete transition sequence started by [goToSlide target]: two
    animation frames, the 600 ms settle delay, the settle timer. *)
Definition transitionTrace (target : Z) (w : World) : list event :=
  [CallGoToSlide target; AnimationFrame; AnimationFrame; Elapse 600;
   Timeout (nextTimer (window w))].

(** Navigation requests, as opposed to clock, resize and lifecycle events. *)
Definition isNavigation (e : event) : bool :=
  match e with
  | ClickPrev | ClickNext | KeyDown _ | TouchStart _ _ | TouchEnd _ _
  | CallGoToSlide _ => true
  | _ => false
  end.

(** The swipe rule in the words of the specification. *)
Definition isSwipe (dx dy dt : Z) : bool :=
  (Z.abs dx >? Z.abs dy) && (Z.abs dx >? 50) && (dt <? 500).

(** The key map in the words of the specification. *)
Inductive keyAction := KeyPrevious | KeyNext | KeyFirst | KeyLast | KeyNone.

Definition keyMap (key : string) : keyAction :=
  if bool_decide (key = "ArrowLeft" \/ key = "PageUp") then KeyPrevious
  else if bool_decide (key = "ArrowRight" \/ key = "PageDown" \/ key = " ") then KeyNext
  else if bool_decide (key = "Home") then KeyFirst
  else if bool_decide (key = "End") then KeyLast
  else KeyNone.

Definition keyEffect (a : keyAction) (w : World) : World * bool :=
  match a with
  | KeyPrevious => (previousSlide w, true)
  | KeyNext => (nextSlide w, true)
  | KeyFirst => (goToSlide 0 w, true)
  | KeyLast => (goToSlide (totalSlides (this w) - 1) w, true)
  | KeyNone => (w, false)
  end.

(** Clock events: time passing and timers being given a chance to fire. *)
Definition isClock (e : event) : bool :=
  match e with Elapse _ | Timeout _ => true | _ => false end.

Definition elapsed (trace : list event) : Z :=
  fold_right (fun e acc => match e with Elapse ms => Z.of_N ms + acc | _ => acc end) 0 trace.

(** A gap between two resize events of a burst: clock events only, adding
    up to less than the debounce window. *)
Definition quietGap (gap : list event) : bool :=
  forallb isClock gap && (elapsed gap <? 250).

(** A burst of resize events: a first one, then further ones, each after a
    gap. *)
Fixpoint burstTrace (width : Z) (more : list (list event * Z)) : list event :=
  match more with
  | [] => [WindowResize width]
  | (gap, width') :: rest => WindowResize width :: gap ++ burstTrace width' rest
  end.

Definition pendingResize (w : World) : list timer :=
  filter (fun t => isResizeSettled (timerCallback t) = true) (timers (window w)).





(** The world as seen without [localStorage] and the console. *)
Definition sansStorage (w : World) : World :=
  upd_window
    (fun e => set_console []
                (set_localStorage
                   {| items := ∅; getItemThrows := false; setItemThrows := false |} e)) w.

(** The same world with another [localStorage] and another console. *)
Definition withStorage (st : Storage) (c : list warning) (w : World) : World :=
  upd_window (fun e => set_console c (set_localStorage st e)) w.

(** Two worlds that differ at most in [localStorage] and the console. *)
Definition sameButStorage (w1 w2 : World) : Prop := sansStorage w1 = sansStorage w2.

(** [f] maps worlds that differ at most in storage to such worlds. *)
Definition ignoresStorage (f : World -> World) : Prop :=
  forall w1 w2, sameButStorage w1 w2 -> sameButStorage (f w1) (f w2).



(** The page reloaded: the same document and browser as [demoWorld], with
    the storage another world left behind. *)
Definition reload (n : nat) (w : World) : World :=
  domContentLoaded (demoDocument n)
    (set_localStorage (localStorage (window w)) (demoWindow None)).

(** The demo deck of [n] slides after a completed transition to slide [k]. *)
Definition onSlide (n : nat) (k : Z) : World :=
  run (transitionTrace k (demoWorld n None)) (demoWorld n None).

(** A page whose storage holds [saved], before [loadProgress] runs. *)
Definition beforeLoad (n : nat) (saved : JS.jsstring) : World :=
  {| this :=
       {| currentSlide := 0;
          totalSlides := Z.of_nat n;
          isAnimating := false;
          touchStartX := 0; touchStartY := 0; touchStartTime := 0;
          charts := ∅;
          isMobile := false;
          isTablet := false;
          resizeTimeout := None |};
     document := demoDocument n;
     window := demoWindow (Some saved) |}.



(** The complete transition with the settle timer given its chance [ms]
    milliseconds after the second frame. *)
Definition transitionTraceAfter (ms : N) (target : Z) (w : World) : list event :=
  [CallGoToSlide target; AnimationFrame; AnimationFrame; Elapse ms;
   Timeout (nextTimer (window w))].


(** The events the browser delivers on its own: frames, time, timers. *)
Definition isScheduler (e : event) : bool :=
  match e with AnimationFrame | Elapse _ | Timeout _ => true | _ => false end.

(** One slide forward with the right-arrow key, the transition run to its
    end, and one slide back with the left-arrow key, likewise. *)
Definition nextThenPrevious (w : World) : list event :=
  [KeyDown "ArrowRight"; AnimationFrame; AnimationFrame; Elapse 600;
   Timeout (nextTimer (window w));
   KeyDown "ArrowLeft"; AnimationFrame; AnimationFrame; Elapse 600;
   Timeout (Pos.succ (nextTimer (window w)))].

(** The inline transition [optimizeForMobile] writes on a narrow window. *)
Definition mobileTransition : string := "opacity 0.3s ease".

(** A slide's inline transition is what it was, or the mobile one. *)
Definition styleKept (s s' : slide) : Prop :=
  transition s' = transition s \/ transition s' = Some mobileTransition.

Definition stylesKept (l l' : list slide) : Prop :=
  length l' = length l /\
  forall i s s', l !! i = Some s -> l' !! i = Some s' -> styleKept s s'.

(** The chart registry keeps its keys, and no chart loses [resize()]
    calls. *)
Definition chartsGrow (m m' : gmap string nat) : Prop :=
  forall k,
    match m !! k, m' !! k with
    | Some n, Some n' => (n <= n')%nat
    | None, None => True
    | _, _ => False
    end.




(** A browser in which [new Chart] throws on the canvases [throwing]. *)
Definition throwingWindow (throwing : list string) : Window :=
  {| innerWidth := 1280;
     localStorage := demoStorage None;
     now := 0;
     frameCallbacks := [];
     timers := [];
     nextTimer := 1;
     chartJs := Some throwing;
     console := [] |}.

(** A browser in which the chart library did not load. *)
Definition chartlessWindow : Window :=
  {| innerWidth := 1280;
     localStorage := demoStorage None;
     now := 0;
     frameCallbacks := [];
     timers := [];
     nextTimer := 1;
     chartJs := None;
     console := [] |}.

(** ** The stat bars *)

(** main.js 268-276, the second half of [updateProgress]: every
    ['.stat-progress .progress-bar'] is emptied and a 100 ms timer puts
    back the width it had.  The bars are no part of the controller's
    state, so this part of the method is modelled on its own page. *)
Module StatBars.

(** The closure of main.js 273-275: [bar.style.width = width]. *)
Record timer := Timer {
  due : Z;
  bar : nat;
  width : string
}.

Record page := Page {
  bars : list string;      (* style.width of each bar, in document order *)
  now : Z;                 (* the clock, in ms *)
  timers : list timer      (* pending timers, oldest first *)
}.

(** main.js 270-275, the body of the [forEach]. *)
Definition animateBar (p : page) (i : nat) : page :=
  match bars p !! i with
  | Some width =>
      {| bars := <[i := "0%"]> (bars p);
         now := now p;
         timers := timers p ++ [Timer (now p + 100) i width] |}
  | None => p
  end.

(** main.js 268-276 *)
Definition updateProgress (p : page) : page :=
  fold_left animateBar (seq 0 (length (bars p))) p.

(** main.js 38-48: of the calls [init] makes, [updateProgress] (line 40)
    and [showSlide(0)] (line 47, which calls [updateProgress] at line 257)
    reach the bars, in one task. *)
Definition init (p : page) : page := updateProgress (updateProgress p).

(** [UpdateProgress] is a later call of the method (the second frame of
    [goToSlide]).  All the timers have the same delay, so they run in the
    order they were set: [Fire] runs the oldest one once it is due. *)
Inductive event :=
  | UpdateProgress
  | Elapse (ms : N)
  | Fire.

Definition fire (p : page) : page :=
  match timers p with
  | t :: rest =>
      if due t <=? now p
      then {| bars := <[bar t := width t]> (bars p); now := now p; timers := rest |}
      else p
  | [] => p
  end.

Definition step (e : event) (p : page) : page :=
  match e with
  | UpdateProgress => updateProgress p
  | Elapse ms => {| bars := bars p; now := now p + Z.of_N ms; timers := timers p |}
  | Fire => fire p
  end.

Fixpoint run (trace : list event) (p : page) : page :=
  match trace with
  | [] => p
  | e :: rest => run rest (step e p)
  end.

(** Events of the clock and the timers only. *)
Definition isClock (e : event) : bool :=
  match e with UpdateProgress => false | _ => true end.

Definition elapsed (trace : list event) : Z :=
  fold_right (fun e acc => match e with Elapse ms => Z.of_N ms + acc | _ => acc end) 0 trace.

(** What the timers [ts] write, run in order. *)
Definition restored (ts : list timer) (bs : list string) : list string :=
  fold_left (fun bs t => <[bar t := width t]> bs) ts bs.

(** The timers one call of [updateProgress] sets at time [d - 100] over
    bars of widths [ws]. *)
Definition restoring (d : Z) (ws : list string) : list timer :=
  imap (fun i w => Timer d i w) ws.

Definition emptied (n : nat) : list string := replicate n "0%".

(** A page at rest with bars of widths [ws]. *)
Definition atRest (ws : list string) : page :=
  {| bars := ws; now := 0; timers := [] |}.

End StatBars.

(** ** The loading state *)

(** main.js 522-545: the rest of the [DOMContentLoaded] listener counts the
    images that have finished loading and marks the body ['loaded']. *)
Module Loading.

Record page := Page {
  bodyLoaded : bool;        (* document.body carries the class 'loaded' *)
  loadedImages : nat;       (* the counter of the closure *)
  totalImages : nat;
  listening : list bool     (* per image: the load and error listeners are set *)
}.

(** main.js 528-533 *)
Definition updateLoadingProgress (p : page) : page :=
  {| bodyLoaded := bodyLoaded p || (S (loadedImages p) =? totalImages p)%nat;
     loadedImages := S (loadedImages p);
     totalImages := totalImages p;
     listening := listening p |}.

(** main.js 535-542, the body of the [forEach]; [complete] is
    [img.complete]. *)
Definition visit (p : page) (complete : bool) : page :=
  if complete
  then
    let p := updateLoadingProgress p in
    {| bodyLoaded := bodyLoaded p; loadedImages := loadedImages p;
       totalImages := totalImages p; listening := listening p ++ [false] |}
  else
    {| bodyLoaded := bodyLoaded p; loadedImages := loadedImages p;
       totalImages := totalImages p; listening := listening p ++ [true] |}.

(** main.js 522-545, over a body that carries ['loaded'] or not and the
    [complete] flags of the images in document order. *)
Definition setup (body : bool) (images : list bool) : page :=
  if (0 <? length images)%nat
  then fold_left visit images
         {| bodyLoaded := body; loadedImages := 0;
            totalImages := length images; listening := [] |}
  else {| bodyLoaded := true; loadedImages := 0; totalImages := 0; listening := [] |}.

(** A [load] or an [error] event on image [i]; both run the same
    listener. *)
Inductive event :=
  | Loaded (i : nat)
  | Failed (i : nat).

Definition target (e : event) : nat :=
  match e with Loaded i | Failed i => i end.

Definition step (e : event) (p : page) : page :=
  match listening p !! target e with
  | Some true => updateLoadingProgress p
  | _ => p
  end.

Fixpoint run (trace : list event) (p : page) : page :=
  match trace with
  | [] => p
  | e :: rest => run rest (step e p)
  end.

(** The images that were complete when the listener ran. *)
Definition completed (images : list bool) : nat :=
  length (filter (fun c => c = true) images).

(** The events of [trace] that reach a listener. *)
Definition heard (images : list bool) (trace : list event) : nat :=
  length (filter (fun e => images !! target e = Some false) trace).

(** The images that were not complete, by position. *)
Definition pending (images : list bool) : list nat :=
  filter (fun i => images !! i = Some false) (seq 0 (length images)).

(** Image [i] has finished: it was complete, or one of its events came. *)
Definition finished (images : list bool) (trace : list event) (i : nat) : Prop :=
  images !! i = Some true \/ i ∈ target <$> trace.

End Loading.

(** ** The tabs *)

(** main.js 467-487, [initTabs], over the elements of the document in tree
    order.  Of an element the listener reads and writes only what is
    recorded here. *)
Module Tabs.

Record element := Element {
  elementId : string;        (* the id attribute, empty when there is none *)
  tabButton : bool;          (* carries the class 'tab-button' *)
  tabContent : bool;         (* carries the class 'tab-content' *)
  active : bool;             (* carries the class 'active' *)
  dataTab : option string    (* getAttribute('data-tab'), None for null *)
}.

Definition set_active (v : bool) (el : element) : element :=
  {| elementId := elementId el; tabButton := tabButton el; tabContent := tabContent el;
     active := v; dataTab := dataTab el |}.

Fixpoint firstWithId (s : string) (els : list element) : option nat :=
  match els with
  | [] => None
  | el :: rest =>
      if bool_decide (elementId el = s) then Some 0%nat else S <$> firstWithId s rest
  end.

(** [document.getElementById]: the first element in tree order with that
    id; no element has the empty id. *)
Definition getElementById (s : string) (els : list element) : option nat :=
  if bool_decide (s = "") then None else firstWithId s els.

(** [forEach(x => x.classList.remove('active'))] over the elements
    [selected]. *)
Definition removeActive (selected : element -> bool) (els : list element) : list element :=
  (fun el => if selected el then set_active false el else el) <$> els.

(** The argument of [getElementById] in the listener of [button]; [null]
    is converted to the string ["null"]. *)
Definition targetTab (button : element) : string := default "null" (dataTab button).

(** main.js 472-484: the click listener of the tab button at [button]. *)
Definition clickListener (button : nat) (els : list element) : list element :=
  match els !! button with
  | Some b =>
      let els := removeActive tabButton els in
      let els := removeActive tabContent els in
      let els := alter (set_active true) button els in
      match getElementById (targetTab b) els with
      | Some targetContent => alter (set_active true) targetContent els
      | None => els
      end
  | None => els
  end.

(** main.js 468-471: which elements get the listener.  [initTabs] is the
    last statement of the [try] block of [initCharts] (main.js 384), so it
    runs only when no chart constructor threw. *)
Definition initTabs (thrown : bool) (els : list element) : list bool :=
  if thrown then replicate (length els) false else tabButton <$> els.

(** A click on the element at [i]. *)
Definition click (listeners : list bool) (i : nat) (els : list element) : list element :=
  match listeners !! i with
  | Some true => clickListener i els
  | _ => els
  end.

Definition run (listeners : list bool) (clicks : list nat) (els : list element)
    : list element :=
  fold_left (fun els i => click listeners i els) clicks els.

(** The listeners of the page built from the world [w] in which
    [initCharts] runs. *)
Definition listeners (w : World) (els : list element) : list bool :=
  initTabs (snd (createCharts chartIds w)) els.

(** Three tab buttons and their panels, the first tab shown. *)
Definition demoTabs : list element :=
  [ Element "" true false true (Some "overview");
    Element "" true false false (Some "details");
    Element "" true false false None;
    Element "overview" false true true None;
    Element "details" false true false None;
    Element "footer" false false true None ].

End Tabs.

(** * Properties *)

(** ** Reading back what [toString] prints *)

Module JSFacts.
Import JS.

Lemma decimalChar_cases c :
  decimalChar c ->
  c ∈ [48; 49; 50; 51; 52; 53; 54; 55; 56; 57]%N.
Proof.
  unfold decimalChar. intros H.
  assert (Hc : exists k, (k < 10)%nat /\ c = (48 + N.of_nat k)%N).
  { exists (N.to_nat (c - 48)). lia. }
  destruct Hc as (k & Hk & ->).
  do 10 (destruct k as [|k]; [simpl; repeat constructor|]). lia.
Qed.

Lemma decimalChar_plain c :
  decimalChar c -> isWhiteSpace c = false /\ isSign c = false /\ isX c = false.
Proof.
  intros H%decimalChar_cases.
  repeat (apply elem_of_cons in H as [-> | H]; [repeat split; reflexivity|]).
  inversion H.
Qed.

Lemma digit_char d : 0 <= d < 10 -> decimalChar (Z.to_N (48 + d)).
Proof. unfold decimalChar. lia. Qed.

Lemma radixDigit_decimal d :
  0 <= d < 10 -> radixDigit 10 (Z.to_N (48 + d)) = Some d.
Proof.
  intros H. unfold radixDigit, digitValue.
  replace ((48 <=? Z.to_N (48 + d))%N && (Z.to_N (48 + d) <=? 57)%N) with true
    by (symmetry; apply andb_true_iff; split; apply N.leb_le; lia).
  replace (Z.of_N (Z.to_N (48 + d)) - 48) with d by lia.
  destruct (Z.ltb_spec d 10); [reflexivity | lia].
Qed.

Lemma digitsOf_app fuel : forall n acc, digitsOf fuel n acc = digitsOf fuel n [] ++ acc.
Proof.
  induction fuel as [|fuel IH]; intros n acc; simpl; [reflexivity|].
  destruct (n <? 10); [reflexivity|].
  rewrite IH, (IH _ [_]), <- app_assoc. reflexivity.
Qed.

Lemma fuelled_log2 n : 0 <= n -> fuelled (Z.to_nat (Z.log2 n)) n.
Proof.
  intros H. unfold fuelled. rewrite Z2Nat.id by apply Z.log2_nonneg.
  destruct (Z.eq_dec n 0) as [-> | Hn]; [reflexivity|].
  pose proof (Z.log2_spec n ltac:(lia)) as [_ Hlt].
  rewrite Z.pow_succ_r in Hlt by apply Z.log2_nonneg. lia.
Qed.

Lemma fuelled_div fuel n : 0 <= n -> fuelled (S fuel) n -> fuelled fuel (n / 10).
Proof.
  unfold fuelled. intros H0 H.
  rewrite Nat2Z.inj_succ, Z.pow_succ_r in H by lia.
  apply Z.div_lt_upper_bound; [lia|].
  assert (0 < 2 ^ Z.of_nat fuel) by (apply Z.pow_pos_nonneg; lia). lia.
Qed.

Lemma parseDigits_digitsOf fuel :
  forall n rest, 0 <= n -> fuelled fuel n ->
    parseDigits 10 None (digitsOf fuel n rest) = parseDigits 10 (Some n) rest.
Proof.
  induction fuel as [|fuel IH]; intros n rest H0 Hf.
  - assert (n < 10) by (unfold fuelled in Hf; simpl in Hf; lia).
    simpl. rewrite Z.mod_small by lia. rewrite radixDigit_decimal by lia.
    reflexivity.
  - simpl. destruct (Z.ltb_spec n 10).
    + simpl. rewrite Z.mod_small by lia. rewrite radixDigit_decimal by lia.
      reflexivity.
    + rewrite IH; [| apply Z.div_pos; lia | apply fuelled_div; assumption].
      simpl. rewrite radixDigit_decimal by (apply Z.mod_pos_bound; lia).
      simpl. f_equal. f_equal.
      pose proof (Z.div_mod n 10 ltac:(lia)). lia.
Qed.

(** The printed form starts with a decimal digit; a one-digit number is
    that digit alone, a longer one continues with a decimal digit. *)
Lemma digitsOf_head fuel :
  forall n acc, 0 <= n -> fuelled fuel n ->
    exists c r, digitsOf fuel n acc = c :: r /\ decimalChar c /\
      ((n < 10 /\ r = acc /\ c = Z.to_N (48 + n)) \/
       (exists c2 r2, r = c2 :: r2 /\ decimalChar c2)).
Proof.
  induction fuel as [|fuel IH]; intros n acc H0 Hf.
  - assert (n < 10) by (unfold fuelled in Hf; simpl in Hf; lia).
    simpl. rewrite Z.mod_small by lia.
    eexists _, _. split; [reflexivity|]. split; [apply digit_char; lia|].
    left. auto.
  - simpl. destruct (Z.ltb_spec n 10).
    + rewrite Z.mod_small by lia.
      eexists _, _. split; [reflexivity|]. split; [apply digit_char; lia|].
      left. auto.
    + destruct (IH (n / 10) (Z.to_N (48 + n mod 10) :: acc))
        as (c & r & Heq & Hc & Hr);
        [apply Z.div_pos; lia | apply fuelled_div; assumption |].
      exists c, r. split; [assumption|]. split; [assumption|]. right.
      destruct Hr as [(_ & -> & _) | Hr]; [|assumption].
      eexists _, _. split; [reflexivity|].
      apply digit_char, Z.mod_pos_bound. lia.
Qed.

Lemma parseDigits_stop n rest :
  stopsNumber rest -> parseDigits 10 (Some n) rest = Some n.
Proof. destruct rest as [|c r]; simpl; [reflexivity|]. intros ->. reflexivity. Qed.

Lemma parseInt_toString_app k rest :
  0 <= k -> stopsNumber rest -> (k = 0 -> startsWithX rest = false) ->
  parseInt (toString k ++ rest) = Some k.
Proof.
  intros H0 Hstop Hx. unfold toString.
  destruct (Z.ltb_spec k 0); [lia|].
  rewrite digitsOf_app, <- app_assoc. simpl app. rewrite <- digitsOf_app.
  pose proof (parseDigits_digitsOf _ k rest H0 (fuelled_log2 k H0)) as Hparse.
  destruct (digitsOf_head _ k rest H0 (fuelled_log2 k H0))
    as (c & r & Heq & Hc & Hr).
  rewrite Heq in *.
  destruct (decimalChar_plain c Hc) as (Hws & Hsign & HX).
  unfold parseInt. simpl trimStart. rewrite Hws.
  assert (Hminus : (c =? 45)%N = false).
  { unfold isSign in Hsign. apply orb_false_iff in Hsign. tauto. }
  rewrite Hminus, Hsign.
  match goal with
  | |- (let '(R, s3) := ?m in _) = _ => assert (Hdec : m = (10, c :: r))
  end.
  { destruct r as [|x r']; [reflexivity|].
    destruct Hr as [(Hk & Hr & Hc0) | (c2 & r2 & Hr & Hc2)].
    - destruct (Z.eq_dec k 0) as [-> | Hne].
      + subst rest. simpl in Hx. rewrite Hx, andb_false_r by reflexivity. reflexivity.
      + replace (c =? 48)%N with false; [reflexivity|].
        symmetry. apply N.eqb_neq. lia.
    - injection Hr as -> ->.
      destruct (decimalChar_plain c2 Hc2) as (_ & _ & ->).
      rewrite andb_false_r. reflexivity. }
  rewrite Hdec, Hparse, parseDigits_stop by assumption.
  f_equal. lia.
Qed.

Lemma parseInt_toString k : 0 <= k -> parseInt (toString k) = Some k.
Proof.
  intros H. rewrite <- (app_nil_r (toString k)).
  apply parseInt_toString_app; [assumption | exact I | reflexivity].
Qed.

End JSFacts.

(** [parseInt] and [toString] on a few inputs. *)
Example parseInt_fraction : JS.parseInt (JS.lit "2.9") = Some 2.
Proof. reflexivity. Qed.

Example parseInt_unit : JS.parseInt (JS.lit "2px") = Some 2.
Proof. reflexivity. Qed.

Example parseInt_signed_hex : JS.parseInt (JS.lit "  -0x1f") = Some (-31).
Proof. reflexivity. Qed.

Example parseInt_bare_prefix : JS.parseInt (JS.lit "0x") = None.
Proof. reflexivity. Qed.

Example parseInt_empty : JS.parseInt [] = None.
Proof. reflexivity. Qed.

Example parseInt_words : JS.parseInt (JS.lit "slide 2") = None.
Proof. reflexivity. Qed.

Example toString_1203 : JS.toString 1203 = JS.lit "1203".
Proof. reflexivity. Qed.

Example toString_zero : JS.toString 0 = JS.lit "0".
Proof. reflexivity. Qed.

(** ** The methods in normal form *)

Arguments percentage : simpl never.
Arguments JS.toString : simpl never.
Arguments JS.parseInt : simpl never.

Lemma updateProgress_eq w :
  updateProgress w =
  upd_document
    (fun d => set_progressFill
                ((fun _ => Some (percentage (currentSlide (this w)) (totalSlides (this w))))
                   <$> progressFill d) d) w.
Proof.
  unfold updateProgress. destruct w as [t d e], d as [? ? ? ? ? pf ? ?]; simpl.
  destruct pf; reflexivity.
Qed.

Lemma updateSlideCounter_eq w :
  updateSlideCounter w =
  upd_document
    (fun d => set_totalSlidesElement
                ((fun _ => JS.toString (totalSlides (this w))) <$> totalSlidesElement d)
                (set_currentSlideElement
                   ((fun _ => JS.toString (currentSlide (this w) + 1))
                      <$> currentSlideElement d) d)) w.
Proof.
  unfold updateSlideCounter. destruct w as [t d e], d as [? c1 c2 ? ? ? ? ?]; simpl.
  destruct c1, c2; reflexivity.
Qed.

Lemma updateButtonStates_eq b w :
  updateButtonStates b w =
  upd_document
    (fun d =>
       let dp := b || (currentSlide (this w) =? 0) in
       let dn := b || (currentSlide (this w) =? totalSlides (this w) - 1) in
       set_nextButton ((fun _ => Button dn dn) <$> nextButton d)
         (set_prevButton ((fun _ => Button dp dp) <$> prevButton d) d)) w.
Proof.
  unfold updateButtonStates. destruct w as [t d e], d as [? ? ? b1 b2 ? ? ?]; simpl.
  destruct b1, b2; reflexivity.
Qed.

Lemma saveProgress_eq w :
  saveProgress w = upd_window (savedWindow (currentSlide (this w))) w.
Proof.
  unfold saveProgress, savedWindow, console_warn, upd_window.
  destruct w as [t d e]; simpl.
  destruct (setItemThrows (localStorage e)); reflexivity.
Qed.

(** [saveProgress] leaves the scheduler alone. *)
Lemma savedWindow_scheduler k e :
  frameCallbacks (savedWindow k e) = frameCallbacks e /\
  timers (savedWindow k e) = timers e /\
  nextTimer (savedWindow k e) = nextTimer e /\
  now (savedWindow k e) = now e /\
  innerWidth (savedWindow k e) = innerWidth e.
Proof. unfold savedWindow. destruct (setItemThrows _); repeat split. Qed.

Lemma goToSlide_rejected index w :
  isAnimating (this w) = true \/ index < 0 \/ totalSlides (this w) <= index ->
  goToSlide index w = w.
Proof.
  intros H. unfold goToSlide.
  destruct (isAnimating (this w)); [reflexivity|].
  destruct (Z.ltb_spec index 0); [reflexivity|].
  destruct (Z.geb_spec index (totalSlides (this w))); [reflexivity|].
  exfalso. destruct H as [H | [H | H]]; [discriminate | lia | lia].
Qed.

Lemma goToSlide_accepted index w :
  isAnimating (this w) = false -> 0 <= index < totalSlides (this w) ->
  goToSlide index w =
  {| this := set_currentSlide index (set_isAnimating true (this w));
     document :=
       set_slides (slidesExited (currentSlide (this w)) (slides (document w)))
         (set_nextButton ((fun _ => Button true true) <$> nextButton (document w))
            (set_prevButton ((fun _ => Button true true) <$> prevButton (document w))
               (document w)));
     window := set_frameCallbacks (frameCallbacks (window w) ++ [GoToSlideFrame1]) (window w) |}.
Proof.
  intros Ha Hr. unfold goToSlide. rewrite Ha.
  destruct (Z.ltb_spec index 0); [lia|].
  destruct (Z.geb_spec index (totalSlides (this w))); [lia|].
  simpl. rewrite updateButtonStates_eq. simpl.
  unfold slidesExited. destruct (nodeAt _ _); reflexivity.
Qed.

Lemma goToSlide_frame2_eq w :
  goToSlide_frame2 w =
  let k := currentSlide (this w) in
  let e := savedWindow k (window w) in
  {| this := this w;
     document :=
       set_totalSlidesElement
         ((fun _ => JS.toString (totalSlides (this w))) <$> totalSlidesElement (document w))
         (set_currentSlideElement
            ((fun _ => JS.toString (k + 1)) <$> currentSlideElement (document w))
            (set_progressFill
               ((fun _ => Some (percentage k (totalSlides (this w))))
                  <$> progressFill (document w))
               (set_slides (slidesEntered k (slides (document w))) (document w))));
     window :=
       set_timers
         (timers e ++
            [Timer (nextTimer e) (now e + 600)
               (GoToSlideSettle (nodeAt (slides (document w)) k))])
         (Pos.succ (nextTimer e)) e |}.
Proof.
  unfold goToSlide_frame2, setTimeout.
  rewrite saveProgress_eq, updateSlideCounter_eq, updateProgress_eq.
  unfold slidesEntered. destruct (nodeAt _ _); reflexivity.
Qed.

Lemma goToSlide_settle_eq el w :
  goToSlide_settle el w =
  {| this := set_isAnimating false (this w);
     document :=
       let k := currentSlide (this w) in
       let total := totalSlides (this w) in
       set_activeElement (match el with Some _ => el | None => activeElement (document w) end)
         (set_nextButton ((fun _ => Button (k =? total - 1) (k =? total - 1))
                            <$> nextButton (document w))
            (set_prevButton ((fun _ => Button (k =? 0) (k =? 0)) <$> prevButton (document w))
               (document w)));
     window := window w |}.
Proof.
  unfold goToSlide_settle. rewrite updateButtonStates_eq.
  destruct w as [t d e], d; destruct el; reflexivity.
Qed.

Lemma showSlide_eq index w :
  showSlide index w =
  {| this := set_currentSlide index (this w);
     document :=
       let total := totalSlides (this w) in
       set_nextButton ((fun _ => Button (index =? total - 1) (index =? total - 1))
                         <$> nextButton (document w))
         (set_prevButton ((fun _ => Button (index =? 0) (index =? 0))
                            <$> prevButton (document w))
            (set_totalSlidesElement
               ((fun _ => JS.toString total) <$> totalSlidesElement (document w))
               (set_currentSlideElement
                  ((fun _ => JS.toString (index + 1)) <$> currentSlideElement (document w))
                  (set_progressFill
                     ((fun _ => Some (percentage index total)) <$> progressFill (document w))
                     (set_slides
                        (imap (fun i s =>
                                 let s := set_exit false (set_active false s) in
                                 if Z.of_nat i =? index then set_active true s else s)
                              (slides (document w)))
                        (document w))))));
     window := window w |}.
Proof.
  unfold showSlide.
  rewrite updateButtonStates_eq, updateSlideCounter_eq, updateProgress_eq.
  reflexivity.
Qed.

(** ** Slide markings *)

Lemma nodeAt_Some {A} (l : list A) k el :
  nodeAt l k = Some el -> 0 <= k < Z.of_nat (length l) /\ el = Z.to_nat k.
Proof.
  unfold nodeAt.
  destruct (Z.leb_spec 0 k), (Z.ltb_spec k (Z.of_nat (length l)));
    simpl; intros [= <-]; auto.
Qed.

Lemma nodeAt_None {A} (l : list A) k :
  nodeAt l k = None -> k < 0 \/ Z.of_nat (length l) <= k.
Proof.
  unfold nodeAt.
  destruct (Z.leb_spec 0 k), (Z.ltb_spec k (Z.of_nat (length l)));
    simpl; intros [=]; lia.
Qed.

Lemma nodeAt_in_range {A} (l : list A) k :
  0 <= k < Z.of_nat (length l) -> nodeAt l k = Some (Z.to_nat k).
Proof.
  intros H. unfold nodeAt.
  destruct (Z.leb_spec 0 k), (Z.ltb_spec k (Z.of_nat (length l))); simpl; auto; lia.
Qed.

Lemma nodeAt_length {A B} (l : list A) (l' : list B) k :
  length l = length l' -> nodeAt l k = nodeAt l' k.
Proof. unfold nodeAt. intros ->. reflexivity. Qed.

Lemma slidesExited_length k l : length (slidesExited k l) = length l.
Proof. unfold slidesExited. destruct (nodeAt l k); [apply length_alter | reflexivity]. Qed.

Lemma slidesEntered_length k l : length (slidesEntered k l) = length l.
Proof. unfold slidesEntered. destruct (nodeAt l k); [apply length_alter | reflexivity]. Qed.

Lemma marksAt_exited k l : marksAt k l -> noneActive (slidesExited k l).
Proof.
  intros Hm i s. unfold slidesExited.
  destruct (nodeAt l k) as [el|] eqn:Hn.
  - apply nodeAt_Some in Hn as [Hk ->].
    destruct (decide (Z.to_nat k = i)) as [<- | Hne].
    + rewrite list_lookup_alter_eq.
      destruct (l !! Z.to_nat k); simpl; intros [= <-]. reflexivity.
    + rewrite list_lookup_alter_ne by assumption. intros Hs.
      destruct (Hm i s Hs) as [-> _]. apply bool_decide_eq_false. lia.
  - apply nodeAt_None in Hn. intros Hs.
    destruct (Hm i s Hs) as [-> _]. apply bool_decide_eq_false.
    apply lookup_lt_Some in Hs. lia.
Qed.

Lemma noneActive_entered k l : noneActive l -> marksAt k (slidesEntered k l).
Proof.
  intros Hm i s. unfold slidesEntered.
  destruct (nodeAt l k) as [el|] eqn:Hn.
  - apply nodeAt_Some in Hn as [Hk ->].
    destruct (decide (Z.to_nat k = i)) as [<- | Hne].
    + rewrite list_lookup_alter_eq.
      destruct (l !! Z.to_nat k); simpl; intros [= <-]. simpl. split; [|reflexivity].
      symmetry. apply bool_decide_eq_true. lia.
    + rewrite list_lookup_alter_ne by assumption. intros Hs.
      rewrite (Hm i s Hs). split.
      * symmetry. apply bool_decide_eq_false. lia.
      * lia.
  - apply nodeAt_None in Hn. intros Hs.
    rewrite (Hm i s Hs). apply lookup_lt_Some in Hs. split.
    + symmetry. apply bool_decide_eq_false. lia.
    + lia.
Qed.

(** Re-entering the slide that is already current restores its marks. *)
Lemma slidesEntered_exited k l :
  marksAt k l -> slidesEntered k (slidesExited k l) = l.
Proof.
  intros Hm. unfold slidesEntered, slidesExited.
  destruct (nodeAt l k) as [el|] eqn:Hn.
  - pose proof (nodeAt_Some _ _ _ Hn) as [Hk ->].
    rewrite nodeAt_in_range by (rewrite length_alter; assumption).
    apply list_eq. intros i.
    destruct (decide (Z.to_nat k = i)) as [<- | Hne].
    + rewrite !list_lookup_alter_eq.
      destruct (l !! Z.to_nat k) as [s|] eqn:Hs; [|reflexivity]. simpl.
      destruct (Hm _ _ Hs) as [Ha He]. destruct s as [a x t]. simpl in *.
      rewrite Ha, He by lia. unfold set_active, set_exit. simpl.
      f_equal. f_equal. symmetry. apply bool_decide_eq_true. lia.
    + rewrite !list_lookup_alter_ne by assumption. reflexivity.
  - rewrite Hn. reflexivity.
Qed.

Lemma marksAt_shown index l :
  marksAt index
    (imap (fun i s =>
             let s := set_exit false (set_active false s) in
             if Z.of_nat i =? index then set_active true s else s) l).
Proof.
  intros i s. rewrite list_lookup_imap.
  destruct (l !! i) as [s0|]; simpl; intros [= <-].
  destruct (Z.eqb_spec (Z.of_nat i) index) as [Heq | Hne]; simpl.
  - split; [|reflexivity]. symmetry. apply bool_decide_eq_true. assumption.
  - split; [|reflexivity]. symmetry. apply bool_decide_eq_false. assumption.
Qed.

Lemma marksAt_restyled k (f : slide -> slide) l :
  keepsMarks f -> marksAt k l -> marksAt k (List.map f l).
Proof.
  intros Hf Hm i s. change (List.map f l) with (f <$> l).
  rewrite list_lookup_fmap.
  destruct (l !! i) as [s0|] eqn:Hs; simpl; intros [= <-].
  destruct (Hf s0) as [-> ->]. apply (Hm _ _ Hs).
Qed.

Lemma noneActive_restyled (f : slide -> slide) l :
  keepsMarks f -> noneActive l -> noneActive (List.map f l).
Proof.
  intros Hf Hm i s. change (List.map f l) with (f <$> l).
  rewrite list_lookup_fmap.
  destruct (l !! i) as [s0|] eqn:Hs; simpl; intros [= <-].
  destruct (Hf s0) as [-> _]. apply (Hm _ _ Hs).
Qed.

Lemma activeFrom_none i l :
  (forall j s, l !! j = Some s -> active s = false) -> activeFrom i l = [].
Proof.
  revert i. induction l as [|s l IH]; intros i H; simpl; [reflexivity|].
  rewrite (H 0%nat s eq_refl). apply IH. intros j s'. apply (H (S j)).
Qed.

Lemma activeFrom_single l :
  forall i k, (k < length l)%nat ->
    (forall j s, l !! j = Some s -> active s = bool_decide (j = k)) ->
    activeFrom i l = [(i + k)%nat].
Proof.
  induction l as [|s l IH]; intros i k Hk H; simpl in Hk; [lia|].
  simpl. rewrite (H 0%nat s eq_refl).
  destruct k as [|k].
  - rewrite bool_decide_eq_true_2 by reflexivity.
    rewrite activeFrom_none; [f_equal; lia|].
    intros j s' Hs. rewrite (H (S j) s' Hs). apply bool_decide_eq_false. lia.
  - rewrite bool_decide_eq_false_2 by lia.
    rewrite (IH (S i) k); [f_equal; lia | lia |].
    intros j s' Hs. rewrite (H (S j) s' Hs).
    apply bool_decide_ext. lia.
Qed.

(** With the marks of slide [k] in place, exactly one slide is active. *)
Lemma marksAt_activeFrom k l :
  0 <= k < Z.of_nat (length l) -> marksAt k l -> activeFrom 0 l = [Z.to_nat k].
Proof.
  intros Hk Hm. apply (activeFrom_single l 0 (Z.to_nat k)); [lia|].
  intros j s Hs. rewrite (proj1 (Hm j s Hs)). apply bool_decide_ext. lia.
Qed.

(** ** The timer table *)

Lemma NoDup_timerId_filter (P : timer -> Prop) `{forall t, Decision (P t)} tms :
  NoDup (timerId <$> tms) -> NoDup (timerId <$> filter P tms).
Proof.
  induction tms as [|t tms IH]; simpl; [auto|].
  rewrite NoDup_cons. intros [Hnotin Hnd].
  rewrite filter_cons. destruct (decide (P t)); [|auto].
  simpl. apply NoDup_cons. split; [|auto].
  intros (t' & Heq & Hin%list_elem_of_filter)%list_elem_of_fmap.
  apply Hnotin, list_elem_of_fmap. exists t'. tauto.
Qed.

Lemma timersOK_add tms next rt due el :
  timersOK tms next rt ->
  timersOK (tms ++ [Timer next due (GoToSlideSettle el)]) (Pos.succ next) rt.
Proof.
  intros (Hfresh & Hnd & Hres & Hrt & Hkind).
  split; [|split; [|split; [|split]]].
  - intros t [Hin | ->%list_elem_of_singleton]%elem_of_app; simpl; [|lia].
    specialize (Hfresh t Hin). lia.
  - rewrite fmap_app. apply NoDup_app. split; [assumption|]. split.
    + intros id (t & -> & Hin)%list_elem_of_fmap Hid. simpl in Hid.
      apply list_elem_of_singleton in Hid. specialize (Hfresh t Hin). lia.
    + simpl. apply NoDup_singleton.
  - intros t [Hin | ->%list_elem_of_singleton]%elem_of_app; [auto|].
    simpl. split; [discriminate|].
    intros Heq. specialize (Hrt _ Heq). lia.
  - intros id Hid. specialize (Hrt id Hid). lia.
  - intros t [Hin | ->%list_elem_of_singleton]%elem_of_app; [auto|].
    left. reflexivity.
Qed.

Lemma timersOK_filter (P : timer -> Prop) `{forall t, Decision (P t)} tms next rt :
  timersOK tms next rt -> timersOK (filter P tms) next rt.
Proof.
  intros (Hfresh & Hnd & Hres & Hrt & Hkind).
  split; [|split; [|split; [|split]]].
  - intros t [_ Hin]%list_elem_of_filter. auto.
  - apply NoDup_timerId_filter. assumption.
  - intros t [_ Hin]%list_elem_of_filter. auto.
  - assumption.
  - intros t [_ Hin]%list_elem_of_filter. auto.
Qed.

Lemma clearedTimers_no_resize tms next rt t :
  timersOK tms next rt -> t ∈ clearedTimers rt tms ->
  t ∈ tms /\ isSettle (timerCallback t) = true.
Proof.
  intros (Hfresh & Hnd & Hres & Hrt & Hkind) Hin.
  assert (Hin' : t ∈ tms).
  { destruct rt; simpl in Hin; [|assumption].
    apply list_elem_of_filter in Hin. tauto. }
  split; [assumption|].
  destruct (Hkind t Hin') as [Hs | Hcb]; [assumption|]. exfalso.
  apply Hres in Hcb; [|assumption]. subst rt. simpl in Hin.
  apply list_elem_of_filter in Hin as [Hne _]. congruence.
Qed.

Lemma clearedTimers_keeps_settle tms next rt t :
  timersOK tms next rt -> t ∈ tms -> isSettle (timerCallback t) = true ->
  t ∈ clearedTimers rt tms.
Proof.
  intros (Hfresh & Hnd & Hres & Hrt & Hkind) Hin Hs.
  destruct rt as [id|]; simpl; [|assumption].
  apply list_elem_of_filter. split; [|assumption].
  intros Heq. assert (Hcb : timerCallback t = ResizeSettled).
  { apply Hres; [assumption | congruence]. }
  rewrite Hcb in Hs. discriminate.
Qed.

Lemma timersOK_resize tms next rt due :
  timersOK tms next rt ->
  timersOK (clearedTimers rt tms ++ [Timer next due ResizeSettled])
           (Pos.succ next) (Some next).
Proof.
  intros Hok.
  assert (Hsub : forall t, t ∈ clearedTimers rt tms ->
                           t ∈ tms /\ isSettle (timerCallback t) = true)
    by (intros t; apply (clearedTimers_no_resize _ _ _ _ Hok)).
  assert (Hnd' : NoDup (timerId <$> clearedTimers rt tms)).
  { destruct Hok as (_ & Hnd & _). destruct rt; simpl; [|assumption].
    apply NoDup_timerId_filter. assumption. }
  destruct Hok as (Hfresh & Hnd & Hres & Hrt & Hkind).
  split; [|split; [|split; [|split]]].
  - intros t [Hin | ->%list_elem_of_singleton]%elem_of_app; simpl; [|lia].
    destruct (Hsub t Hin) as [Hin' _]. specialize (Hfresh t Hin'). lia.
  - rewrite fmap_app. apply NoDup_app. split; [assumption|]. split.
    + intros id (t & -> & Hin)%list_elem_of_fmap Hid. simpl in Hid.
      apply list_elem_of_singleton in Hid.
      destruct (Hsub t Hin) as [Hin' _]. specialize (Hfresh t Hin'). lia.
    + simpl. apply NoDup_singleton.
  - intros t [Hin | ->%list_elem_of_singleton]%elem_of_app; [|tauto].
    destruct (Hsub t Hin) as [Hin' Hs]. specialize (Hfresh t Hin'). split.
    + intros Heq. rewrite Heq in Hs. discriminate.
    + intros [= Heq]. lia.
  - intros id [= <-]. lia.
  - intros t [Hin | ->%list_elem_of_singleton]%elem_of_app; [|tauto].
    left. apply (Hsub t Hin).
Qed.

Lemma handleResize_eq w :
  handleResize w =
  {| this := set_resizeTimeout (Some (nextTimer (window w))) (this w);
     document := document w;
     window :=
       set_timers
         (clearedTimers (resizeTimeout (this w)) (timers (window w)) ++
            [Timer (nextTimer (window w)) (now (window w) + 250) ResizeSettled])
         (Pos.succ (nextTimer (window w))) (window w) |}.
Proof.
  unfold handleResize, clearTimeout, setTimeout.
  destruct w as [t d e]. simpl. destruct (resizeTimeout t); reflexivity.
Qed.

(** Looking a timer up by its handle. *)
Lemma find_timer tms next rt id t :
  timersOK tms next rt -> t ∈ tms -> timerId t = id ->
  List.find (fun t => Pos.eqb (timerId t) id) tms = Some t.
Proof.
  intros (_ & Hnd & _) Hin Hid. induction tms as [|t0 tms IH]; [inversion Hin|].
  simpl in Hnd. apply NoDup_cons in Hnd as [Hnotin Hnd]. simpl.
  destruct (Pos.eqb_spec (timerId t0) id) as [Heq | Hne].
  - apply elem_of_cons in Hin as [-> | Hin]; [reflexivity|].
    exfalso. apply Hnotin, list_elem_of_fmap. exists t. split; [congruence | assumption].
  - apply elem_of_cons in Hin as [-> | Hin]; [congruence|]. auto.
Qed.

Lemma find_timer_inv tms id t :
  List.find (fun t => Pos.eqb (timerId t) id) tms = Some t ->
  t ∈ tms /\ timerId t = id.
Proof.
  intros [Hin Heq]%find_some. split; [apply list_elem_of_In; assumption|].
  apply Pos.eqb_eq. assumption.
Qed.

(** ** The invariant *)

(** The invariant only looks at the index, the lock, the debounce handle,
    the scheduler, and the marks, buttons and displays of the document. *)
Lemma inv_ext_restyled f w w' :
  inv w ->
  keepsMarks f ->
  currentSlide (this w') = currentSlide (this w) ->
  totalSlides (this w') = totalSlides (this w) ->
  isAnimating (this w') = isAnimating (this w) ->
  resizeTimeout (this w') = resizeTimeout (this w) ->
  slides (document w') = List.map f (slides (document w)) ->
  prevButton (document w') = prevButton (document w) ->
  nextButton (document w') = nextButton (document w) ->
  currentSlideElement (document w') = currentSlideElement (document w) ->
  progressFill (document w') = progressFill (document w) ->
  frameCallbacks (window w') = frameCallbacks (window w) ->
  timers (window w') = timers (window w) ->
  nextTimer (window w') = nextTimer (window w) ->
  inv w'.
Proof.
  intros [Hi Ht [p Hp]] Hk Hc Htot Ha Hr Hsl Hpb Hnb Hce Hpf Hf Htm Hn.
  assert (Hlen : length (slides (document w')) = length (slides (document w)))
    by (rewrite Hsl; apply length_map).
  split.
  - unfold indexOK. rewrite Hc, Htot, Hlen. assumption.
  - rewrite Htm, Hn, Hr. assumption.
  - exists p.
    destruct p; unfold inPhase, buttonsAt, buttonsLocked, displayAt in *;
      rewrite ?Hc, ?Htot, ?Ha, ?Hpb, ?Hnb, ?Hce, ?Hpf, ?Hf, ?Htm;
      rewrite Hsl;
      rewrite ?(nodeAt_length (List.map f (slides (document w))) (slides (document w))
                  _ (length_map _ _));
      intuition auto using marksAt_restyled, noneActive_restyled.
Qed.

Lemma keepsMarks_id : keepsMarks (fun s => s).
Proof. intros s. auto. Qed.

Lemma inv_ext w w' :
  inv w ->
  currentSlide (this w') = currentSlide (this w) ->
  totalSlides (this w') = totalSlides (this w) ->
  isAnimating (this w') = isAnimating (this w) ->
  resizeTimeout (this w') = resizeTimeout (this w) ->
  document w' = document w ->
  frameCallbacks (window w') = frameCallbacks (window w) ->
  timers (window w') = timers (window w) ->
  nextTimer (window w') = nextTimer (window w) ->
  inv w'.
Proof.
  intros Hinv Hc Htot Ha Hr Hd Hf Htm Hn.
  apply (inv_ext_restyled (fun s => s) w w' Hinv keepsMarks_id);
    rewrite ?Hd; try assumption; try reflexivity.
  symmetry. apply map_id.
Qed.

Lemma phase_idle p w : inPhase p w -> isAnimating (this w) = false -> p = Idle.
Proof. destruct p; simpl; intros [Ha _] Hf; congruence. Qed.

Lemma option_fmap_const {A B} (o : option A) (b x : B) :
  (fun _ => b) <$> o = Some x -> x = b.
Proof. destruct o; simpl; congruence. Qed.

Lemma goToSlide_phase index w :
  inv w -> inPhase Idle w -> 0 <= index < totalSlides (this w) ->
  inv (goToSlide index w) /\ inPhase Exiting1 (goToSlide index w).
Proof.
  intros [Hi Ht _] (Ha & Hf & Hns & Hm & Hb & Hd) Hr.
  rewrite (goToSlide_accepted index w Ha Hr).
  assert (Hp : inPhase Exiting1
     {| this := set_currentSlide index (set_isAnimating true (this w));
        document :=
          set_slides (slidesExited (currentSlide (this w)) (slides (document w)))
            (set_nextButton ((fun _ => Button true true) <$> nextButton (document w))
               (set_prevButton ((fun _ => Button true true) <$> prevButton (document w))
                  (document w)));
        window := set_frameCallbacks (frameCallbacks (window w) ++ [GoToSlideFrame1])
                    (window w) |}).
  { simpl. rewrite Hf. repeat split.
    - exact Hns.
    - apply marksAt_exited. assumption.
    - intros b Hb'. apply option_fmap_const in Hb'. assumption.
    - intros b Hb'. apply option_fmap_const in Hb'. assumption. }
  split; [|exact Hp]. split.
  - simpl. destruct Hi as (Hlen & _). unfold indexOK.
    rewrite slidesExited_length. split; [assumption|]. lia.
  - simpl. assumption.
  - exists Exiting1. exact Hp.
Qed.

Lemma goToSlide_inv index w : inv w -> inv (goToSlide index w).
Proof.
  intros Hinv.
  destruct (isAnimating (this w)) eqn:Ha.
  { rewrite goToSlide_rejected by auto. assumption. }
  destruct (Z.ltb_spec index 0).
  { rewrite goToSlide_rejected by auto. assumption. }
  destruct (Z.leb_spec (totalSlides (this w)) index).
  { rewrite goToSlide_rejected by auto. assumption. }
  destruct (inv_phase w Hinv) as [p Hp].
  pose proof (phase_idle p w Hp Ha) as ->.
  apply goToSlide_phase; [assumption | assumption | lia].
Qed.

Lemma nextSlide_inv w : inv w -> inv (nextSlide w).
Proof.
  intros H. unfold nextSlide. destruct (_ <? _); [apply goToSlide_inv|]; assumption.
Qed.

Lemma previousSlide_inv w : inv w -> inv (previousSlide w).
Proof.
  intros H. unfold previousSlide. destruct (_ >? _); [apply goToSlide_inv|]; assumption.
Qed.

Lemma handleKeyboard_inv key w : inv w -> inv (fst (handleKeyboard key w)).
Proof.
  intros H. unfold handleKeyboard.
  repeat (match goal with |- context [if ?b then _ else _] => destruct b end);
    simpl; auto using goToSlide_inv, nextSlide_inv, previousSlide_inv.
Qed.

Lemma handleTouchEnd_inv x y w : inv w -> inv (fst (handleTouchEnd x y w)).
Proof.
  intros H. unfold handleTouchEnd.
  repeat (match goal with |- context [if ?b then _ else _] => destruct b end);
    simpl; auto using nextSlide_inv, previousSlide_inv.
Qed.

Lemma animationFrame_empty w :
  frameCallbacks (window w) = [] -> animationFrame w = w.
Proof.
  unfold animationFrame. destruct w as [t d e], e. simpl. intros ->. reflexivity.
Qed.

Lemma frame1_phase w :
  inv w -> inPhase Exiting1 w ->
  animationFrame w = upd_window (set_frameCallbacks [GoToSlideFrame2]) w /\
  inv (animationFrame w) /\ inPhase Exiting2 (animationFrame w).
Proof.
  intros [Hi Ht _] (Ha & Hf & Hns & Hm & Hb).
  assert (Heq : animationFrame w = upd_window (set_frameCallbacks [GoToSlideFrame2]) w).
  { unfold animationFrame. rewrite Hf. reflexivity. }
  rewrite Heq. split; [reflexivity|].
  assert (Hp : inPhase Exiting2 (upd_window (set_frameCallbacks [GoToSlideFrame2]) w)).
  { simpl. tauto. }
  split; [|exact Hp]. split; [assumption | assumption |].
  exists Exiting2. exact Hp.
Qed.

Lemma frame2_phase w :
  inv w -> inPhase Exiting2 w ->
  this (animationFrame w) = this w /\
  now (window (animationFrame w)) = now (window w) /\
  inv (animationFrame w) /\
  inPhase (Settling (nextTimer (window w)) (now (window w) + 600)) (animationFrame w).
Proof.
  intros [Hi Ht _] (Ha & Hf & Hns & Hm & Hb).
  assert (Heq : animationFrame w =
                goToSlide_frame2 (upd_window (set_frameCallbacks []) w)).
  { unfold animationFrame. rewrite Hf. reflexivity. }
  rewrite Heq, goToSlide_frame2_eq. simpl.
  set (k := currentSlide (this w)).
  set (e := savedWindow k (set_frameCallbacks [] (window w))).
  destruct (savedWindow_scheduler k (set_frameCallbacks [] (window w)))
    as (Hsf & Hst & Hsn & Hsnow & _).
  fold e in Hsf, Hst, Hsn, Hsnow. simpl in Hsf, Hst, Hsn, Hsnow.
  assert (Hp : inPhase (Settling (nextTimer (window w)) (now (window w) + 600))
     {| this := this w;
        document :=
          set_totalSlidesElement
            ((fun _ => JS.toString (totalSlides (this w)))
               <$> totalSlidesElement (document w))
            (set_currentSlideElement
               ((fun _ => JS.toString (k + 1)) <$> currentSlideElement (document w))
               (set_progressFill
                  ((fun _ => Some (percentage k (totalSlides (this w))))
                     <$> progressFill (document w))
                  (set_slides (slidesEntered k (slides (document w))) (document w))));
        window :=
          set_timers
            (timers e ++
               [Timer (nextTimer e) (now e + 600)
                  (GoToSlideSettle (nodeAt (slides (document w)) k))])
            (Pos.succ (nextTimer e)) e |}).
  { simpl. rewrite Hsf, Hst, Hsn, Hsnow. fold k.
    rewrite (nodeAt_length (slidesEntered k (slides (document w))) (slides (document w)))
      by apply slidesEntered_length.
    split; [assumption|]. split; [reflexivity|]. split; [|split; [|split]].
    - split.
      + apply elem_of_app. right. apply list_elem_of_singleton. reflexivity.
      + intros t' [Hin | ->%list_elem_of_singleton]%elem_of_app Hs; [|reflexivity].
        rewrite (Hns t' Hin) in Hs. discriminate.
    - apply noneActive_entered. assumption.
    - exact Hb.
    - split.
      + intros t Heq'. apply option_fmap_const in Heq'. assumption.
      + intros p Heq'. apply option_fmap_const in Heq'. assumption. }
  split; [reflexivity|]. split; [assumption|].
  split; [|exact Hp]. split.
  - simpl. destruct Hi as (Hlen & Hrange). unfold indexOK.
    rewrite slidesEntered_length. split; assumption.
  - simpl. rewrite Hst, Hsn. apply timersOK_add. assumption.
  - eexists. exact Hp.
Qed.

Lemma timer_unique tms t t' :
  NoDup (timerId <$> tms) -> t ∈ tms -> t' ∈ tms -> timerId t = timerId t' -> t = t'.
Proof.
  induction tms as [|t0 tms IH]; intros Hnd Hin Hin' Hid; [inversion Hin|].
  simpl in Hnd. apply NoDup_cons in Hnd as [Hnotin Hnd].
  apply elem_of_cons in Hin as [-> | Hin], Hin' as [-> | Hin']; auto.
  - exfalso. apply Hnotin, list_elem_of_fmap. exists t'. auto.
  - exfalso. apply Hnotin, list_elem_of_fmap. exists t. auto.
Qed.

(** Cancelling a timer that is not the settle timer keeps the invariant. *)
Lemma clearTimeout_inv id w :
  inv w ->
  (forall t, t ∈ timers (window w) -> timerId t = id ->
             isSettle (timerCallback t) = false) ->
  inv (clearTimeout id w).
Proof.
  intros [Hi Ht [p Hp]] Hid. split.
  - exact Hi.
  - simpl. apply timersOK_filter. assumption.
  - exists p. destruct p; simpl in *.
    + intuition auto. intros t [_ Hin]%list_elem_of_filter. auto.
    + intuition auto. intros t [_ Hin]%list_elem_of_filter. auto.
    + intuition auto. intros t [_ Hin]%list_elem_of_filter. auto.
    + destruct Hp as (Ha & Hf & (Hin & Huniq) & Hrest).
      split; [assumption|]. split; [assumption|]. split; [|assumption]. split.
      * apply list_elem_of_filter. split; [|assumption].
        intros Heq. specialize (Hid _ Hin Heq). discriminate.
      * intros t' [_ Hin']%list_elem_of_filter. auto.
Qed.

Lemma handleResize_inv w : inv w -> inv (handleResize w).
Proof.
  intros [Hi Ht [p Hp]]. rewrite handleResize_eq. split.
  - exact Hi.
  - simpl. apply timersOK_resize. assumption.
  - assert (Hold : forall t,
              t ∈ clearedTimers (resizeTimeout (this w)) (timers (window w)) ++
                  [Timer (nextTimer (window w)) (now (window w) + 250) ResizeSettled] ->
              isSettle (timerCallback t) = true -> t ∈ timers (window w)).
    { intros t [Hin | ->%list_elem_of_singleton]%elem_of_app Hs; [|discriminate].
      eapply clearedTimers_no_resize; eassumption. }
    exists p. destruct p; simpl in *.
    + intuition auto. intros t Hin.
      destruct (isSettle (timerCallback t)) eqn:Hs; [|reflexivity].
      rewrite <- Hs. auto.
    + intuition auto. intros t Hin.
      destruct (isSettle (timerCallback t)) eqn:Hs; [|reflexivity].
      rewrite <- Hs. auto.
    + intuition auto. intros t Hin.
      destruct (isSettle (timerCallback t)) eqn:Hs; [|reflexivity].
      rewrite <- Hs. auto.
    + destruct Hp as (Ha & Hf & (Hin & Huniq) & Hrest).
      split; [assumption|]. split; [assumption|]. split; [|assumption]. split.
      * apply elem_of_app. left.
        eapply clearedTimers_keeps_settle; [eassumption | assumption | reflexivity].
      * intros t' Hin' Hs. auto.
Qed.

Lemma handleResize_settled_frame w :
  exists f, keepsMarks f /\
    handleResize_settled w =
    {| this :=
         set_charts (S <$> charts (this w))
           (set_device (innerWidth (window w) <=? 768)
              ((innerWidth (window w) >? 768) && (innerWidth (window w) <=? 1024))
              (this w));
       document := set_slides (List.map f (slides (document w))) (document w);
       window := window w |}.
Proof.
  unfold handleResize_settled, optimizeForMobile. simpl.
  destruct (innerWidth (window w) <=? 768) eqn:Hm.
  - eexists. split; [|reflexivity]. intros s. auto.
  - exists (fun s => s). split; [apply keepsMarks_id|].
    rewrite map_id. destruct w as [t d e], d. reflexivity.
Qed.

Lemma handleResize_settled_inv w : inv w -> inv (handleResize_settled w).
Proof.
  intros Hinv. destruct (handleResize_settled_frame w) as (f & Hf & ->).
  apply (inv_ext_restyled f w _ Hinv Hf); reflexivity.
Qed.

(** Firing the settle timer ends the transition. *)
Lemma settle_phase id d600 w :
  inv w -> inPhase (Settling id d600) w -> d600 <= now (window w) ->
  fireTimer id w =
    goToSlide_settle (nodeAt (slides (document w)) (currentSlide (this w)))
      (clearTimeout id w) /\
  inv (fireTimer id w) /\ inPhase Idle (fireTimer id w).
Proof.
  intros [Hi Ht _] (Ha & Hf & (Hin & Huniq) & Hm & Hb & Hd) Hdue.
  assert (Heq : fireTimer id w =
    goToSlide_settle (nodeAt (slides (document w)) (currentSlide (this w)))
      (clearTimeout id w)).
  { unfold fireTimer. erewrite find_timer; [|eassumption | eassumption | reflexivity].
    simpl. destruct (Z.leb_spec d600 (now (window w))); [reflexivity | lia]. }
  rewrite Heq, goToSlide_settle_eq. split; [reflexivity|].
  assert (Hp : inPhase Idle
    {| this := set_isAnimating false (this (clearTimeout id w));
       document :=
         let k := currentSlide (this (clearTimeout id w)) in
         let total := totalSlides (this (clearTimeout id w)) in
         set_activeElement
           (match nodeAt (slides (document w)) (currentSlide (this w)) with
            | Some _ => nodeAt (slides (document w)) (currentSlide (this w))
            | None => activeElement (document (clearTimeout id w))
            end)
           (set_nextButton
              ((fun _ => Button (k =? total - 1) (k =? total - 1))
                 <$> nextButton (document (clearTimeout id w)))
              (set_prevButton ((fun _ => Button (k =? 0) (k =? 0))
                                 <$> prevButton (document (clearTimeout id w)))
                 (document (clearTimeout id w))));
       window := window (clearTimeout id w) |}).
  { simpl. split; [reflexivity|]. split; [assumption|]. split; [|split; [|split]].
    - intros t [Hne Hin']%list_elem_of_filter.
      destruct (isSettle (timerCallback t)) eqn:Hs; [|reflexivity].
      exfalso. apply Hne. rewrite (Huniq t Hin' Hs). reflexivity.
    - assumption.
    - split; intros b Hb'; apply option_fmap_const in Hb'; assumption.
    - exact Hd. }
  split; [|exact Hp]. split.
  - exact Hi.
  - simpl. apply timersOK_filter. assumption.
  - exists Idle. exact Hp.
Qed.

Lemma fireTimer_cases id w :
  fireTimer id w = w \/
  exists t, t ∈ timers (window w) /\ timerId t = id /\ due t <= now (window w) /\
            fireTimer id w = runCallback (timerCallback t) (clearTimeout id w).
Proof.
  unfold fireTimer.
  destruct (List.find _ _) as [t|] eqn:Hfind; [|auto].
  destruct (Z.leb_spec (due t) (now (window w))) as [Hdue|]; [|auto].
  apply find_timer_inv in Hfind as [Hin Hid].
  right. exists t. auto.
Qed.

Lemma fireTimer_inv id w : inv w -> inv (fireTimer id w).
Proof.
  intros Hinv.
  destruct (fireTimer_cases id w) as [-> | (t & Hin & Hid & Hdue & Heq)];
    [assumption|].
  pose proof Hinv as [Hi Ht [p Hp]].
  pose proof Ht as (_ & Hnd & _ & _ & Hkind).
  destruct (Hkind t Hin) as [Hs | Hcb].
  - (* the settle timer *)
    assert (Hph : inPhase (Settling id (due t)) w).
    { destruct p; simpl in Hp.
      - destruct Hp as (_ & _ & Hns & _). rewrite (Hns t Hin) in Hs. discriminate.
      - destruct Hp as (_ & _ & Hns & _). rewrite (Hns t Hin) in Hs. discriminate.
      - destruct Hp as (_ & _ & Hns & _). rewrite (Hns t Hin) in Hs. discriminate.
      - pose proof Hp as (_ & _ & (_ & Huniq) & _).
        pose proof (Huniq t Hin Hs) as Heqt. subst t. simpl in *. subst id0.
        exact Hp. }
    apply (settle_phase id (due t) w Hinv Hph Hdue).
  - rewrite Heq, Hcb. simpl.
    apply handleResize_settled_inv, clearTimeout_inv; [assumption|].
    intros t' Hin' Hid'.
    rewrite (timer_unique _ t' t Hnd Hin' Hin) by congruence.
    rewrite Hcb. reflexivity.
Qed.

Lemma animationFrame_inv w : inv w -> inv (animationFrame w).
Proof.
  intros Hinv. destruct (inv_phase w Hinv) as [[| | |id d600] Hp].
  - rewrite animationFrame_empty; [assumption | apply Hp].
  - apply (frame1_phase w Hinv Hp).
  - apply (frame2_phase w Hinv Hp).
  - rewrite animationFrame_empty; [assumption | apply Hp].
Qed.

Lemma saveProgress_inv w : inv w -> inv (saveProgress w).
Proof.
  intros Hinv. rewrite saveProgress_eq.
  destruct (savedWindow_scheduler (currentSlide (this w)) (window w))
    as (Hf & Ht & Hn & _).
  apply (inv_ext w _ Hinv); simpl; auto.
Qed.

Theorem step_inv e w : inv w -> inv (step e w).
Proof.
  intros Hinv. destruct e; simpl.
  - destruct (prevButton _); [apply previousSlide_inv|]; assumption.
  - destruct (nextButton _); [apply nextSlide_inv|]; assumption.
  - apply handleKeyboard_inv. assumption.
  - apply (inv_ext w _ Hinv); reflexivity.
  - apply handleTouchEnd_inv. assumption.
  - apply handleResize_inv. apply (inv_ext w _ Hinv); reflexivity.
  - apply (inv_ext w _ Hinv); reflexivity.
  - apply animationFrame_inv. assumption.
  - apply (inv_ext w _ Hinv); reflexivity.
  - apply fireTimer_inv. assumption.
  - destruct hidden; [apply saveProgress_inv|]; assumption.
  - apply saveProgress_inv. assumption.
  - apply goToSlide_inv. assumption.
Qed.

Lemma run_inv trace : forall w, inv w -> inv (run trace w).
Proof.
  induction trace as [|e trace IH]; intros w Hinv; simpl; [assumption|].
  apply IH, step_inv, Hinv.
Qed.

(** *** The freshly constructed controller *)

Lemma createCharts_frame ids :
  forall w, exists ch, fst (createCharts ids w) = upd_this (set_charts ch) w.
Proof.
  induction ids as [|id ids IH]; intros w; simpl.
  - exists (charts (this w)). destruct w as [t d e], t. reflexivity.
  - assert (Hsame : exists ch, w = upd_this (set_charts ch) w).
    { exists (charts (this w)). destruct w as [t d e], t. reflexivity. }
    destruct (chartJs (window w)) as [throwing|]; [|apply IH].
    destruct (bool_decide (id ∈ canvases (document w))); [|apply IH].
    destruct (bool_decide (id ∈ throwing)); [exact Hsame|].
    destruct (IH (upd_this (fun c => set_charts (<[id:=0%nat]> (charts c)) c) w))
      as [ch ->].
    exists ch. reflexivity.
Qed.

Lemma initCharts_frame w :
  exists ch c, initCharts w = upd_window (set_console c) (upd_this (set_charts ch) w).
Proof.
  unfold initCharts. destruct (createCharts_frame chartIds w) as [ch Hch].
  destruct (createCharts chartIds w) as [w' thrown]. simpl in Hch. subst w'.
  exists ch. destruct thrown.
  - eexists. reflexivity.
  - exists (console (window w)). destruct w as [t d e], e. reflexivity.
Qed.

Lemma loadProgress_frame w :
  exists k c, loadProgress w = upd_window (set_console c) (upd_this (set_currentSlide k) w).
Proof.
  assert (Hsame : exists k c,
            w = upd_window (set_console c) (upd_this (set_currentSlide k) w)).
  { exists (currentSlide (this w)), (console (window w)).
    destruct w as [t d e], t, e. reflexivity. }
  unfold loadProgress.
  destruct (getItemThrows _).
  { exists (currentSlide (this w)). eexists. unfold console_warn.
    destruct w as [t d e], t. reflexivity. }
  destruct (items _ !! storageKey) as [saved|]; [|exact Hsame].
  destruct (JS.parseInt saved) as [v|]; [|exact Hsame].
  destruct (_ && _); [|exact Hsame].
  exists v, (console (window w)). destruct w as [t d e], e. reflexivity.
Qed.

Lemma init_idle w :
  pristine (window w) ->
  isAnimating (this w) = false ->
  totalSlides (this w) = Z.of_nat (length (slides (document w))) ->
  resizeTimeout (this w) = None ->
  inv (init w) /\ inPhase Idle (init w) /\ currentSlide (this (init w)) = 0.
Proof.
  intros [Hf Ht] Ha Htot Hr. unfold init. cbv zeta.
  match goal with
  | |- context [initCharts ?x] => destruct (initCharts_frame x) as (ch & c & ->)
  end.
  match goal with
  | |- context [loadProgress ?x] => destruct (loadProgress_frame x) as (k & c' & ->)
  end.
  rewrite showSlide_eq, updateButtonStates_eq, updateProgress_eq, updateSlideCounter_eq.
  simpl.
  match goal with |- inv ?W /\ _ => assert (Hp : inPhase Idle W) end.
  { simpl. rewrite Ha, Hf, Ht. split; [reflexivity|]. split; [reflexivity|].
    split; [intros t Hin; inversion Hin|]. split; [apply marksAt_shown|].
    split; split; intros x Hx; apply option_fmap_const in Hx; assumption. }
  split; [|split; [exact Hp | reflexivity]]. split.
  - simpl. unfold indexOK. rewrite length_imap. split; [assumption|]. lia.
  - simpl. rewrite Ht, Hr. unfold timersOK.
    split; [|split; [|split; [|split]]]; try (intros t Hin; inversion Hin).
    constructor.
  - exists Idle. exact Hp.
Qed.

Lemma domContentLoaded_idle d e :
  pristine e ->
  inv (domContentLoaded d e) /\ inPhase Idle (domContentLoaded d e) /\
  currentSlide (this (domContentLoaded d e)) = 0.
Proof.
  intros [Hf Ht]. unfold domContentLoaded, construct.
  destruct (chartJs e); apply init_idle; try reflexivity; split; assumption.
Qed.

(** Every world the page can be in satisfies the invariant. *)
Theorem loaded_inv w : loaded w -> inv w.
Proof.
  intros (d & e & trace & Hp & ->). apply run_inv, domContentLoaded_idle, Hp.
Qed.

(** ** A complete transition *)

Arguments slidesExited : simpl never.
Arguments slidesEntered : simpl never.
Arguments savedWindow : simpl never.
Arguments nodeAt : simpl never.

Lemma transitionTrace_run target w :
  run (transitionTrace target w) w =
  fireTimer (nextTimer (window w))
    (step (Elapse 600) (animationFrame (animationFrame (goToSlide target w)))).
Proof. reflexivity. Qed.

Lemma savedWindow_frameCallbacks k q e :
  savedWindow k (set_frameCallbacks q e) = set_frameCallbacks q (savedWindow k e).
Proof. unfold savedWindow. simpl. destruct (setItemThrows _); reflexivity. Qed.

Lemma set_frameCallbacks_same e :
  set_frameCallbacks (frameCallbacks e) e = e.
Proof. destruct e. reflexivity. Qed.

Lemma find_fresh tms id d cb :
  (forall t, t ∈ tms -> (timerId t < id)%positive) ->
  List.find (fun t => Pos.eqb (timerId t) id) (tms ++ [Timer id d cb]) =
  Some (Timer id d cb).
Proof.
  induction tms as [|t tms IH]; intros Hfresh; simpl.
  - rewrite Pos.eqb_refl. reflexivity.
  - destruct (Pos.eqb_spec (timerId t) id) as [Heq | Hne].
    + specialize (Hfresh t ltac:(left)). lia.
    + apply IH. intros t' Hin. apply Hfresh. right. assumption.
Qed.

Lemma filter_fresh tms id d cb :
  (forall t, t ∈ tms -> (timerId t < id)%positive) ->
  filter (fun t => timerId t ≠ id) (tms ++ [Timer id d cb]) = tms.
Proof.
  intros Hfresh. rewrite filter_app.
  rewrite (filter_cons_False _ (Timer id d cb)) by (simpl; auto).
  rewrite filter_nil, app_nil_r.
  induction tms as [|t tms IH]; [reflexivity|].
  rewrite filter_cons_True.
  - f_equal. apply IH. intros t' Hin. apply Hfresh. right. assumption.
  - specialize (Hfresh t ltac:(left)). lia.
Qed.

Lemma option_fmap_const2 {A B C} (o : option A) (b : B) (c : C) :
  (fun _ => c) <$> ((fun _ => b) <$> o) = (fun _ => c) <$> o.
Proof. destruct o; reflexivity. Qed.

(** From [Idle], the complete transition sequence to an in-range target
    ends in the world [settled target w]. *)
Theorem transition_settles w target :
  inv w -> inPhase Idle w -> 0 <= target < totalSlides (this w) ->
  run (transitionTrace target w) w = settled target w.
Proof.
  intros Hinv Hp Hr. rewrite transitionTrace_run.
  pose proof Hp as (Ha & Hf & _).
  pose proof (inv_timers w Hinv) as (Hfresh & _).
  rewrite (goToSlide_accepted target w Ha Hr).
  unfold animationFrame at 2. simpl. rewrite Hf. simpl.
  unfold goToSlide_frame1, requestAnimationFrame. simpl.
  unfold animationFrame. simpl. rewrite goToSlide_frame2_eq. simpl.
  rewrite !savedWindow_frameCallbacks.
  destruct (savedWindow_scheduler target (window w)) as (Hsf & Hst & Hsn & Hsnow & _).
  unfold fireTimer. simpl. rewrite Hst, Hsn, Hsnow.
  rewrite find_fresh by assumption. simpl.
  destruct (Z.leb_spec (now (window w) + 600) (now (window w) + 600)); [|lia].
  simpl. rewrite goToSlide_settle_eq. unfold clearTimeout. simpl.
  rewrite filter_fresh by assumption.
  unfold settled. rewrite Hst, Hsn, Hsnow.
  rewrite !option_fmap_const2.
  rewrite (nodeAt_length (slidesExited (currentSlide (this w)) (slides (document w)))
             (slidesEntered target
                (slidesExited (currentSlide (this w)) (slides (document w)))))
    by (symmetry; apply slidesEntered_length).
  f_equal.
  - destruct (nodeAt _ _); reflexivity.
  - unfold set_timers, set_now, set_frameCallbacks. simpl.
    rewrite Hsf, Hf. reflexivity.
Qed.

Lemma loaded_idle w :
  loaded w -> isAnimating (this w) = false -> inv w /\ inPhase Idle w.
Proof.
  intros Hl Ha. pose proof (loaded_inv w Hl) as Hinv. split; [assumption|].
  destruct (inv_phase w Hinv) as [p Hp].
  rewrite <- (phase_idle p w Hp Ha). assumption.
Qed.

Lemma settled_idle w target :
  inv w -> inPhase Idle w -> 0 <= target < totalSlides (this w) ->
  inPhase Idle (settled target w) /\
  0 <= target < Z.of_nat (length (slides (document (settled target w)))).
Proof.
  intros Hinv Hp Hr.
  pose proof (run_inv (transitionTrace target w) w Hinv) as Hinv'.
  rewrite (transition_settles w target Hinv Hp Hr) in Hinv'.
  destruct (inv_phase _ Hinv') as [p Hp']. split.
  - rewrite <- (phase_idle p _ Hp' eq_refl). assumption.
  - destruct (inv_index _ Hinv') as (Hlen & _). simpl in Hlen. simpl. lia.
Qed.

(** ** Claims *)

(** C2.  For every target in [[0, totalSlides-1]], [goToSlide target] issued
    while the controller is idle, followed by the two animation frames and
    the settle timer 600 ms later, leaves the controller idle on slide
    [target], with exactly that slide marked active, the previous control
    disabled iff [target] is 0 and the next control disabled iff [target]
    is the last index. *)
Theorem goToSlide_settles_on_target w target :
  loaded w -> isAnimating (this w) = false ->
  0 <= target < totalSlides (this w) ->
  let w' := run (transitionTrace target w) w in
  isAnimating (this w') = false /\
  currentSlide (this w') = target /\
  activeSlides w' = [Z.to_nat target] /\
  (forall b, prevButton (document w') = Some b -> disabled b = (target =? 0)) /\
  (forall b, nextButton (document w') = Some b ->
             disabled b = (target =? totalSlides (this w') - 1)).
Proof.
  intros Hl Ha Hr. destruct (loaded_idle w Hl Ha) as [Hinv Hp].
  cbv zeta. rewrite (transition_settles w target Hinv Hp Hr).
  destruct (settled_idle w target Hinv Hp Hr) as [(_ & _ & _ & Hm & Hb & _) Hlen].
  split; [reflexivity|]. split; [reflexivity|]. split; [|split].
  - apply marksAt_activeFrom; assumption.
  - intros b Hb'. apply (proj1 Hb) in Hb'. subst b. reflexivity.
  - intros b Hb'. apply (proj2 Hb) in Hb'. subst b. reflexivity.
Qed.

Lemma demoWorld_loaded n saved : loaded (demoWorld n saved).
Proof.
  unfold loaded, demoWorld.
  exists (demoDocument n), (demoWindow saved), [].
  split; [split; reflexivity|]. cbn [run]. reflexivity.
Defined.

Lemma goToSlide_settles_on_target_witness :
  let w' := run (transitionTrace 2 (demoWorld 3 None)) (demoWorld 3 None) in
  isAnimating (this w') = false /\
  currentSlide (this w') = 2 /\
  activeSlides w' = [Z.to_nat 2] /\
  (forall b, prevButton (document w') = Some b -> disabled b = (2 =? 0)) /\
  (forall b, nextButton (document w') = Some b ->
             disabled b = (2 =? totalSlides (this w') - 1)).
Proof.
  apply (goToSlide_settles_on_target (demoWorld 3 None) 2).
  - apply demoWorld_loaded.
  - vm_compute. reflexivity.
  - vm_compute. split; [discriminate | reflexivity].
Defined.

(** C3.  While the controller is transitioning, every navigation request
    ([goToSlide], [nextSlide], [previousSlide], a key, a touch, a click)
    is dropped: the methods return the world unchanged, and no navigation
    event changes the current index, the document (hence the active and
    exit marks of the slides), the stored value or the scheduler. *)
Theorem navigation_dropped_while_transitioning w :
  isAnimating (this w) = true ->
  (forall index, goToSlide index w = w) /\
  nextSlide w = w /\
  previousSlide w = w /\
  (forall key, handleKeyboard key w = (w, false)) /\
  (forall x y, handleTouchEnd x y w = (w, false)) /\
  (forall e, isNavigation e = true ->
     currentSlide (this (step e w)) = currentSlide (this w) /\
     isAnimating (this (step e w)) = true /\
     document (step e w) = document w /\
     window (step e w) = window w).
Proof.
  intros Ha.
  assert (Hgo : forall index, goToSlide index w = w)
    by (intros index; apply goToSlide_rejected; auto).
  assert (Hnext : nextSlide w = w)
    by (unfold nextSlide; destruct (_ <? _); auto).
  assert (Hprev : previousSlide w = w)
    by (unfold previousSlide; destruct (_ >? _); auto).
  assert (Hkey : forall key, handleKeyboard key w = (w, false))
    by (intros key; unfold handleKeyboard; rewrite Ha; reflexivity).
  assert (Htouch : forall x y, handleTouchEnd x y w = (w, false))
    by (intros x y; unfold handleTouchEnd; rewrite Ha; reflexivity).
  repeat (split; [assumption|]).
  intros e He. destruct e; try discriminate He; simpl.
  - destruct (prevButton _); rewrite ?Hprev; auto.
  - destruct (nextButton _); rewrite ?Hnext; auto.
  - rewrite Hkey. auto.
  - auto.
  - rewrite Htouch. auto.
  - rewrite Hgo. auto.
Qed.

Lemma navigation_dropped_while_transitioning_witness :
  (forall index, goToSlide index midTransition = midTransition) /\
  nextSlide midTransition = midTransition /\
  previousSlide midTransition = midTransition /\
  (forall key, handleKeyboard key midTransition = (midTransition, false)) /\
  (forall x y, handleTouchEnd x y midTransition = (midTransition, false)) /\
  (forall e, isNavigation e = true ->
     currentSlide (this (step e midTransition)) = currentSlide (this midTransition) /\
     isAnimating (this (step e midTransition)) = true /\
     document (step e midTransition) = document midTransition /\
     window (step e midTransition) = window midTransition).
Proof.
  apply (navigation_dropped_while_transitioning midTransition).
  vm_compute. reflexivity.
Defined.

Lemma string_eqb_decide (a b : string) : String.eqb a b = bool_decide (a = b).
Proof.
  destruct (String.eqb_spec a b) as [Heq | Hne].
  - symmetry. apply bool_decide_eq_true. assumption.
  - symmetry. apply bool_decide_eq_false. assumption.
Qed.

(** C4.  Left-arrow and page-up call [previousSlide], right-arrow,
    page-down and space call [nextSlide], Home calls [goToSlide 0] and End
    calls [goToSlide (totalSlides - 1)]; each of these keys calls
    [preventDefault] (second component [true]); any other key does nothing;
    and while the controller is transitioning every key is ignored
    entirely: the world is unchanged and [preventDefault] is not called. *)
Theorem keyboard_routing w :
  (forall key,
     handleKeyboard key w =
     if isAnimating (this w) then (w, false) else keyEffect (keyMap key) w) /\
  handleKeyboard "ArrowLeft" w =
    (if isAnimating (this w) then (w, false) else (previousSlide w, true)) /\
  handleKeyboard "PageUp" w =
    (if isAnimating (this w) then (w, false) else (previousSlide w, true)) /\
  handleKeyboard "ArrowRight" w =
    (if isAnimating (this w) then (w, false) else (nextSlide w, true)) /\
  handleKeyboard "PageDown" w =
    (if isAnimating (this w) then (w, false) else (nextSlide w, true)) /\
  handleKeyboard " " w =
    (if isAnimating (this w) then (w, false) else (nextSlide w, true)) /\
  handleKeyboard "Home" w =
    (if isAnimating (this w) then (w, false) else (goToSlide 0 w, true)) /\
  handleKeyboard "End" w =
    (if isAnimating (this w) then (w, false)
     else (goToSlide (totalSlides (this w) - 1) w, true)).
Proof.
  split; [|unfold handleKeyboard; destruct (isAnimating (this w)); repeat split].
  intros key. unfold handleKeyboard, keyMap.
  destruct (isAnimating (this w)); [reflexivity|].
  rewrite !string_eqb_decide, <- !bool_decide_or.
  rewrite (bool_decide_ext ((key = "ArrowRight" ∨ key = "PageDown") ∨ key = " ")
             (key = "ArrowRight" ∨ key = "PageDown" ∨ key = " ")) by tauto.
  repeat (match goal with |- context [bool_decide ?P] => destruct (bool_decide P) end;
          try reflexivity).
Qed.

Lemma option_fmap_const_same {A} (o : option A) (b : A) :
  (forall x, o = Some x -> x = b) -> (fun _ => b) <$> o = o.
Proof. destruct o as [x|]; simpl; intros H; [rewrite (H x eq_refl)|]; reflexivity. Qed.

Lemma set_isAnimating_same c :
  isAnimating c = false ->
  set_isAnimating false (set_currentSlide (currentSlide c) c) = c.
Proof. destruct c. simpl. intros ->. reflexivity. Qed.

(** C5.  [goToSlide index] returns the world unchanged for every index
    outside [[0, totalSlides-1]]; from idle it accepts every index inside
    that range, the current one included: the lock is taken, the index is
    recorded and the first frame callback is queued.  A jump to the current
    index runs the whole transition and leaves the controller state, the
    slide marks, the two buttons, the counter and the progress bar as they
    were. *)
Theorem goToSlide_range_check w :
  (forall index, index < 0 \/ totalSlides (this w) <= index -> goToSlide index w = w) /\
  (forall index,
     isAnimating (this w) = false -> 0 <= index < totalSlides (this w) ->
     isAnimating (this (goToSlide index w)) = true /\
     currentSlide (this (goToSlide index w)) = index /\
     frameCallbacks (window (goToSlide index w)) =
       frameCallbacks (window w) ++ [GoToSlideFrame1]) /\
  (loaded w -> isAnimating (this w) = false -> 0 < totalSlides (this w) ->
     let w' := run (transitionTrace (currentSlide (this w)) w) w in
     this w' = this w /\
     slides (document w') = slides (document w) /\
     prevButton (document w') = prevButton (document w) /\
     nextButton (document w') = nextButton (document w) /\
     currentSlideElement (document w') = currentSlideElement (document w) /\
     progressFill (document w') = progressFill (document w)).
Proof.
  split; [|split].
  - intros index H. apply goToSlide_rejected. auto.
  - intros index Ha Hr. rewrite (goToSlide_accepted index w Ha Hr). auto.
  - intros Hl Ha Htot. destruct (loaded_idle w Hl Ha) as [Hinv Hp].
    assert (Hr : 0 <= currentSlide (this w) < totalSlides (this w)).
    { destruct (inv_index w Hinv) as (_ & H0 & Hlt). lia. }
    cbv zeta. rewrite (transition_settles w _ Hinv Hp Hr).
    destruct Hp as (_ & _ & _ & Hm & [Hb1 Hb2] & [Hd1 Hd2]).
    unfold settled. simpl.
    split; [apply set_isAnimating_same; assumption|].
    split; [apply slidesEntered_exited; assumption|].
    split; [apply option_fmap_const_same; assumption|].
    split; [apply option_fmap_const_same; assumption|].
    split; apply option_fmap_const_same; assumption.
Qed.

Lemma goToSlide_range_check_witness :
  goToSlide (-1) (demoWorld 3 None) = demoWorld 3 None /\
  goToSlide 3 (demoWorld 3 None) = demoWorld 3 None /\
  currentSlide (this (goToSlide 2 (demoWorld 3 None))) = 2 /\
  slides (document
            (run (transitionTrace (currentSlide (this (demoWorld 3 None)))
                    (demoWorld 3 None)) (demoWorld 3 None)))
  = slides (document (demoWorld 3 None)).
Proof.
  destruct (goToSlide_range_check (demoWorld 3 None)) as (Hout & Hin & Hsame).
  split; [apply Hout; left; lia|].
  split; [apply Hout; right; vm_compute; discriminate|].
  split.
  - apply Hin; [vm_compute; reflexivity | vm_compute; split; [discriminate | reflexivity]].
  - apply Hsame; [apply demoWorld_loaded | vm_compute; reflexivity | vm_compute; reflexivity].
Defined.

Lemma nextSlide_animating w : isAnimating (this w) = true -> nextSlide w = w.
Proof.
  intros Ha. unfold nextSlide. destruct (_ <? _); [|reflexivity].
  apply goToSlide_rejected. auto.
Qed.

Lemma previousSlide_animating w : isAnimating (this w) = true -> previousSlide w = w.
Proof.
  intros Ha. unfold previousSlide. destruct (_ >? _); [|reflexivity].
  apply goToSlide_rejected. auto.
Qed.

(** C6.  A touch gesture that starts at [(x0, y0)], lasts [dt] ms and ends
    at [(x0 + dx, y0 + dy)] navigates exactly when [|dx| > |dy|],
    [|dx| > 50] and [dt < 500]: the world after the gesture is that of one
    call of [previousSlide] when [dx] is positive and of one call of
    [nextSlide] when it is negative, and is unchanged otherwise.
    [preventDefault] is called exactly for a recognised swipe outside a
    transition.  In particular [dx = -80, dy = 5, dt = 200] is a swipe to
    the next slide, [dx = +80] one to the previous slide, and a gesture of
    600 ms or one with [|dy| > |dx|] is none. *)
Theorem touch_swipe_rule w x0 y0 dx dy (dt : N) :
  let w1 := step (Elapse dt) (step (TouchStart x0 y0) w) in
  step (TouchEnd (x0 + dx) (y0 + dy)) w1 =
    (if isSwipe dx dy (Z.of_N dt)
     then if dx >? 0 then previousSlide w1 else nextSlide w1
     else w1) /\
  snd (handleTouchEnd (x0 + dx) (y0 + dy) w1) =
    negb (isAnimating (this w)) && isSwipe dx dy (Z.of_N dt) /\
  isSwipe dx dy (Z.of_N dt) && negb (dx >? 0) = isSwipe dx dy (Z.of_N dt) && (dx <? 0) /\
  isSwipe (-80) 5 200 = true /\ (-80 >? 0) = false /\
  isSwipe 80 5 200 = true /\ (80 >? 0) = true /\
  isSwipe (-80) 5 600 = false /\ isSwipe 80 5 600 = false /\
  isSwipe (-80) 90 200 = false /\ isSwipe 80 90 200 = false.
Proof.
  cbv zeta.
  assert (Hend : handleTouchEnd (x0 + dx) (y0 + dy)
                   (step (Elapse dt) (step (TouchStart x0 y0) w)) =
                 if isAnimating (this w)
                 then (step (Elapse dt) (step (TouchStart x0 y0) w), false)
                 else if isSwipe dx dy (Z.of_N dt)
                      then if dx >? 0
                           then (previousSlide (step (Elapse dt) (step (TouchStart x0 y0) w)), true)
                           else (nextSlide (step (Elapse dt) (step (TouchStart x0 y0) w)), true)
                      else (step (Elapse dt) (step (TouchStart x0 y0) w), false)).
  { unfold handleTouchEnd. simpl.
    replace (x0 + dx - x0) with dx by lia.
    replace (y0 + dy - y0) with dy by lia.
    replace (now (window w) + Z.of_N dt - now (window w)) with (Z.of_N dt) by lia.
    reflexivity. }
  split; [|split; [|split]].
  - change (step (TouchEnd (x0 + dx) (y0 + dy))
              (step (Elapse dt) (step (TouchStart x0 y0) w)))
      with (fst (handleTouchEnd (x0 + dx) (y0 + dy)
                   (step (Elapse dt) (step (TouchStart x0 y0) w)))).
    rewrite Hend.
    destruct (isAnimating (this w)) eqn:Ha.
    + rewrite nextSlide_animating, previousSlide_animating by exact Ha.
      simpl. destruct (isSwipe _ _ _), (dx >? 0); reflexivity.
    + destruct (isSwipe _ _ _), (dx >? 0); reflexivity.
  - rewrite Hend.
    destruct (isAnimating (this w)), (isSwipe _ _ _), (dx >? 0); reflexivity.
  - unfold isSwipe.
    destruct (Z.gtb_spec (Z.abs dx) (Z.abs dy)), (Z.gtb_spec (Z.abs dx) 50),
      (Z.ltb_spec (Z.of_N dt) 500), (Z.gtb_spec dx 0), (Z.ltb_spec dx 0);
      simpl; try reflexivity; lia.
  - repeat split.
Qed.

(** ** The resize debounce *)

Lemma run_app t1 : forall t2 w, run (t1 ++ t2) w = run t2 (run t1 w).
Proof. induction t1 as [|e t1 IH]; intros t2 w; simpl; [reflexivity | apply IH]. Qed.

Lemma filter_none {A} (P : A -> Prop) `{forall x, Decision (P x)} (l : list A) :
  (forall x, x ∈ l -> ~ P x) -> filter P l = [].
Proof.
  induction l as [|a l IH]; intros Hn; [reflexivity|].
  rewrite filter_cons_False by (apply Hn; left).
  apply IH. intros x Hin. apply Hn. right. assumption.
Qed.

Lemma filter_only (P : timer -> Prop) `{forall x, Decision (P x)} tms t :
  NoDup (timerId <$> tms) -> t ∈ tms -> P t ->
  (forall t', t' ∈ tms -> P t' -> t' = t) ->
  filter P tms = [t].
Proof.
  induction tms as [|a tms IH]; intros Hnd Hin Ht Huniq; [inversion Hin|].
  simpl in Hnd. apply NoDup_cons in Hnd as [Hnotin Hnd].
  destruct (decide (P a)) as [Ha | Hna].
  - pose proof (Huniq a ltac:(left) Ha) as ->.
    rewrite filter_cons_True by assumption. f_equal.
    apply filter_none. intros x Hx HP.
    pose proof (Huniq x ltac:(right; exact Hx) HP) as ->.
    apply Hnotin, list_elem_of_fmap. exists t. auto.
  - rewrite filter_cons_False by assumption.
    apply elem_of_cons in Hin as [-> | Hin]; [contradiction|].
    apply IH; try assumption.
    intros t' Hin' HP. apply Huniq; [right|]; assumption.
Qed.

(** The only pending debounce timer is the one [resizeTimeout] names. *)
Lemma resize_timer_unique w id t :
  inv w -> resizeTimeout (this w) = Some id -> t ∈ timers (window w) ->
  isResizeSettled (timerCallback t) = true -> timerId t = id.
Proof.
  intros Hinv Hrt Hin Hcb. destruct (inv_timers w Hinv) as (_ & _ & Hres & _).
  destruct (timerCallback t) eqn:Hc; try discriminate Hcb.
  apply (Hres t Hin) in Hc. congruence.
Qed.

Lemma pendingResize_single w id d :
  inv w -> resizeTimeout (this w) = Some id ->
  Timer id d ResizeSettled ∈ timers (window w) ->
  pendingResize w = [Timer id d ResizeSettled].
Proof.
  intros Hinv Hrt Hin. pose proof (inv_timers w Hinv) as (_ & Hnd & _).
  unfold pendingResize. apply filter_only; [assumption | assumption | reflexivity |].
  intros t' Hin' Hcb. apply (timer_unique _ _ _ Hnd Hin' Hin).
  simpl. apply (resize_timer_unique w id t' Hinv Hrt Hin' Hcb).
Qed.

Lemma elapsed_nonneg trace : 0 <= elapsed trace.
Proof.
  induction trace as [|e trace IH]; simpl; [lia|]. destruct e; lia.
Qed.

Lemma step_resize_eq width w :
  step (WindowResize width) w = handleResize (upd_window (set_innerWidth width) w).
Proof. reflexivity. Qed.

Lemma handleResize_debouncing width w :
  inv w ->
  debouncing (now (window w)) (nextTimer (window w)) (charts (this w))
    (step (WindowResize width) w) /\
  now (window (step (WindowResize width) w)) = now (window w).
Proof.
  intros Hinv. pose proof (step_inv (WindowResize width) w Hinv) as Hinv'.
  rewrite step_resize_eq, handleResize_eq in *.
  split; [|reflexivity].
  split; [assumption|]. simpl. split; [reflexivity|]. split; [|reflexivity].
  apply elem_of_app. right. apply list_elem_of_singleton. reflexivity.
Qed.

Lemma clock_debouncing e T id c0 w :
  isClock e = true -> debouncing T id c0 w ->
  now (window w) + elapsed [e] < T + 250 ->
  debouncing T id c0 (step e w) /\
  now (window (step e w)) = now (window w) + elapsed [e].
Proof.
  intros He (Hinv & Hrt & Hin & Hch) Hnow.
  destruct e; try discriminate He.
  - simpl. split; [|lia]. split; [|auto].
    apply (step_inv (Elapse ms) w Hinv).
  - change (step (Timeout id0) w) with (fireTimer id0 w).
    assert (Hinv' := fireTimer_inv id0 w Hinv).
    change (elapsed [Timeout id0]) with 0 in *.
    destruct (fireTimer_cases id0 w) as [Heq | (t & Hint & Hid & Hdue & Heq)].
    { rewrite Heq in *. split; [|lia]. split; auto. }
    pose proof (inv_timers w Hinv) as (_ & Hnd & _ & _ & Hkind).
    destruct (Hkind t Hint) as [Hs | Hcb].
    + destruct (timerCallback t) as [| |el|] eqn:Hc; try discriminate Hs.
      split; [split; [exact Hinv'|] |];
        rewrite Heq; simpl; rewrite goToSlide_settle_eq; simpl; [|lia].
      split; [assumption|]. split; [|assumption].
      apply list_elem_of_filter. split; [|assumption]. simpl. intros ->.
      pose proof (timer_unique _ _ _ Hnd Hint Hin Hid) as ->. discriminate Hc.
    + exfalso.
      assert (Hidt : timerId t = id).
      { apply (resize_timer_unique w id t Hinv Hrt Hint). rewrite Hcb. reflexivity. }
      pose proof (timer_unique _ _ _ Hnd Hint Hin Hidt) as ->. simpl in Hdue. lia.
Qed.

Lemma gap_debouncing gap : forall T id c0 w,
  forallb isClock gap = true -> debouncing T id c0 w ->
  now (window w) + elapsed gap < T + 250 ->
  debouncing T id c0 (run gap w).
Proof.
  induction gap as [|e gap IH]; intros T id c0 w Hc Hd Hnow; simpl; [assumption|].
  simpl in Hc. apply andb_true_iff in Hc as [He Hc].
  assert (Hsplit : elapsed (e :: gap) = elapsed [e] + elapsed gap)
    by (simpl; destruct e; lia).
  pose proof (elapsed_nonneg gap).
  destruct (clock_debouncing e T id c0 w He Hd ltac:(lia)) as [Hd' Hnow'].
  apply IH; [assumption | assumption | lia].
Qed.

Lemma burst_debouncing more : forall width w,
  inv w -> Forall (fun g => quietGap (fst g) = true) more ->
  exists id,
    debouncing (now (window (run (burstTrace width more) w))) id (charts (this w))
      (run (burstTrace width more) w).
Proof.
  induction more as [|[gap width'] more IH]; intros width w Hinv Hq.
  - exists (nextTimer (window w)).
    destruct (handleResize_debouncing width w Hinv) as [Hd Hnow].
    change (run (burstTrace width []) w) with (step (WindowResize width) w).
    rewrite Hnow. assumption.
  - apply Forall_cons in Hq as [Hgap Hq]. simpl in Hgap.
    apply andb_true_iff in Hgap as [Hclock Hlt]. apply Z.ltb_lt in Hlt.
    change (run (burstTrace width ((gap, width') :: more)) w)
      with (run (gap ++ burstTrace width' more) (step (WindowResize width) w)).
    rewrite run_app.
    destruct (handleResize_debouncing width w Hinv) as [Hd Hnow].
    pose proof (gap_debouncing gap _ _ _ _ Hclock Hd ltac:(lia))
      as (Hinv' & _ & _ & Hch).
    rewrite <- Hch. apply IH; assumption.
Qed.

Lemma handleResize_settled_charts w :
  charts (this (handleResize_settled w)) = S <$> charts (this w).
Proof. destruct (handleResize_settled_frame w) as (f & _ & ->). reflexivity. Qed.

(** C7.  Resize handling is a 250 ms trailing-edge debounce: every resize
    event cancels the pending timer and starts a new one.  After a burst
    of resize events in which each follows the previous one by less than
    250 ms (whatever timers are given a chance to fire in between), no
    chart has been resized, exactly one debounce timer is pending, due
    250 ms after the last event; it cannot fire earlier, and when it fires
    every registered chart receives exactly one [resize()] call and no
    debounce timer is left. *)
Theorem resize_burst_one_relayout w width more (ms : N) :
  loaded w ->
  Forall (fun g => quietGap (fst g) = true) more ->
  (250 <= ms)%N ->
  let w1 := run (burstTrace width more) w in
  charts (this w1) = charts (this w) /\
  exists id,
    resizeTimeout (this w1) = Some id /\
    pendingResize w1 = [Timer id (now (window w1) + 250) ResizeSettled] /\
    (forall early : N, (early < 250)%N ->
       run [Elapse early; Timeout id] w1 = step (Elapse early) w1) /\
    charts (this (run [Elapse ms; Timeout id] w1)) = S <$> charts (this w) /\
    pendingResize (run [Elapse ms; Timeout id] w1) = [].
Proof.
  intros Hl Hq Hms. cbv zeta.
  destruct (burst_debouncing more width w (loaded_inv w Hl) Hq)
    as (id & Hinv & Hrt & Hin & Hch).
  set (w1 := run (burstTrace width more) w) in *.
  split; [assumption|]. exists id.
  split; [assumption|].
  split; [apply pendingResize_single; assumption|].
  pose proof (inv_timers w1 Hinv) as Hok.
  assert (Hfind : forall n : N,
            List.find (fun t => Pos.eqb (timerId t) id)
              (timers (window (step (Elapse n) w1))) =
            Some (Timer id (now (window w1) + 250) ResizeSettled)).
  { intros n. simpl. eapply find_timer; [exact Hok | exact Hin | reflexivity]. }
  split; [|split].
  - intros early Hearly.
    change (run [Elapse early; Timeout id] w1)
      with (fireTimer id (step (Elapse early) w1)).
    unfold fireTimer. rewrite Hfind. simpl.
    destruct (Z.leb_spec (now (window w1) + 250) (now (window w1) + Z.of_N early));
      [lia | reflexivity].
  - change (run [Elapse ms; Timeout id] w1) with (fireTimer id (step (Elapse ms) w1)).
    unfold fireTimer. rewrite Hfind. simpl.
    destruct (Z.leb_spec (now (window w1) + 250) (now (window w1) + Z.of_N ms)); [|lia].
    cbn [timerCallback runCallback].
    rewrite handleResize_settled_charts.
    change (S <$> charts (this w1) = S <$> charts (this w)).
    rewrite Hch. reflexivity.
  - change (run [Elapse ms; Timeout id] w1) with (fireTimer id (step (Elapse ms) w1)).
    unfold fireTimer. rewrite Hfind. simpl.
    destruct (Z.leb_spec (now (window w1) + 250) (now (window w1) + Z.of_N ms)); [|lia].
    unfold pendingResize.
    destruct (handleResize_settled_frame
                (clearTimeout id (upd_window (fun e => set_now (now e + Z.of_N ms) e) w1)))
      as (f & _ & ->).
    simpl. apply filter_none.
    intros t [Hne Hint]%list_elem_of_filter Hcb.
    apply Hne. apply (resize_timer_unique w1 id t Hinv Hrt Hint Hcb).
Qed.

Lemma resize_burst_one_relayout_witness :
  let w1 := run (burstTrace 1100 fiveResizes) (demoWorld 3 None) in
  charts (this w1) = charts (this (demoWorld 3 None)) /\
  exists id,
    resizeTimeout (this w1) = Some id /\
    pendingResize w1 = [Timer id (now (window w1) + 250) ResizeSettled] /\
    (forall early : N, (early < 250)%N ->
       run [Elapse early; Timeout id] w1 = step (Elapse early) w1) /\
    charts (this (run [Elapse 250; Timeout id] w1)) = S <$> charts (this (demoWorld 3 None)) /\
    pendingResize (run [Elapse 250; Timeout id] w1) = [].
Proof.
  apply (resize_burst_one_relayout (demoWorld 3 None) 1100 fiveResizes 250).
  - apply demoWorld_loaded.
  - repeat constructor.
  - lia.
Defined.

(** ** Persistence does not steer navigation *)

Lemma sameButStorage_withStorage w1 w2 :
  sameButStorage w1 w2 ->
  w2 = withStorage (localStorage (window w2)) (console (window w2)) w1.
Proof.
  unfold sameButStorage, sansStorage, withStorage.
  destruct w1 as [t1 d1 e1], w2 as [t2 d2 e2], e1, e2. simpl.
  intros [= -> -> -> -> -> -> -> ->]. reflexivity.
Qed.

Lemma ignoresStorage_intro f :
  (forall st c w, sameButStorage (f w) (f (withStorage st c w))) -> ignoresStorage f.
Proof.
  intros H w1 w2 H12. rewrite (sameButStorage_withStorage w1 w2 H12). apply H.
Qed.

Lemma goToSlide_ignoresStorage index : ignoresStorage (goToSlide index).
Proof.
  apply ignoresStorage_intro. intros st c w.
  destruct (isAnimating (this w)) eqn:Ha.
  { rewrite !goToSlide_rejected by auto. reflexivity. }
  destruct (Z.ltb_spec index 0).
  { rewrite !goToSlide_rejected by auto. reflexivity. }
  destruct (Z.leb_spec (totalSlides (this w)) index).
  { rewrite !goToSlide_rejected by auto. reflexivity. }
  rewrite (goToSlide_accepted index w), (goToSlide_accepted index (withStorage st c w));
    try assumption; try (simpl; lia).
  reflexivity.
Qed.

Lemma nextSlide_ignoresStorage : ignoresStorage nextSlide.
Proof.
  apply ignoresStorage_intro. intros st c w. unfold nextSlide. simpl.
  destruct (_ <? _); [|reflexivity].
  apply goToSlide_ignoresStorage. reflexivity.
Qed.

Lemma previousSlide_ignoresStorage : ignoresStorage previousSlide.
Proof.
  apply ignoresStorage_intro. intros st c w. unfold previousSlide. simpl.
  destruct (_ >? _); [|reflexivity].
  apply goToSlide_ignoresStorage. reflexivity.
Qed.

Lemma handleKeyboard_ignoresStorage key :
  ignoresStorage (fun w => fst (handleKeyboard key w)).
Proof.
  apply ignoresStorage_intro. intros st c w. unfold handleKeyboard. simpl.
  repeat (match goal with |- context [if ?b then _ else _] => destruct b end;
          simpl; try reflexivity);
    first [ apply nextSlide_ignoresStorage | apply previousSlide_ignoresStorage
          | apply goToSlide_ignoresStorage ]; reflexivity.
Qed.

Lemma handleTouchEnd_ignoresStorage x y :
  ignoresStorage (fun w => fst (handleTouchEnd x y w)).
Proof.
  apply ignoresStorage_intro. intros st c w. unfold handleTouchEnd. simpl.
  repeat (match goal with |- context [if ?b then _ else _] => destruct b end;
          simpl; try reflexivity);
    first [ apply nextSlide_ignoresStorage | apply previousSlide_ignoresStorage ];
    reflexivity.
Qed.

Lemma saveProgress_sameButStorage w : sameButStorage (saveProgress w) w.
Proof.
  rewrite saveProgress_eq.
  unfold sameButStorage, sansStorage, savedWindow, upd_window. simpl.
  destruct (setItemThrows (localStorage (window w))); reflexivity.
Qed.

Lemma saveProgress_ignoresStorage : ignoresStorage saveProgress.
Proof.
  intros w1 w2 H. unfold sameButStorage in *.
  rewrite (saveProgress_sameButStorage w1), (saveProgress_sameButStorage w2).
  assumption.
Qed.

Lemma handleResize_ignoresStorage : ignoresStorage handleResize.
Proof.
  apply ignoresStorage_intro. intros st c w. rewrite !handleResize_eq. reflexivity.
Qed.

Lemma runCallback_ignoresStorage cb : ignoresStorage (runCallback cb).
Proof.
  apply ignoresStorage_intro. intros st c w. destruct cb; simpl.
  - reflexivity.
  - rewrite !goToSlide_frame2_eq.
    unfold sameButStorage, sansStorage, savedWindow, upd_window. simpl.
    destruct (setItemThrows (localStorage (window w))), (setItemThrows st); reflexivity.
  - rewrite !goToSlide_settle_eq. reflexivity.
  - unfold handleResize_settled, optimizeForMobile. simpl.
    destruct (innerWidth (window w) <=? 768); reflexivity.
Qed.

Lemma sameButStorage_scheduler w1 w2 :
  sameButStorage w1 w2 ->
  frameCallbacks (window w1) = frameCallbacks (window w2) /\
  timers (window w1) = timers (window w2) /\
  now (window w1) = now (window w2).
Proof.
  intros H. rewrite (sameButStorage_withStorage w1 w2 H). auto.
Qed.

Lemma animationFrame_ignoresStorage : ignoresStorage animationFrame.
Proof.
  intros w1 w2 H. unfold animationFrame.
  destruct (sameButStorage_scheduler w1 w2 H) as (<- & _).
  assert (H0 : sameButStorage (upd_window (set_frameCallbacks []) w1)
                 (upd_window (set_frameCallbacks []) w2)).
  { rewrite (sameButStorage_withStorage w1 w2 H). reflexivity. }
  revert H0. generalize (upd_window (set_frameCallbacks []) w1).
  generalize (upd_window (set_frameCallbacks []) w2).
  induction (frameCallbacks (window w1)) as [|cb q IH]; intros v2 v1 Hv; simpl.
  - assumption.
  - apply IH. apply runCallback_ignoresStorage. assumption.
Qed.

Lemma fireTimer_ignoresStorage id : ignoresStorage (fireTimer id).
Proof.
  intros w1 w2 H. unfold fireTimer.
  destruct (sameButStorage_scheduler w1 w2 H) as (_ & <- & <-).
  destruct (List.find _ _) as [t|]; [|assumption].
  destruct (_ <=? _); [|assumption].
  apply runCallback_ignoresStorage.
  rewrite (sameButStorage_withStorage w1 w2 H). reflexivity.
Qed.

Lemma step_ignoresStorage e : ignoresStorage (step e).
Proof.
  intros w1 w2 H. pose proof (sameButStorage_withStorage w1 w2 H) as Hw.
  assert (Hd : document w2 = document w1) by (rewrite Hw; reflexivity).
  destruct e; simpl.
  - rewrite Hd. destruct (prevButton _); [|assumption].
    apply previousSlide_ignoresStorage. assumption.
  - rewrite Hd. destruct (nextButton _); [|assumption].
    apply nextSlide_ignoresStorage. assumption.
  - apply (handleKeyboard_ignoresStorage key). assumption.
  - rewrite Hw. reflexivity.
  - apply (handleTouchEnd_ignoresStorage x y). assumption.
  - apply handleResize_ignoresStorage. rewrite Hw. reflexivity.
  - rewrite Hw. reflexivity.
  - apply animationFrame_ignoresStorage. assumption.
  - rewrite Hw. reflexivity.
  - apply fireTimer_ignoresStorage. assumption.
  - destruct hidden; [apply saveProgress_ignoresStorage|]; assumption.
  - apply saveProgress_ignoresStorage. assumption.
  - apply goToSlide_ignoresStorage. assumption.
Qed.

Lemma run_ignoresStorage trace : ignoresStorage (run trace).
Proof.
  induction trace as [|e trace IH]; intros w1 w2 H; simpl; [assumption|].
  apply IH, step_ignoresStorage, H.
Qed.

Lemma sameButStorage_this_document w1 w2 :
  sameButStorage w1 w2 -> this w1 = this w2 /\ document w1 = document w2.
Proof.
  intros H. rewrite (sameButStorage_withStorage w1 w2 H). auto.
Qed.

(** C8.  [saveProgress] stores the printed current index under the key
    ["presentationProgress"] when [setItem] does not throw; when it throws
    the failure is swallowed: the call returns, storage is as before and
    only a console warning records it.  Either way the controller, the
    document and the scheduler are untouched.  Whatever the storage holds
    and however it behaves, every trace of events, a complete navigation
    transition in particular, leaves the same controller state, the same
    document and the same scheduler. *)
Theorem persistence_failure_swallowed w :
  items (localStorage (window (saveProgress w))) !! storageKey =
    (if setItemThrows (localStorage (window w))
     then items (localStorage (window w)) !! storageKey
     else Some (JS.toString (currentSlide (this w)))) /\
  (if setItemThrows (localStorage (window w))
   then localStorage (window (saveProgress w)) = localStorage (window w) /\
        console (window (saveProgress w)) = console (window w) ++ [CouldNotSave]
   else console (window (saveProgress w)) = console (window w)) /\
  sameButStorage (saveProgress w) w /\
  (forall st c trace, sameButStorage (run trace (withStorage st c w)) (run trace w)) /\
  (forall st c target,
     let w1 := run (transitionTrace target w) w in
     let w2 := run (transitionTrace target (withStorage st c w)) (withStorage st c w) in
     this w2 = this w1 /\ document w2 = document w1 /\
     frameCallbacks (window w2) = frameCallbacks (window w1) /\
     timers (window w2) = timers (window w1)).
Proof.
  assert (Hrun : forall st c trace,
            sameButStorage (run trace (withStorage st c w)) (run trace w))
    by (intros st c trace; apply run_ignoresStorage; reflexivity).
  split; [|split; [|split; [|split]]].
  - rewrite saveProgress_eq. unfold savedWindow. simpl.
    destruct (setItemThrows (localStorage (window w))); simpl; [reflexivity|].
    apply lookup_insert_eq.
  - rewrite saveProgress_eq. unfold savedWindow. simpl.
    destruct (setItemThrows (localStorage (window w))); simpl; auto.
  - apply saveProgress_sameButStorage.
  - exact Hrun.
  - intros st c target. cbv zeta.
    change (transitionTrace target (withStorage st c w)) with (transitionTrace target w).
    pose proof (Hrun st c (transitionTrace target w)) as H.
    destruct (sameButStorage_this_document _ _ H) as [Ht Hd].
    destruct (sameButStorage_scheduler _ _ H) as (Hf & Htm & _).
    auto.
Qed.

(** ** The progress bar *)






(** ** Restoring the saved position *)

Lemma loadProgress_currentSlide w :
  currentSlide (this (loadProgress w)) =
  if getItemThrows (localStorage (window w)) then currentSlide (this w)
  else match items (localStorage (window w)) !! storageKey with
       | Some saved =>
           match JS.parseInt saved with
           | Some v =>
               if (0 <=? v) && (v <? totalSlides (this w)) then v
               else currentSlide (this w)
           | None => currentSlide (this w)
           end
       | None => currentSlide (this w)
       end.
Proof.
  unfold loadProgress.
  destruct (getItemThrows _); [reflexivity|].
  destruct (items _ !! storageKey) as [saved|]; [|reflexivity].
  destruct (JS.parseInt saved) as [v|]; [|reflexivity].
  destruct (_ && _); reflexivity.
Qed.

(** C10.  [loadProgress] adopts whatever in-range integer [parseInt] reads
    off the front of the stored string: a stored printed index followed by
    anything that is not a digit (["2.9"], ["2px"]) restores that index.
    The index is left as it was (0 when [init] calls [loadProgress]) only
    when reading throws, the key is absent, [parseInt] gives [NaN], or the
    parsed value is outside [[0, totalSlides-1]]. *)
Theorem loadProgress_numeric_prefix w :
  (forall saved v,
     getItemThrows (localStorage (window w)) = false ->
     items (localStorage (window w)) !! storageKey = Some saved ->
     JS.parseInt saved = Some v ->
     0 <= v < totalSlides (this w) ->
     currentSlide (this (loadProgress w)) = v) /\
  (forall k rest,
     getItemThrows (localStorage (window w)) = false ->
     items (localStorage (window w)) !! storageKey = Some (JS.toString k ++ rest) ->
     stopsNumber rest -> (k = 0 -> startsWithX rest = false) ->
     0 <= k < totalSlides (this w) ->
     currentSlide (this (loadProgress w)) = k) /\
  (getItemThrows (localStorage (window w)) = true \/
   items (localStorage (window w)) !! storageKey = None \/
   (exists saved,
      items (localStorage (window w)) !! storageKey = Some saved /\
      (JS.parseInt saved = None \/
       exists v, JS.parseInt saved = Some v /\ (v < 0 \/ totalSlides (this w) <= v))) ->
   currentSlide (this (loadProgress w)) = currentSlide (this w)) /\
  JS.parseInt (JS.lit "2.9") = Some 2 /\
  JS.parseInt (JS.lit "2px") = Some 2.
Proof.
  assert (Hparsed : forall saved v,
     getItemThrows (localStorage (window w)) = false ->
     items (localStorage (window w)) !! storageKey = Some saved ->
     JS.parseInt saved = Some v ->
     0 <= v < totalSlides (this w) ->
     currentSlide (this (loadProgress w)) = v).
  { intros saved v Hget Hitem Hparse Hr.
    rewrite loadProgress_currentSlide, Hget, Hitem, Hparse.
    destruct (Z.leb_spec 0 v), (Z.ltb_spec v (totalSlides (this w))); simpl;
      [reflexivity | lia | lia | lia]. }
  split; [exact Hparsed|]. split; [|split; [|split; reflexivity]].
  - intros k rest Hget Hitem Hstop Hx Hr.
    apply (Hparsed _ k Hget Hitem); [|assumption].
    apply JSFacts.parseInt_toString_app; [lia | assumption | assumption].
  - rewrite loadProgress_currentSlide.
    intros [-> | [-> | (saved & -> & [-> | (v & -> & Hv)])]];
      try reflexivity.
    + destruct (getItemThrows _); reflexivity.
    + destruct (getItemThrows _); reflexivity.
    + destruct (getItemThrows _); [reflexivity|].
      destruct (Z.leb_spec 0 v), (Z.ltb_spec v (totalSlides (this w))); simpl;
        try reflexivity; lia.
Qed.

Lemma loadProgress_numeric_prefix_witness :
  currentSlide (this (loadProgress (beforeLoad 3 (JS.lit "2px")))) = 2 /\
  currentSlide (this (loadProgress (beforeLoad 3 (JS.toString 1 ++ JS.lit ".9")))) = 1 /\
  currentSlide (this (loadProgress (beforeLoad 3 (JS.lit "7")))) = 0.
Proof.
  split; [|split].
  - apply (proj1 (loadProgress_numeric_prefix (beforeLoad 3 (JS.lit "2px")))
             (JS.lit "2px") 2);
      [reflexivity | vm_compute; reflexivity | reflexivity
      | vm_compute; split; [discriminate | reflexivity]].
  - apply (proj1 (proj2 (loadProgress_numeric_prefix
                           (beforeLoad 3 (JS.toString 1 ++ JS.lit ".9"))))
             1 (JS.lit ".9"));
      [reflexivity | vm_compute; reflexivity | reflexivity | discriminate
      | vm_compute; split; [discriminate | reflexivity]].
  - apply (proj1 (proj2 (proj2 (loadProgress_numeric_prefix (beforeLoad 3 (JS.lit "7")))))).
    right. right. exists (JS.lit "7"). split; [vm_compute; reflexivity|].
    right. exists 7. split; [reflexivity|]. right. vm_compute. discriminate.
Defined.

(** C1, on the code.  After slide 2 of a three-slide deck has been reached
    and saved, the stored value is ["2"] and [loadProgress] alone restores
    index 2 from it; yet a controller constructed afresh over that storage
    starts on index 0 with slide 0 active, because [init] calls
    [showSlide(0)] after [loadProgress]. *)
Theorem saved_index_lost_on_reload :
  currentSlide (this (onSlide 3 2)) = 2 /\
  items (localStorage (window (onSlide 3 2))) !! storageKey = Some (JS.lit "2") /\
  currentSlide (this (loadProgress (beforeLoad 3 (JS.lit "2")))) = 2 /\
  totalSlides (this (reload 3 (onSlide 3 2))) = 3 /\
  currentSlide (this (reload 3 (onSlide 3 2))) = 0 /\
  activeSlides (reload 3 (onSlide 3 2)) = [0%nat].
Proof. repeat split; vm_compute; reflexivity. Qed.

(** The initial index is 0 whatever the storage holds. *)
Lemma initial_index_zero d e :
  pristine e -> currentSlide (this (domContentLoaded d e)) = 0.
Proof. intros H. apply (domContentLoaded_idle d e H). Qed.

(** [loadProgress] after [saveProgress] restores the index it saved. *)
Lemma loadProgress_saveProgress w k :
  getItemThrows (localStorage (window w)) = false ->
  setItemThrows (localStorage (window w)) = false ->
  0 <= k < totalSlides (this w) ->
  currentSlide
    (this (loadProgress
             (upd_this (set_currentSlide 0)
                (saveProgress (upd_this (set_currentSlide k) w))))) = k.
Proof.
  intros Hget Hset Hr. rewrite loadProgress_currentSlide, saveProgress_eq.
  unfold savedWindow. simpl. rewrite Hset. simpl. rewrite Hget.
  rewrite lookup_insert_eq, JSFacts.parseInt_toString by lia.
  destruct (Z.leb_spec 0 k), (Z.ltb_spec k (totalSlides (this w))); simpl;
    [reflexivity | lia | lia | lia].
Qed.

(** * Further properties of the controller *)

(** ** The freshly constructed controller *)









(** ** What holds in every reachable world *)

(** X2.  In every world the page can reach, [totalSlides] is the number of
    slides, the index is in range (or the deck is empty and the index is
    0), and at most one slide is marked active, namely the current one;
    when the controller is idle on a non-empty deck exactly the current
    slide is marked active. *)
Theorem reachable_index_and_marks w :
  loaded w ->
  totalSlides (this w) = Z.of_nat (length (slides (document w))) /\
  (0 <= currentSlide (this w) < totalSlides (this w) \/
   (totalSlides (this w) = 0 /\ currentSlide (this w) = 0)) /\
  (activeSlides w = [] \/ activeSlides w = [Z.to_nat (currentSlide (this w))]) /\
  (isAnimating (this w) = false -> 0 < totalSlides (this w) ->
   activeSlides w = [Z.to_nat (currentSlide (this w))]).
Proof.
  intros Hl. pose proof (loaded_inv w Hl) as [(Htot & H0 & Hlt) _ [p Hp]].
  assert (Hmarks : marksAt (currentSlide (this w)) (slides (document w)) ->
                   (0 < totalSlides (this w) ->
                    activeSlides w = [Z.to_nat (currentSlide (this w))]) /\
                   (activeSlides w = [] \/
                    activeSlides w = [Z.to_nat (currentSlide (this w))])).
  { intros Hm.
    assert (Hpos : 0 < totalSlides (this w) ->
                   activeSlides w = [Z.to_nat (currentSlide (this w))])
      by (intros Hpos; apply marksAt_activeFrom; [lia | assumption]).
    split; [assumption|].
    destruct (Z.eq_dec (totalSlides (this w)) 0) as [Hz | Hnz]; [left | right; apply Hpos; lia].
    unfold activeSlides. destruct (slides (document w)); [reflexivity|].
    simpl in Htot. lia. }
  split; [assumption|]. split; [lia|].
  destruct p; simpl in Hp.
  - destruct Hp as (_ & _ & _ & Hm & _). destruct (Hmarks Hm). auto.
  - destruct Hp as (Ha & _ & _ & Hn & _). split; [|congruence].
    left. apply activeFrom_none. assumption.
  - destruct Hp as (Ha & _ & _ & Hn & _). split; [|congruence].
    left. apply activeFrom_none. assumption.
  - destruct Hp as (Ha & _ & _ & Hm & _). destruct (Hmarks Hm). split; [auto | congruence].
Qed.

Lemma midTransition_loaded : loaded midTransition.
Proof.
  unfold loaded, midTransition, demoWorld.
  exists (demoDocument 3), (demoWindow None), [CallGoToSlide 1].
  split; [split; reflexivity|]. cbn [run step]. reflexivity.
Defined.

Lemma reachable_index_and_marks_witness :
  totalSlides (this midTransition) = 3 /\ activeSlides midTransition = [].
Proof.
  destruct (reachable_index_and_marks midTransition midTransition_loaded)
    as (Htot & _).
  split; [rewrite Htot; vm_compute; reflexivity | vm_compute; reflexivity].
Defined.

Lemma animating_locked p w :
  inPhase p w -> isAnimating (this w) = true -> buttonsLocked (document w).
Proof.
  destruct p; simpl; intros Hp Ha; [destruct Hp; congruence | | |]; tauto.
Qed.

Lemma animationFrame_animating w :
  inv w -> isAnimating (this w) = true ->
  this (animationFrame w) = this w /\ now (window (animationFrame w)) = now (window w).
Proof.
  intros Hinv Ha. destruct (inv_phase w Hinv) as [[| | |id d600] Hp].
  - destruct Hp; congruence.
  - destruct (frame1_phase w Hinv Hp) as (-> & _). auto.
  - destruct (frame2_phase w Hinv Hp) as (Ht & Hn & _). auto.
  - rewrite animationFrame_empty; [auto | apply Hp].
Qed.

Lemma fireTimer_index id w :
  inv w ->
  currentSlide (this (fireTimer id w)) = currentSlide (this w) /\
  totalSlides (this (fireTimer id w)) = totalSlides (this w).
Proof.
  intros Hinv.
  destruct (fireTimer_cases id w) as [-> | (t & Hin & Hid & Hdue & ->)]; [auto|].
  pose proof (inv_timers w Hinv) as (_ & _ & _ & _ & Hkind).
  destruct (Hkind t Hin) as [Hs | ->].
  - destruct (timerCallback t); try discriminate Hs. simpl.
    rewrite goToSlide_settle_eq. auto.
  - simpl. destruct (handleResize_settled_frame (clearTimeout id w)) as (f & _ & ->). auto.
Qed.

(** X3.  While a transition is in flight no event whatsoever changes the
    current index or the slide count, and both navigation buttons are
    disabled. *)
Theorem index_frozen_while_animating w e :
  loaded w -> isAnimating (this w) = true ->
  currentSlide (this (step e w)) = currentSlide (this w) /\
  totalSlides (this (step e w)) = totalSlides (this w) /\
  (forall b, prevButton (document w) = Some b -> disabled b = true) /\
  (forall b, nextButton (document w) = Some b -> disabled b = true).
Proof.
  intros Hl Ha. pose proof (loaded_inv w Hl) as Hinv.
  destruct (inv_phase w Hinv) as [p Hp].
  destruct (animating_locked p w Hp Ha) as [Hb1 Hb2].
  assert (Hidx : currentSlide (this (step e w)) = currentSlide (this w) /\
                 totalSlides (this (step e w)) = totalSlides (this w)).
  { destruct e; cbn [step].
    - destruct (prevButton _); rewrite ?previousSlide_animating; auto.
    - destruct (nextButton _); rewrite ?nextSlide_animating; auto.
    - unfold handleKeyboard. rewrite Ha. auto.
    - auto.
    - unfold handleTouchEnd. rewrite Ha. auto.
    - rewrite handleResize_eq. auto.
    - auto.
    - destruct (animationFrame_animating w Hinv Ha) as [-> _]. auto.
    - auto.
    - apply fireTimer_index. assumption.
    - destruct hidden; rewrite ?saveProgress_eq; auto.
    - rewrite saveProgress_eq. auto.
    - rewrite goToSlide_rejected; auto. }
  destruct Hidx as [Hc Ht].
  split; [assumption|]. split; [assumption|]. split.
  - intros b Hb. apply Hb1 in Hb. subst b. reflexivity.
  - intros b Hb. apply Hb2 in Hb. subst b. reflexivity.
Qed.

Lemma index_frozen_while_animating_witness :
  currentSlide (this (step (KeyDown "End") midTransition)) = 1 /\
  currentSlide (this (step AnimationFrame midTransition)) = 1.
Proof.
  split.
  - rewrite (proj1 (index_frozen_while_animating midTransition (KeyDown "End")
                      midTransition_loaded ltac:(vm_compute; reflexivity))).
    vm_compute. reflexivity.
  - rewrite (proj1 (index_frozen_while_animating midTransition AnimationFrame
                      midTransition_loaded ltac:(vm_compute; reflexivity))).
    vm_compute. reflexivity.
Defined.

(** ** The course of a transition *)

Lemma two_frames w target :
  inv w -> inPhase Idle w -> 0 <= target < totalSlides (this w) ->
  inv (animationFrame (animationFrame (goToSlide target w))) /\
  inPhase (Settling (nextTimer (window w)) (now (window w) + 600))
    (animationFrame (animationFrame (goToSlide target w))) /\
  this (animationFrame (animationFrame (goToSlide target w))) =
    set_currentSlide target (set_isAnimating true (this w)) /\
  now (window (animationFrame (animationFrame (goToSlide target w)))) = now (window w).
Proof.
  intros Hinv Hp Hr. pose proof Hp as (Ha & _).
  destruct (goToSlide_phase target w Hinv Hp Hr) as [Hinv1 Hp1].
  destruct (frame1_phase _ Hinv1 Hp1) as (Heq2 & Hinv2 & Hp2).
  destruct (frame2_phase _ Hinv2 Hp2) as (Ht3 & Hn3 & Hinv3 & Hp3).
  assert (Hw2 : this (animationFrame (goToSlide target w)) =
                  set_currentSlide target (set_isAnimating true (this w)) /\
                nextTimer (window (animationFrame (goToSlide target w))) =
                  nextTimer (window w) /\
                now (window (animationFrame (goToSlide target w))) = now (window w)).
  { rewrite Heq2, (goToSlide_accepted target w Ha Hr). auto. }
  destruct Hw2 as (Ht2 & Hnt2 & Hn2).
  rewrite Hnt2, Hn2 in Hp3. rewrite Ht3, Hn3, Ht2, Hn2. auto.
Qed.

Lemma settling_fire id d600 w :
  inv w -> inPhase (Settling id d600) w ->
  (d600 <= now (window w) ->
   inv (fireTimer id w) /\ inPhase Idle (fireTimer id w) /\
   this (fireTimer id w) = set_isAnimating false (this w)) /\
  (now (window w) < d600 -> fireTimer id w = w).
Proof.
  intros Hinv Hp. split.
  - intros Hdue. destruct (settle_phase id d600 w Hinv Hp Hdue) as (Heq & Hinv' & Hp').
    split; [assumption|]. split; [assumption|].
    rewrite Heq, goToSlide_settle_eq. reflexivity.
  - intros Hearly. destruct Hp as (_ & _ & (Hin & _) & _).
    unfold fireTimer.
    erewrite find_timer; [| apply (inv_timers w Hinv) | exact Hin | reflexivity].
    simpl. destruct (Z.leb_spec d600 (now (window w))); [lia | reflexivity].
Qed.

(** X4.  A transition in flight can always run to completion: from every
    reachable world some sequence of animation frames, elapsed time and
    timer firings alone brings the controller back to idle, on the index
    it had recorded. *)
Theorem transition_always_completes w :
  loaded w ->
  exists trace,
    forallb isScheduler trace = true /\
    isAnimating (this (run trace w)) = false /\
    currentSlide (this (run trace w)) = currentSlide (this w).
Proof.
  intros Hl. pose proof (loaded_inv w Hl) as Hinv.
  assert (Hsettling : forall id d600 v,
            inv v -> inPhase (Settling id d600) v ->
            isAnimating
              (this (run [Elapse (Z.to_N (d600 - now (window v))); Timeout id] v)) = false /\
            currentSlide
              (this (run [Elapse (Z.to_N (d600 - now (window v))); Timeout id] v)) =
              currentSlide (this v)).
  { intros id d600 v Hv Hp.
    set (ms := Z.to_N (d600 - now (window v))).
    change (run [Elapse ms; Timeout id] v) with (fireTimer id (step (Elapse ms) v)).
    destruct (settling_fire id d600 (step (Elapse ms) v)
                (step_inv (Elapse ms) v Hv) Hp) as [Hfire _].
    destruct Hfire as (_ & _ & ->); [simpl; lia | auto]. }
  destruct (inv_phase w Hinv) as [[| | |id d600] Hp].
  - exists []. split; [reflexivity|]. split; [apply Hp | reflexivity].
  - destruct (frame1_phase w Hinv Hp) as (Heq1 & Hinv1 & Hp1).
    destruct (frame2_phase _ Hinv1 Hp1) as (Ht2 & _ & Hinv2 & Hp2).
    destruct (Hsettling _ _ _ Hinv2 Hp2) as [Ha Hc].
    eexists (AnimationFrame :: AnimationFrame :: [Elapse _; Timeout _]).
    split; [reflexivity|]. cbn [run step] in *.
    split; [exact Ha|]. rewrite Hc, Ht2, Heq1. reflexivity.
  - destruct (frame2_phase w Hinv Hp) as (Ht2 & _ & Hinv2 & Hp2).
    destruct (Hsettling _ _ _ Hinv2 Hp2) as [Ha Hc].
    eexists (AnimationFrame :: [Elapse _; Timeout _]).
    split; [reflexivity|]. cbn [run step] in *.
    split; [exact Ha|]. rewrite Hc, Ht2. reflexivity.
  - destruct (Hsettling _ _ _ Hinv Hp) as [Ha Hc].
    eexists [Elapse _; Timeout _].
    split; [reflexivity|]. split; [exact Ha | exact Hc].
Qed.

Lemma transition_always_completes_witness :
  exists trace,
    forallb isScheduler trace = true /\
    isAnimating (this (run trace midTransition)) = false /\
    currentSlide (this (run trace midTransition)) = currentSlide (this midTransition).
Proof. exact (transition_always_completes midTransition midTransition_loaded). Defined.

(** X5.  The settle timer decides when the lock is released.  After
    [goToSlide target] from idle and the two frames the index and the
    active mark are already on [target]; if the timer is given its chance
    less than 600 ms later nothing happens and the controller stays locked
    with both buttons disabled, and from 600 ms on it fires, the controller
    is idle and the buttons follow the boundary rule. *)
Theorem settle_timer_timing w target (ms : N) :
  loaded w -> isAnimating (this w) = false ->
  0 <= target < totalSlides (this w) ->
  let w' := run (transitionTraceAfter ms target w) w in
  currentSlide (this w') = target /\
  activeSlides w' = [Z.to_nat target] /\
  isAnimating (this w') = (ms <? 600)%N /\
  (forall b, prevButton (document w') = Some b ->
     disabled b = (ms <? 600)%N || (target =? 0)) /\
  (forall b, nextButton (document w') = Some b ->
     disabled b = (ms <? 600)%N || (target =? totalSlides (this w) - 1)).
Proof.
  intros Hl Ha Hr. destruct (loaded_idle w Hl Ha) as [Hinv Hp]. cbv zeta.
  change (run (transitionTraceAfter ms target w) w)
    with (fireTimer (nextTimer (window w))
            (step (Elapse ms) (animationFrame (animationFrame (goToSlide target w))))).
  destruct (two_frames w target Hinv Hp Hr) as (Hinv3 & Hp3 & Ht3 & Hn3).
  set (w3 := animationFrame (animationFrame (goToSlide target w))) in *.
  pose proof (step_inv (Elapse ms) w3 Hinv3) as Hinv4.
  assert (Hp4 : inPhase (Settling (nextTimer (window w)) (now (window w) + 600))
                  (step (Elapse ms) w3)) by exact Hp3.
  assert (Hlen : 0 <= target < Z.of_nat (length (slides (document w3)))).
  { destruct (inv_index _ Hinv3) as (Hlen & _). rewrite Ht3 in Hlen. simpl in Hlen. lia. }
  destruct (settling_fire _ _ _ Hinv4 Hp4) as [Hlate Hearly].
  destruct (N.ltb_spec ms 600) as [Hms | Hms].
  - rewrite Hearly by (simpl; lia).
    destruct Hp3 as (Ha3 & _ & _ & Hm3 & [Hb1 Hb2] & _).
    rewrite Ht3 in Hm3. simpl in Hm3.
    change (this (step (Elapse ms) w3)) with (this w3).
    change (document (step (Elapse ms) w3)) with (document w3).
    rewrite Ht3. simpl.
    split; [reflexivity|]. split; [apply marksAt_activeFrom; assumption|].
    split; [reflexivity|]. split.
    + intros b Hb. apply Hb1 in Hb. subst b. reflexivity.
    + intros b Hb. apply Hb2 in Hb. subst b. reflexivity.
  - destruct Hlate as (Hinv5 & Hp5 & Ht5); [simpl; lia|].
    destruct Hp5 as (_ & _ & _ & Hm5 & [Hb1 Hb2] & _).
    pose proof (inv_index _ Hinv5) as (Hlen5 & _).
    rewrite Ht5 in Hm5, Hb1, Hb2, Hlen5 |- *.
    change (this (step (Elapse ms) w3)) with (this w3) in *.
    rewrite Ht3 in Hm5, Hb1, Hb2, Hlen5 |- *. simpl in Hm5, Hb1, Hb2, Hlen5 |- *.
    split; [reflexivity|]. split; [apply marksAt_activeFrom; [lia | assumption]|].
    split; [reflexivity|]. split.
    + intros b Hb. apply Hb1 in Hb. subst b. reflexivity.
    + intros b Hb. apply Hb2 in Hb. subst b. reflexivity.
Qed.

Lemma settle_timer_timing_witness :
  isAnimating (this (run (transitionTraceAfter 599 2 (demoWorld 3 None)) (demoWorld 3 None)))
    = true /\
  isAnimating (this (run (transitionTraceAfter 750 2 (demoWorld 3 None)) (demoWorld 3 None)))
    = false.
Proof.
  assert (Ha : isAnimating (this (demoWorld 3 None)) = false)
    by (vm_compute; reflexivity).
  assert (Hr : 0 <= 2 < totalSlides (this (demoWorld 3 None)))
    by (vm_compute; split; [discriminate | reflexivity]).
  pose proof (settle_timer_timing (demoWorld 3 None) 2 599
                (demoWorld_loaded 3 None) Ha Hr) as H1.
  pose proof (settle_timer_timing (demoWorld 3 None) 2 750
                (demoWorld_loaded 3 None) Ha Hr) as H2.
  cbv zeta in H1, H2.
  destruct H1 as (_ & _ & H1 & _), H2 as (_ & _ & H2 & _).
  split; [exact H1 | exact H2].
Defined.





Lemma slidesEntered_lookup_ne target l i :
  Z.of_nat i <> target -> slidesEntered target l !! i = l !! i.
Proof.
  intros Hne. unfold slidesEntered. destruct (nodeAt l target) as [el|] eqn:Hn;
    [|reflexivity].
  apply nodeAt_Some in Hn as [Hr ->]. apply list_lookup_alter_ne. lia.
Qed.

Lemma slidesExited_lookup_ne k l i :
  Z.of_nat i <> k -> slidesExited k l !! i = l !! i.
Proof.
  intros Hne. unfold slidesExited. destruct (nodeAt l k) as [el|] eqn:Hn;
    [|reflexivity].
  apply nodeAt_Some in Hn as [Hr ->]. apply list_lookup_alter_ne. lia.
Qed.

Lemma slidesEntered_lookup target l :
  0 <= target ->
  slidesEntered target l !! Z.to_nat target =
  (fun s => set_active true (set_exit false s)) <$> l !! Z.to_nat target.
Proof.
  intros H0. unfold slidesEntered. destruct (nodeAt l target) as [el|] eqn:Hn.
  - apply nodeAt_Some in Hn as [Hr ->]. apply list_lookup_alter_eq.
  - apply nodeAt_None in Hn.
    rewrite (lookup_ge_None_2 l (Z.to_nat target)) by lia. reflexivity.
Qed.

Lemma slidesExited_lookup k l :
  0 <= k ->
  slidesExited k l !! Z.to_nat k =
  (fun s => set_exit true (set_active false s)) <$> l !! Z.to_nat k.
Proof.
  intros H0. unfold slidesExited. destruct (nodeAt l k) as [el|] eqn:Hn.
  - apply nodeAt_Some in Hn as [Hr ->]. apply list_lookup_alter_eq.
  - apply nodeAt_None in Hn.
    rewrite (lookup_ge_None_2 l (Z.to_nat k)) by lia. reflexivity.
Qed.

(** X7.  A completed transition to another slide leaves the slide it came
    from marked exiting (and not active): [goToSlide] adds ['exit'] to the
    old slide and the second frame removes ['exit'] from the new slide
    only.  The new slide is active and not exiting, and every other slide
    is as it was. *)
Theorem old_slide_stays_exiting w target :
  loaded w -> isAnimating (this w) = false ->
  0 <= target < totalSlides (this w) -> target <> currentSlide (this w) ->
  let w' := run (transitionTrace target w) w in
  (exists s, slides (document w') !! Z.to_nat (currentSlide (this w)) = Some s /\
             exit s = true /\ active s = false) /\
  (exists s, slides (document w') !! Z.to_nat target = Some s /\
             exit s = false /\ active s = true) /\
  (forall i, Z.of_nat i <> target -> Z.of_nat i <> currentSlide (this w) ->
             slides (document w') !! i = slides (document w) !! i).
Proof.
  intros Hl Ha Hr Hne. destruct (loaded_idle w Hl Ha) as [Hinv Hp].
  cbv zeta. rewrite (transition_settles w target Hinv Hp Hr).
  destruct (inv_index w Hinv) as (Htot & H0 & Hlt).
  unfold settled. simpl.
  set (k := currentSlide (this w)) in *.
  assert (Hk : (Z.to_nat k < length (slides (document w)))%nat) by lia.
  assert (Ht : (Z.to_nat target < length (slides (document w)))%nat) by lia.
  apply lookup_lt_is_Some_2 in Hk as [sk Hsk], Ht as [st Hst].
  split; [|split].
  - rewrite slidesEntered_lookup_ne by lia.
    rewrite slidesExited_lookup, Hsk by lia. eexists. split; [reflexivity|]. auto.
  - rewrite slidesEntered_lookup by lia.
    unfold slidesExited. destruct (nodeAt _ k) as [el|] eqn:Hn.
    + apply nodeAt_Some in Hn as [_ ->].
      rewrite list_lookup_alter_ne, Hst by lia. eexists. split; [reflexivity|]. auto.
    + rewrite Hst. eexists. split; [reflexivity|]. auto.
  - intros i Hi1 Hi2. rewrite slidesEntered_lookup_ne by assumption.
    unfold slidesExited. destruct (nodeAt _ k) as [el|] eqn:Hn; [|reflexivity].
    apply nodeAt_Some in Hn as [_ ->]. apply list_lookup_alter_ne. lia.
Qed.

Lemma old_slide_stays_exiting_witness :
  exists s, slides (document (run (transitionTrace 2 (demoWorld 3 None)) (demoWorld 3 None)))
              !! Z.to_nat (currentSlide (this (demoWorld 3 None))) = Some s /\
            exit s = true /\ active s = false.
Proof.
  apply (old_slide_stays_exiting (demoWorld 3 None) 2);
    [apply demoWorld_loaded | vm_compute; reflexivity
    | vm_compute; split; [discriminate | reflexivity]
    | vm_compute; discriminate].
Defined.

Lemma key_right_idle w :
  isAnimating (this w) = false -> currentSlide (this w) < totalSlides (this w) - 1 ->
  step (KeyDown "ArrowRight") w = goToSlide (currentSlide (this w) + 1) w.
Proof.
  intros Ha Hlt. cbn [step]. unfold handleKeyboard. rewrite Ha. simpl.
  unfold nextSlide. destruct (Z.ltb_spec (currentSlide (this w)) (totalSlides (this w) - 1));
    [reflexivity | lia].
Qed.

Lemma key_left_idle w :
  isAnimating (this w) = false -> 0 < currentSlide (this w) ->
  step (KeyDown "ArrowLeft") w = goToSlide (currentSlide (this w) - 1) w.
Proof.
  intros Ha Hlt. cbn [step]. unfold handleKeyboard. rewrite Ha. simpl.
  unfold previousSlide. destruct (Z.gtb_spec (currentSlide (this w)) 0);
    [reflexivity | lia].
Qed.

Lemma settled_nextTimer target w :
  nextTimer (window (settled target w)) = Pos.succ (nextTimer (window w)).
Proof.
  unfold settled. simpl.
  destruct (savedWindow_scheduler target (window w)) as (_ & _ & -> & _). reflexivity.
Qed.

(** X8.  Forward and back is a round trip: from idle on a slide that is
    not the last, the right-arrow key and then, once that transition has
    settled, the left-arrow key bring the controller back to the state it
    had, with the same single slide active and the same button states;
    only the slide visited in between remembers it, by its ['exit'] mark. *)
Theorem next_then_previous_returns w :
  loaded w -> isAnimating (this w) = false ->
  currentSlide (this w) < totalSlides (this w) - 1 ->
  let w' := run (nextThenPrevious w) w in
  this w' = this w /\
  activeSlides w' = [Z.to_nat (currentSlide (this w))] /\
  prevButton (document w') = prevButton (document w) /\
  nextButton (document w') = nextButton (document w) /\
  (exists s, slides (document w') !! Z.to_nat (currentSlide (this w) + 1) = Some s /\
             exit s = true /\ active s = false).
Proof.
  intros Hl Ha Hlt. destruct (loaded_idle w Hl Ha) as [Hinv Hp].
  destruct (inv_index w Hinv) as (Htot & H0 & _).
  set (k := currentSlide (this w)) in *.
  assert (Hr1 : 0 <= k + 1 < totalSlides (this w)) by lia.
  pose proof (transition_settles w (k + 1) Hinv Hp Hr1) as Hfirst.
  pose proof (run_inv (transitionTrace (k + 1) w) w Hinv) as Hinv1.
  rewrite Hfirst in Hinv1.
  destruct (settled_idle w (k + 1) Hinv Hp Hr1) as [Hp1 _].
  set (w1 := settled (k + 1) w) in *.
  assert (Hr2 : 0 <= k < totalSlides (this w1)) by (subst w1; simpl; lia).
  pose proof (transition_settles w1 k Hinv1 Hp1 Hr2) as Hsecond.
  destruct (settled_idle w1 k Hinv1 Hp1 Hr2) as [Hp2 Hlen2].
  assert (Hrun : run (nextThenPrevious w) w = settled k w1).
  { change (nextThenPrevious w)
      with ([KeyDown "ArrowRight"; AnimationFrame; AnimationFrame; Elapse 600;
             Timeout (nextTimer (window w))] ++
            [KeyDown "ArrowLeft"; AnimationFrame; AnimationFrame; Elapse 600;
             Timeout (Pos.succ (nextTimer (window w)))]).
    rewrite run_app.
    change (run (KeyDown "ArrowRight" :: ?l) w) with (run l (step (KeyDown "ArrowRight") w)).
    rewrite (key_right_idle w Ha Hlt). fold k.
    change (run [AnimationFrame; AnimationFrame; Elapse 600; Timeout (nextTimer (window w))]
              (goToSlide (k + 1) w))
      with (run (transitionTrace (k + 1) w) w).
    rewrite Hfirst. fold w1.
    change (run (KeyDown "ArrowLeft" :: ?l) w1) with (run l (step (KeyDown "ArrowLeft") w1)).
    rewrite (key_left_idle w1) by (subst w1; simpl; first [reflexivity | lia]).
    replace (currentSlide (this w1) - 1) with k by (subst w1; simpl; lia).
    rewrite <- (settled_nextTimer (k + 1) w). fold w1.
    exact Hsecond. }
  cbv zeta. rewrite Hrun.
  destruct Hp as (_ & _ & _ & Hm & [Hb1 Hb2] & _).
  destruct Hp2 as (_ & _ & _ & Hm2 & _).
  split; [|split; [|split; [|split]]].
  - subst w1. unfold settled. simpl. destruct (this w). simpl in *. subst. reflexivity.
  - apply marksAt_activeFrom; assumption.
  - subst w1. unfold settled. simpl. rewrite option_fmap_const2.
    apply option_fmap_const_same. assumption.
  - subst w1. unfold settled. simpl. rewrite option_fmap_const2.
    apply option_fmap_const_same. assumption.
  - subst w1. unfold settled. simpl.
    assert (Hk1 : (Z.to_nat (k + 1) < length (slides (document w)))%nat) by lia.
    apply lookup_lt_is_Some_2 in Hk1 as [s1 Hs1].
    rewrite slidesEntered_lookup_ne by lia.
    rewrite slidesExited_lookup by lia.
    rewrite slidesEntered_lookup by lia.
    rewrite slidesExited_lookup_ne by (unfold k; lia).
    rewrite Hs1. eexists. split; [reflexivity|]. auto.
Qed.

Lemma next_then_previous_returns_witness :
  this (run (nextThenPrevious (demoWorld 3 None)) (demoWorld 3 None)) =
  this (demoWorld 3 None).
Proof.
  apply (next_then_previous_returns (demoWorld 3 None));
    [apply demoWorld_loaded | vm_compute; reflexivity | vm_compute; reflexivity].
Defined.

(** ** What is shown and what is stored *)



(** X10.  What [saveProgress] writes when the page is hidden or unloaded
    reads back: with a storage that accepts the write, the stored string
    parses to the current index, and [loadProgress], started from index 0
    over that storage, restores the index. *)
Theorem saved_progress_reads_back w e :
  loaded w -> e = BeforeUnload \/ e = VisibilityChange true ->
  getItemThrows (localStorage (window w)) = false ->
  setItemThrows (localStorage (window w)) = false ->
  exists saved,
    items (localStorage (window (step e w))) !! storageKey = Some saved /\
    JS.parseInt saved = Some (currentSlide (this w)) /\
    currentSlide (this (loadProgress (upd_this (set_currentSlide 0) (step e w)))) =
      currentSlide (this w).
Proof.
  intros Hl He Hget Hset. pose proof (loaded_inv w Hl) as Hinv.
  destruct (inv_index w Hinv) as (_ & H0 & Hlt).
  assert (Hstep : step e w = saveProgress w) by (destruct He as [-> | ->]; reflexivity).
  rewrite Hstep, saveProgress_eq. exists (JS.toString (currentSlide (this w))).
  assert (Hitem : items (localStorage (window (upd_window (savedWindow (currentSlide (this w))) w)))
                    !! storageKey = Some (JS.toString (currentSlide (this w)))).
  { unfold savedWindow. simpl. rewrite Hset. simpl. apply lookup_insert_eq. }
  assert (Hget' : getItemThrows
                    (localStorage (window (upd_window (savedWindow (currentSlide (this w))) w)))
                  = false).
  { unfold savedWindow. simpl. rewrite Hset. simpl. assumption. }
  split; [assumption|]. split; [apply JSFacts.parseInt_toString; lia|].
  rewrite loadProgress_currentSlide.
  change (localStorage (window (upd_this (set_currentSlide 0) ?v)))
    with (localStorage (window v)).
  rewrite Hget', Hitem, JSFacts.parseInt_toString by lia. simpl.
  destruct (Z.leb_spec 0 (currentSlide (this w))),
    (Z.ltb_spec (currentSlide (this w)) (totalSlides (this w))); simpl; lia.
Qed.

Lemma saved_progress_reads_back_witness :
  exists saved,
    items (localStorage (window (step BeforeUnload midTransition))) !! storageKey
      = Some saved /\
    JS.parseInt saved = Some (currentSlide (this midTransition)) /\
    currentSlide
      (this (loadProgress (upd_this (set_currentSlide 0) (step BeforeUnload midTransition))))
      = currentSlide (this midTransition).
Proof.
  apply (saved_progress_reads_back midTransition BeforeUnload);
    [apply midTransition_loaded | left; reflexivity
    | vm_compute; reflexivity | vm_compute; reflexivity].
Defined.

(** ** Relations every event respects *)

Section StepRelation.

Context {A : Type} (view : World -> A) (R : A -> A -> Prop).

Hypothesis R_refl : forall a, R a a.
Hypothesis R_trans : forall a b c, R a b -> R b c -> R a c.
Hypothesis view_window : forall f w, view (upd_window f w) = view w.
Hypothesis view_touch : forall x y t w, view (upd_this (set_touchStart x y t) w) = view w.
Hypothesis view_handle : forall v w, view (upd_this (set_resizeTimeout v) w) = view w.
Hypothesis view_goToSlide : forall i w, R (view w) (view (goToSlide i w)).
Hypothesis view_callback : forall cb w, R (view w) (view (runCallback cb w)).
Hypothesis view_observed : forall ids w, R (view w) (view (observedResize ids w)).

Lemma related_nextSlide w : R (view w) (view (nextSlide w)).
Proof. unfold nextSlide. destruct (_ <? _); auto. Qed.

Lemma related_previousSlide w : R (view w) (view (previousSlide w)).
Proof. unfold previousSlide. destruct (_ >? _); auto. Qed.

Lemma related_callbacks q : forall w,
  R (view w) (view (fold_left (fun w cb => runCallback cb w) q w)).
Proof.
  induction q as [|cb q IH]; intros w; simpl; [apply R_refl|].
  eapply R_trans; [apply view_callback | apply IH].
Qed.

Lemma related_step e w : R (view w) (view (step e w)).
Proof.
  destruct e; cbn [step].
  - destruct (prevButton _); [apply related_previousSlide | apply R_refl].
  - destruct (nextButton _); [apply related_nextSlide | apply R_refl].
  - unfold handleKeyboard.
    repeat (match goal with |- context [if ?b then _ else _] => destruct b end);
      simpl; auto using related_nextSlide, related_previousSlide.
  - unfold handleTouchStart. rewrite view_touch. apply R_refl.
  - unfold handleTouchEnd.
    repeat (match goal with |- context [if ?b then _ else _] => destruct b end);
      simpl; auto using related_nextSlide, related_previousSlide.
  - rewrite handleResize_eq.
    match goal with
    | |- R _ (view {| this := set_resizeTimeout ?v _; document := _; window := ?e |}) =>
        change (R (view w)
                  (view (upd_this (set_resizeTimeout v) (upd_window (fun _ => e) w))))
    end.
    rewrite view_handle, view_window. apply R_refl.
  - apply view_observed.
  - unfold animationFrame.
    rewrite <- (view_window (set_frameCallbacks []) w) at 1.
    apply related_callbacks.
  - rewrite view_window. apply R_refl.
  - unfold fireTimer. destruct (List.find _ _) as [t|]; [|apply R_refl].
    destruct (_ <=? _); [|apply R_refl].
    unfold clearTimeout.
    rewrite <- (view_window
                  (fun e => set_timers (filter (fun t0 => timerId t0 ≠ id) (timers e))
                              (nextTimer e) e) w) at 1.
    apply view_callback.
  - destruct hidden; [|apply R_refl].
    rewrite saveProgress_eq, view_window. apply R_refl.
  - rewrite saveProgress_eq, view_window. apply R_refl.
  - apply view_goToSlide.
Qed.

Lemma related_run trace : forall w, R (view w) (view (run trace w)).
Proof.
  induction trace as [|e trace IH]; intros w; simpl; [apply R_refl|].
  eapply R_trans; [apply related_step | apply IH].
Qed.

End StepRelation.

Lemma goToSlide_cases i w :
  goToSlide i w = w \/
  goToSlide i w =
  {| this := set_currentSlide i (set_isAnimating true (this w));
     document :=
       set_slides (slidesExited (currentSlide (this w)) (slides (document w)))
         (set_nextButton ((fun _ => Button true true) <$> nextButton (document w))
            (set_prevButton ((fun _ => Button true true) <$> prevButton (document w))
               (document w)));
     window := set_frameCallbacks (frameCallbacks (window w) ++ [GoToSlideFrame1]) (window w) |}.
Proof.
  destruct (isAnimating (this w)) eqn:Ha; [left; apply goToSlide_rejected; auto|].
  destruct (Z.ltb_spec i 0); [left; apply goToSlide_rejected; auto|].
  destruct (Z.leb_spec (totalSlides (this w)) i); [left; apply goToSlide_rejected; auto|].
  right. apply goToSlide_accepted; [assumption | lia].
Qed.

(** *** The chart registry *)

Lemma chartsGrow_refl m : chartsGrow m m.
Proof. intros k. destruct (m !! k); [lia | exact I]. Qed.

Lemma chartsGrow_trans m1 m2 m3 :
  chartsGrow m1 m2 -> chartsGrow m2 m3 -> chartsGrow m1 m3.
Proof.
  intros H12 H23 k. specialize (H12 k). specialize (H23 k).
  destruct (m1 !! k), (m2 !! k), (m3 !! k); try contradiction; try exact I. lia.
Qed.

Lemma chartsGrow_resized m : chartsGrow m (S <$> m).
Proof. intros k. rewrite lookup_fmap. destruct (m !! k); simpl; [lia | exact I]. Qed.

Lemma chartsGrow_altered k m : chartsGrow m (alter S k m).
Proof.
  intros j. destruct (decide (k = j)) as [<- | Hne].
  - rewrite lookup_alter_eq. destruct (m !! k); simpl; [lia | exact I].
  - rewrite lookup_alter_ne by assumption. destruct (m !! j); [lia | exact I].
Qed.

Lemma chartsGrow_observed ids : forall m,
  chartsGrow m (fold_left (fun m id => alter S id m) ids m).
Proof.
  induction ids as [|id ids IH]; intros m; simpl; [apply chartsGrow_refl|].
  eapply chartsGrow_trans; [apply chartsGrow_altered | apply IH].
Qed.

(** No event removes a chart from the registry or adds one. *)
Lemma run_chartsGrow trace w : chartsGrow (charts (this w)) (charts (this (run trace w))).
Proof.
  apply (related_run (fun w => charts (this w)) chartsGrow
           chartsGrow_refl chartsGrow_trans); try reflexivity.
  - intros i v. destruct (goToSlide_cases i v) as [-> | ->]; apply chartsGrow_refl.
  - intros cb v. destruct cb; cbn [runCallback]; unfold goToSlide_frame1, requestAnimationFrame.
    + apply chartsGrow_refl.
    + rewrite goToSlide_frame2_eq. apply chartsGrow_refl.
    + rewrite goToSlide_settle_eq. apply chartsGrow_refl.
    + rewrite handleResize_settled_charts. apply chartsGrow_resized.
  - intros ids v. apply chartsGrow_observed.
Qed.

(** X11.  After construction the chart registry never gains or loses an
    entry, and the number of [resize()] calls a chart has received never
    goes down: whatever events arrive, a chart is registered afterwards
    exactly if it was before. *)
Theorem chart_registry_is_fixed trace w :
  (forall k, charts (this (run trace w)) !! k = None <-> charts (this w) !! k = None) /\
  (forall k n n', charts (this w) !! k = Some n ->
                  charts (this (run trace w)) !! k = Some n' -> (n <= n')%nat).
Proof.
  pose proof (run_chartsGrow trace w) as H.
  split.
  - intros k. specialize (H k).
    destruct (charts (this w) !! k), (charts (this (run trace w)) !! k);
      try contradiction; split; congruence.
  - intros k n n' Hn Hn'. specialize (H k). rewrite Hn, Hn' in H. assumption.
Qed.

(** *** Inline slide styles *)

Lemma stylesKept_refl l : stylesKept l l.
Proof. split; [reflexivity|]. intros i s s' Hs Hs'. left. congruence. Qed.

Lemma stylesKept_trans l1 l2 l3 :
  stylesKept l1 l2 -> stylesKept l2 l3 -> stylesKept l1 l3.
Proof.
  intros [Hl12 H12] [Hl23 H23]. split; [congruence|].
  intros i s1 s3 Hs1 Hs3.
  assert (Hs2 : is_Some (l2 !! i)).
  { apply lookup_lt_is_Some. rewrite Hl12. apply (lookup_lt_Some _ _ _ Hs1). }
  destruct Hs2 as [s2 Hs2].
  destruct (H12 i s1 s2 Hs1 Hs2) as [H | H], (H23 i s2 s3 Hs2 Hs3) as [H' | H'];
    unfold styleKept; rewrite ?H', ?H; auto.
Qed.

Lemma stylesKept_alter (f : slide -> slide) i l :
  (forall s, transition (f s) = transition s) -> stylesKept l (alter f i l).
Proof.
  intros Hf. split; [apply length_alter|].
  intros j s s' Hs. destruct (decide (i = j)) as [<- | Hne].
  - rewrite list_lookup_alter_eq, Hs. simpl. intros [= <-]. left. apply Hf.
  - rewrite list_lookup_alter_ne, Hs by assumption. intros [= <-]. left. reflexivity.
Qed.

Lemma stylesKept_exited k l : stylesKept l (slidesExited k l).
Proof.
  unfold slidesExited. destruct (nodeAt l k); [|apply stylesKept_refl].
  apply stylesKept_alter. reflexivity.
Qed.

Lemma stylesKept_entered k l : stylesKept l (slidesEntered k l).
Proof.
  unfold slidesEntered. destruct (nodeAt l k); [|apply stylesKept_refl].
  apply stylesKept_alter. reflexivity.
Qed.

Lemma handleResize_settled_slides w :
  slides (document (handleResize_settled w)) =
  if innerWidth (window w) <=? 768
  then List.map (set_transition mobileTransition) (slides (document w))
  else slides (document w).
Proof.
  unfold handleResize_settled, optimizeForMobile. simpl.
  destruct (innerWidth (window w) <=? 768); reflexivity.
Qed.

Lemma stylesKept_mobile l : stylesKept l (List.map (set_transition mobileTransition) l).
Proof.
  split; [apply length_map|].
  intros i s s' Hs. change (List.map ?f l) with (f <$> l).
  rewrite list_lookup_fmap, Hs. simpl. intros [= <-]. right. reflexivity.
Qed.

(** X12.  The only inline transition the controller ever writes on a slide
    is the mobile one: whatever events arrive, every slide keeps the
    inline transition it had or carries ['opacity 0.3s ease'].  The
    debounced resize callback writes it on every slide when the window is
    at most 768 wide and leaves the slides alone otherwise, so a deck that
    has been styled for mobile stays so even after the window grows. *)
Theorem mobile_style_is_never_undone trace w :
  stylesKept (slides (document w)) (slides (document (run trace w))) /\
  ((forall s, s ∈ slides (document w) -> transition s = Some mobileTransition) ->
   forall s, s ∈ slides (document (run trace w)) -> transition s = Some mobileTransition) /\
  slides (document (handleResize_settled w)) =
    (if innerWidth (window w) <=? 768
     then List.map (set_transition mobileTransition) (slides (document w))
     else slides (document w)).
Proof.
  assert (H : stylesKept (slides (document w)) (slides (document (run trace w)))).
  { apply (related_run (fun w => slides (document w)) stylesKept
             stylesKept_refl stylesKept_trans); try reflexivity.
    - intros i v. destruct (goToSlide_cases i v) as [-> | ->];
        [apply stylesKept_refl | apply stylesKept_exited].
    - intros cb v. destruct cb; cbn [runCallback]; unfold goToSlide_frame1, requestAnimationFrame.
      + apply stylesKept_refl.
      + rewrite goToSlide_frame2_eq. apply stylesKept_entered.
      + rewrite goToSlide_settle_eq. apply stylesKept_refl.
      + rewrite handleResize_settled_slides.
        destruct (_ <=? _); [apply stylesKept_mobile | apply stylesKept_refl].
    - intros ids v. apply stylesKept_refl. }
  split; [exact H|]. split; [|apply handleResize_settled_slides].
  intros Hall s' [i Hs']%list_elem_of_lookup. destruct H as [Hlen H].
  assert (Hs : is_Some (slides (document w) !! i)).
  { apply lookup_lt_is_Some. rewrite <- Hlen. apply (lookup_lt_Some _ _ _ Hs'). }
  destruct Hs as [s Hs].
  destruct (H i s s' Hs Hs') as [Heq | Heq]; [|assumption].
  rewrite Heq. apply Hall. apply list_elem_of_lookup. eauto.
Qed.

Lemma mobile_style_is_never_undone_witness :
  Forall (fun s => transition s = Some mobileTransition)
    (slides (document
               (run [WindowResize 1280; Elapse 250; Timeout 2]
                    (run [WindowResize 600; Elapse 250; Timeout 1] (demoWorld 3 None))))).
Proof.
  apply Forall_forall.
  apply (proj1 (proj2 (mobile_style_is_never_undone
                         [WindowResize 1280; Elapse 250; Timeout 2]
                         (run [WindowResize 600; Elapse 250; Timeout 1] (demoWorld 3 None))))).
  intros s Hs. vm_compute in Hs.
  repeat (apply elem_of_cons in Hs as [-> | Hs]; [reflexivity|]).
  inversion Hs.
Defined.

(** *** Device class *)





(** ** Chart construction *)

Lemma createCharts_none ids : forall w,
  chartJs (window w) = None -> createCharts ids w = (w, false).
Proof.
  induction ids as [|id ids IH]; intros w Hlib; simpl; [reflexivity|].
  rewrite Hlib. apply IH. assumption.
Qed.

Lemma createCharts_ext ids : forall w w',
  chartJs (window w) = chartJs (window w') ->
  canvases (document w) = canvases (document w') ->
  charts (this w) = charts (this w') ->
  charts (this (fst (createCharts ids w))) = charts (this (fst (createCharts ids w'))) /\
  snd (createCharts ids w) = snd (createCharts ids w').
Proof.
  induction ids as [|id ids IH]; intros w w' Hlib Hcv Hch; simpl; [auto|].
  rewrite <- Hlib, <- Hcv.
  destruct (chartJs (window w)) as [throwing|] eqn:Hw; [|apply IH; congruence].
  destruct (bool_decide (id ∈ canvases (document w))); [|apply IH; congruence].
  destruct (bool_decide (id ∈ throwing)); [auto|].
  apply IH; simpl; congruence.
Qed.

(** Without a throwing constructor every canvas found gets its chart. *)
Lemma createCharts_clean ids : forall w throwing,
  chartJs (window w) = Some throwing ->
  (forall id, id ∈ ids -> id ∈ canvases (document w) -> id ∉ throwing) ->
  snd (createCharts ids w) = false /\
  forall k,
    charts (this (fst (createCharts ids w))) !! k =
    if bool_decide (k ∈ ids /\ k ∈ canvases (document w)) then Some 0%nat
    else charts (this w) !! k.
Proof.
  induction ids as [|id ids IH]; intros w throwing Hlib Hclean;
    cbn [createCharts fst snd].
  - split; [reflexivity|]. intros k.
    rewrite bool_decide_eq_false_2; [reflexivity|].
    intros [Hin _]. inversion Hin.
  - rewrite Hlib.
    assert (Hrest : forall id', id' ∈ ids -> id' ∈ canvases (document w) -> id' ∉ throwing)
      by (intros id' Hin; apply Hclean; right; assumption).
    destruct (bool_decide_reflect (id ∈ canvases (document w))) as [Hcv | Hcv].
    + rewrite bool_decide_eq_false_2 by (apply Hclean; [left | assumption]).
      destruct (IH (upd_this (fun c => set_charts (<[id:=0%nat]> (charts c)) c) w)
                  throwing Hlib Hrest) as [Hsnd Hlook].
      split; [assumption|]. intros k. rewrite Hlook.
      cbn [upd_this this document window charts set_charts].
      destruct (bool_decide_reflect (k ∈ ids /\ k ∈ canvases (document w))) as [Hk | Hk].
      * rewrite bool_decide_eq_true_2; [reflexivity|]. split; [right|]; tauto.
      * destruct (decide (id = k)) as [<- | Hne].
        -- rewrite lookup_insert_eq, bool_decide_eq_true_2; [reflexivity|].
           split; [left | assumption].
        -- rewrite lookup_insert_ne by assumption.
           rewrite bool_decide_eq_false_2; [reflexivity|].
           intros [[-> | Hin]%elem_of_cons Hcvk]; [congruence | tauto].
    + destruct (IH w throwing Hlib Hrest) as [Hsnd Hlook].
      split; [assumption|]. intros k. rewrite Hlook.
      apply (f_equal (fun b : bool => if b then Some 0%nat else charts (this w) !! k)).
      apply bool_decide_ext. split.
      * intros [Hin Hk]. split; [right|]; assumption.
      * intros [[-> | Hin]%elem_of_cons Hk]; [contradiction | auto].
Qed.

(** The first throwing constructor abandons everything after it. *)
Lemma createCharts_throw pre bad post : forall w throwing,
  chartJs (window w) = Some throwing ->
  bad ∈ canvases (document w) -> bad ∈ throwing ->
  (forall id, id ∈ pre -> id ∈ canvases (document w) -> id ∉ throwing) ->
  createCharts (pre ++ bad :: post) w = (fst (createCharts pre w), true).
Proof.
  induction pre as [|id pre IH]; intros w throwing Hlib Hcv Hthrow Hclean;
    cbn [app createCharts fst].
  - rewrite Hlib, !bool_decide_eq_true_2 by assumption. reflexivity.
  - rewrite Hlib.
    assert (Hrest : forall id', id' ∈ pre -> id' ∈ canvases (document w) -> id' ∉ throwing)
      by (intros id' Hin; apply Hclean; right; assumption).
    destruct (bool_decide_reflect (id ∈ canvases (document w))) as [Hcvi | Hcvi].
    + rewrite bool_decide_eq_false_2 by (apply Hclean; [left | assumption]).
      apply (IH _ throwing); assumption.
    + apply (IH _ throwing); assumption.
Qed.

Lemma loadProgress_window w :
  window (loadProgress w) =
  if getItemThrows (localStorage (window w))
  then set_console (console (window w) ++ [CouldNotLoad]) (window w)
  else window w.
Proof.
  unfold loadProgress. destruct (getItemThrows _); [reflexivity|].
  destruct (items _ !! storageKey) as [saved|]; [|reflexivity].
  destruct (JS.parseInt saved) as [v|]; [|reflexivity].
  destruct (_ && _); reflexivity.
Qed.

Lemma loadProgress_charts w : charts (this (loadProgress w)) = charts (this w).
Proof. destruct (loadProgress_frame w) as (k & c & ->). reflexivity. Qed.

Lemma createCharts_window ids : forall w,
  window (fst (createCharts ids w)) = window w.
Proof.
  intros w. destruct (createCharts_frame ids w) as [ch ->]. reflexivity.
Qed.

Lemma initCharts_charts w :
  charts (this (initCharts w)) = charts (this (fst (createCharts chartIds w))).
Proof.
  unfold initCharts. destruct (createCharts chartIds w) as [w2 thrown].
  destruct thrown; reflexivity.
Qed.

Lemma initCharts_window w :
  window (initCharts w) =
  if snd (createCharts chartIds w)
  then set_console (console (window w) ++ [ChartInitFailed]) (window w)
  else window w.
Proof.
  unfold initCharts. pose proof (createCharts_window chartIds w) as Hwin.
  destruct (createCharts chartIds w) as [w2 thrown]. cbn [fst snd] in *.
  destruct thrown; unfold console_warn, upd_window; cbn [window]; rewrite Hwin;
    reflexivity.
Qed.

Lemma showSlide_charts index w : charts (this (showSlide index w)) = charts (this w).
Proof. rewrite showSlide_eq. reflexivity. Qed.

Lemma showSlide_window index w : window (showSlide index w) = window w.
Proof. rewrite showSlide_eq. reflexivity. Qed.

Lemma init_prelude w :
  let w1 := updateButtonStates false (updateProgress (updateSlideCounter w)) in
  this w1 = this w /\ window w1 = window w /\
  canvases (document w1) = canvases (document w).
Proof.
  cbv zeta. rewrite updateButtonStates_eq, updateProgress_eq, updateSlideCounter_eq.
  repeat split.
Qed.

(** What [init] leaves in the registry and on the console. *)
Lemma init_charts_console w :
  charts (this (init w)) = charts (this (fst (createCharts chartIds w))) /\
  console (window (init w)) =
    console (window w) ++
    (if snd (createCharts chartIds w) then [ChartInitFailed] else []) ++
    (if getItemThrows (localStorage (window w)) then [CouldNotLoad] else []).
Proof.
  unfold init. cbv zeta.
  rewrite showSlide_charts, showSlide_window, loadProgress_charts, loadProgress_window,
    initCharts_charts, initCharts_window.
  destruct (init_prelude w) as (Hthis & Hwin & Hcv). cbv zeta in Hthis, Hwin, Hcv.
  set (w1 := updateButtonStates false (updateProgress (updateSlideCounter w))) in *.
  destruct (createCharts_ext chartIds w1 w) as [Hfst Hsnd]; [congruence..|].
  rewrite Hfst, Hsnd, Hwin. split; [reflexivity|].
  destruct (snd (createCharts chartIds w)); cbn [localStorage set_console console];
    destruct (getItemThrows (localStorage (window w))); cbn [console set_console];
    rewrite ?app_nil_r, <- ?app_assoc; reflexivity.
Qed.

(** X14.  When the chart library is present and no constructor throws, the
    registry holds exactly the charts, among the ten the source names,
    whose canvas is in the document, each with no [resize()] call so far,
    and no chart warning is logged. *)
Theorem charts_registered_for_present_canvases d e throwing :
  chartJs e = Some throwing ->
  (forall id, id ∈ chartIds -> id ∈ canvases d -> id ∉ throwing) ->
  (forall k, charts (this (domContentLoaded d e)) !! k =
             if bool_decide (k ∈ chartIds /\ k ∈ canvases d) then Some 0%nat else None) /\
  console (window (domContentLoaded d e)) =
    console e ++ (if getItemThrows (localStorage e) then [CouldNotLoad] else []).
Proof.
  intros Hlib Hclean. unfold domContentLoaded, construct. rewrite Hlib.
  match goal with |- context [init ?x] => set (w0 := x) end.
  destruct (init_charts_console w0) as [-> ->].
  destruct (createCharts_clean chartIds w0 throwing Hlib Hclean) as [-> Hlook].
  split; [|reflexivity]. intros k. rewrite Hlook. reflexivity.
Qed.

Lemma charts_registered_for_present_canvases_witness :
  charts (this (domContentLoaded (demoDocument 3) (throwingWindow ["techRadarChart"])))
    !! "successChart" = Some 0%nat /\
  charts (this (domContentLoaded (demoDocument 3) (throwingWindow ["techRadarChart"])))
    !! "techRadarChart" = None.
Proof.
  destruct (charts_registered_for_present_canvases
              (demoDocument 3) (throwingWindow ["techRadarChart"]) ["techRadarChart"])
    as [H _]; [reflexivity | |].
  - intros id _ Hcv Hthrow. apply list_elem_of_singleton in Hthrow. subst id.
    revert Hcv. apply (bool_decide_eq_false_1 _). vm_compute. reflexivity.
  - split; [rewrite (H "successChart") | rewrite (H "techRadarChart")];
      vm_compute; reflexivity.
Defined.

(** X15.  One chart constructor that throws takes the later charts down
    with it: the charts before it in source order are registered, neither
    it nor any chart after it is, even where the canvas exists, and one
    [ChartInitFailed] warning is logged. *)
Theorem chart_failure_abandons_later_charts d e throwing pre bad post :
  chartJs e = Some throwing ->
  chartIds = pre ++ bad :: post ->
  bad ∈ canvases d -> bad ∈ throwing ->
  (forall id, id ∈ pre -> id ∈ canvases d -> id ∉ throwing) ->
  (forall k, charts (this (domContentLoaded d e)) !! k =
             if bool_decide (k ∈ pre /\ k ∈ canvases d) then Some 0%nat else None) /\
  (forall k, k ∈ bad :: post -> charts (this (domContentLoaded d e)) !! k = None) /\
  console (window (domContentLoaded d e)) =
    console e ++ [ChartInitFailed] ++
    (if getItemThrows (localStorage e) then [CouldNotLoad] else []).
Proof.
  intros Hlib Hids Hcv Hthrow Hclean.
  assert (Hlook : forall k, charts (this (domContentLoaded d e)) !! k =
             if bool_decide (k ∈ pre /\ k ∈ canvases d) then Some 0%nat else None).
  { unfold domContentLoaded, construct. rewrite Hlib.
    match goal with |- context [init ?x] => set (w0 := x) end.
    destruct (init_charts_console w0) as [-> _].
    rewrite Hids, (createCharts_throw pre bad post w0 throwing Hlib Hcv Hthrow Hclean).
    intros k. destruct (createCharts_clean pre w0 throwing Hlib Hclean) as [_ ->].
    reflexivity. }
  split; [exact Hlook|]. split.
  - intros k Hk. rewrite Hlook. rewrite bool_decide_eq_false_2; [reflexivity|].
    intros [Hpre _].
    assert (Hnd : NoDup chartIds)
      by (apply (bool_decide_eq_true_1 (NoDup chartIds)); vm_compute; reflexivity).
    rewrite Hids in Hnd. apply NoDup_app in Hnd as (_ & Hdisj & _).
    apply (Hdisj k Hpre Hk).
  - unfold domContentLoaded, construct. rewrite Hlib.
    match goal with |- context [init ?x] => set (w0 := x) end.
    destruct (init_charts_console w0) as [_ ->].
    rewrite Hids, (createCharts_throw pre bad post w0 throwing Hlib Hcv Hthrow Hclean).
    reflexivity.
Qed.

Lemma chart_failure_abandons_later_charts_witness :
  let w := domContentLoaded (demoDocument 3) (throwingWindow ["successChart"]) in
  charts (this w) !! "skillsChart" = Some 0%nat /\
  charts (this w) !! "successChart" = None /\
  console (window w) = [ChartInitFailed].
Proof.
  destruct (chart_failure_abandons_later_charts
              (demoDocument 3) (throwingWindow ["successChart"]) ["successChart"]
              [ "skillsChart"; "qualificationsChart"; "approachChart"; "methodologyChart";
                "serviceChart"; "satisfactionChart"; "responseTimeChart"; "skillsChart2" ]
              "successChart" ["techRadarChart"])
    as (Hpre & Hpost & Hlog).
  - reflexivity.
  - reflexivity.
  - apply (bool_decide_eq_true_1 _). vm_compute. reflexivity.
  - apply (bool_decide_eq_true_1 _). vm_compute. reflexivity.
  - intros id Hpre _ Hthrow. apply list_elem_of_singleton in Hthrow. subst id.
    revert Hpre. apply (bool_decide_eq_false_1 _). vm_compute. reflexivity.
  - cbv zeta. split; [|split].
    + rewrite (Hpre "skillsChart"). vm_compute. reflexivity.
    + apply Hpost. left.
    + exact Hlog.
Defined.

(** X16.  When the chart library did not load, the page logs one warning
    and still builds the controller; no chart is ever registered, whatever
    events follow, so the resize handlers have nothing to redraw. *)
Theorem no_library_no_charts d e trace :
  chartJs e = None ->
  console (window (domContentLoaded d e)) =
    console e ++ [ChartJsNotLoaded] ++
    (if getItemThrows (localStorage e) then [CouldNotLoad] else []) /\
  charts (this (run trace (domContentLoaded d e))) = ∅.
Proof.
  intros Hlib. unfold domContentLoaded, construct. rewrite Hlib.
  match goal with |- context [init ?x] => set (w0 := x) end.
  assert (Hnone : createCharts chartIds w0 = (w0, false))
    by (apply createCharts_none; exact Hlib).
  destruct (init_charts_console w0) as [Hch Hlog]. rewrite Hnone in Hch, Hlog.
  split.
  - rewrite Hlog. cbn [snd app]. subst w0. cbn [window console set_console localStorage].
    rewrite <- app_assoc. reflexivity.
  - apply map_eq. intros k. rewrite lookup_empty.
    pose proof (run_chartsGrow trace (init w0) k) as Hgrow.
    rewrite Hch in Hgrow. cbn [fst] in Hgrow. subst w0. cbn [this charts] in Hgrow.
    rewrite lookup_empty in Hgrow.
    destruct (charts (this (run trace (init _))) !! k); [contradiction | reflexivity].
Qed.

Lemma no_library_no_charts_witness :
  charts (this (run [WindowResize 600; Elapse 250; Timeout 1]
                  (domContentLoaded (demoDocument 3) chartlessWindow))) = ∅.
Proof.
  apply (no_library_no_charts (demoDocument 3) chartlessWindow
           [WindowResize 600; Elapse 250; Timeout 1] eq_refl).
Defined.

(** * The page around the controller *)

(** ** The stat bars *)

Lemma animateBar_prefix ws (m : nat) : forall p,
  StatBars.bars p = ws -> (m <= length ws)%nat ->
  fold_left StatBars.animateBar (seq 0 m) p =
  {| StatBars.bars := StatBars.emptied m ++ drop m ws;
     StatBars.now := StatBars.now p;
     StatBars.timers :=
       StatBars.timers p ++ StatBars.restoring (StatBars.now p + 100) (take m ws) |}.
Proof.
  induction m as [|m IH]; intros p Hp Hm.
  - simpl. rewrite drop_0, app_nil_r. destruct p; simpl in *; congruence.
  - rewrite seq_S, fold_left_app, IH by (assumption || lia). simpl.
    destruct (lookup_lt_is_Some_2 ws m ltac:(lia)) as [w Hw].
    unfold StatBars.animateBar. cbn [StatBars.bars StatBars.now StatBars.timers].
    assert (Hlen : length (StatBars.emptied m) = m) by apply length_replicate.
    rewrite lookup_app_r by lia. rewrite Hlen, Nat.sub_diag, lookup_drop, Nat.add_0_r, Hw.
    f_equal.
    + rewrite insert_app_r_alt by lia. rewrite Hlen, Nat.sub_diag.
      rewrite (drop_S _ _ _ Hw). cbn [insert list_insert].
      unfold StatBars.emptied. rewrite cons_middle, app_assoc, <- replicate_S_end.
      reflexivity.
    + rewrite <- app_assoc. f_equal. unfold StatBars.restoring.
      rewrite (take_S_r _ _ _ Hw), imap_app. cbn [imap].
      rewrite length_take_le by lia. rewrite Nat.add_0_r. reflexivity.
Qed.

(** One call empties every bar and queues one timer per bar. *)
Lemma statBars_updateProgress_eq p :
  StatBars.updateProgress p =
  {| StatBars.bars := StatBars.emptied (length (StatBars.bars p));
     StatBars.now := StatBars.now p;
     StatBars.timers :=
       StatBars.timers p ++ StatBars.restoring (StatBars.now p + 100) (StatBars.bars p) |}.
Proof.
  unfold StatBars.updateProgress.
  rewrite (animateBar_prefix (StatBars.bars p)) by (reflexivity || lia).
  rewrite drop_all, app_nil_r, firstn_all. reflexivity.
Qed.

Lemma take_imap {A B} (f : nat -> A -> B) l : forall j,
  take j (imap f l) = imap f (take j l).
Proof.
  revert f. induction l as [|x l IH]; intros f j; destruct j; simpl; try reflexivity.
  rewrite IH. reflexivity.
Qed.

(** Timers for the bars from [k] on put their widths there. *)
Lemma restored_offset d ws : forall k bs,
  (k + length ws <= length bs)%nat ->
  StatBars.restored (imap (fun i w => StatBars.Timer d (k + i) w) ws) bs =
  take k bs ++ ws ++ drop (k + length ws) bs.
Proof.
  induction ws as [|w ws IH]; intros k bs Hlen; simpl in *.
  - rewrite Nat.add_0_r, take_drop. reflexivity.
  - rewrite Nat.add_0_r.
    rewrite (imap_ext _ (fun i w => StatBars.Timer d (S k + i) w))
      by (intros i x _; cbn; f_equal; lia).
    unfold StatBars.restored in *. rewrite IH by (rewrite length_insert; lia).
    cbn [StatBars.bar StatBars.width].
    destruct (lookup_lt_is_Some_2 bs k ltac:(lia)) as [b Hb].
    rewrite (take_S_r (<[k:=w]> bs) k w)
      by (rewrite list_lookup_insert_eq by lia; reflexivity).
    rewrite take_insert_ge by lia. rewrite drop_insert_lt by lia.
    rewrite <- app_assoc. simpl. repeat f_equal. lia.
Qed.

Lemma restored_restoring d ws j bs :
  length bs = length ws ->
  StatBars.restored (take j (StatBars.restoring d ws)) bs = take j ws ++ drop j bs.
Proof.
  intros Hlen. unfold StatBars.restoring. rewrite take_imap.
  pose proof (restored_offset d (take j ws) 0 bs) as H. cbn [Nat.add take app] in H.
  rewrite H by (rewrite length_take; lia). clear H.
  rewrite length_take. apply (f_equal (app (take j ws))).
  destruct (Nat.le_gt_cases j (length ws)).
  - rewrite Nat.min_l by lia. reflexivity.
  - rewrite Nat.min_r by lia. rewrite !drop_ge by lia. reflexivity.
Qed.

Lemma restored_app ts ts' bs :
  StatBars.restored (ts ++ ts') bs = StatBars.restored ts' (StatBars.restored ts bs).
Proof. apply fold_left_app. Qed.

Lemma statBars_elapsed_nonneg trace : 0 <= StatBars.elapsed trace.
Proof. induction trace as [|[] trace IH]; simpl; lia. Qed.

(** The clock and the timers alone run a prefix of the queue. *)
Lemma clock_runs_prefix trace : forall p,
  forallb StatBars.isClock trace = true ->
  exists k,
    StatBars.timers (StatBars.run trace p) = drop k (StatBars.timers p) /\
    StatBars.bars (StatBars.run trace p) =
      StatBars.restored (take k (StatBars.timers p)) (StatBars.bars p) /\
    StatBars.now (StatBars.run trace p) = StatBars.now p + StatBars.elapsed trace /\
    (forall t, t ∈ take k (StatBars.timers p) ->
               StatBars.due t <= StatBars.now p + StatBars.elapsed trace).
Proof.
  induction trace as [|e trace IH]; intros p Hclock.
  - exists 0%nat. simpl. rewrite Z.add_0_r. repeat split. intros t Ht. inversion Ht.
  - simpl in Hclock. apply andb_prop in Hclock as [He Hclock].
    pose proof (statBars_elapsed_nonneg trace) as Hpos.
    destruct e; [discriminate| |]; cbn [StatBars.run StatBars.step].
    + change (StatBars.elapsed (StatBars.Elapse ms :: trace))
        with (Z.of_N ms + StatBars.elapsed trace).
      destruct (IH {| StatBars.bars := StatBars.bars p;
                      StatBars.now := StatBars.now p + Z.of_N ms;
                      StatBars.timers := StatBars.timers p |} Hclock)
        as (k & Ht & Hb & Hn & Hd).
      exists k. cbn [StatBars.bars StatBars.now StatBars.timers] in *.
      split; [assumption|]. split; [assumption|]. split; [lia|].
      intros t Hin. specialize (Hd t Hin). lia.
    + change (StatBars.elapsed (StatBars.Fire :: trace)) with (StatBars.elapsed trace).
      unfold StatBars.fire. destruct (StatBars.timers p) as [|t ts] eqn:Hts.
      { destruct (IH p Hclock) as (k & Ht & Hb & Hn & Hd).
        exists k. rewrite Hts in *. tauto. }
      destruct (Z.leb_spec (StatBars.due t) (StatBars.now p)) as [Hdue | Hdue].
      * destruct (IH {| StatBars.bars := <[StatBars.bar t := StatBars.width t]> (StatBars.bars p);
                        StatBars.now := StatBars.now p;
                        StatBars.timers := ts |} Hclock)
          as (k & Ht & Hb & Hn & Hd).
        exists (S k). cbn [StatBars.bars StatBars.now StatBars.timers drop take] in *.
        split; [assumption|]. split; [assumption|]. split; [assumption|].
        intros t' [-> | Hin]%elem_of_cons; [lia | apply Hd; assumption].
      * destruct (IH p Hclock) as (k & Ht & Hb & Hn & Hd).
        exists k. rewrite Hts in *. tauto.
Qed.

(** Once every timer is due, as many [Fire]s as there are timers empty the
    queue. *)
Lemma fire_all ts : forall bs c,
  Forall (fun t => StatBars.due t <= c) ts ->
  StatBars.timers
    (StatBars.run (replicate (length ts) StatBars.Fire)
       {| StatBars.bars := bs; StatBars.now := c; StatBars.timers := ts |}) = [].
Proof.
  induction ts as [|t ts IH]; intros bs c Hdue; [reflexivity|].
  apply Forall_cons in Hdue as [Ht Hdue].
  cbn [length replicate StatBars.run StatBars.step]. unfold StatBars.fire.
  cbn [StatBars.timers StatBars.now StatBars.bars].
  rewrite (proj2 (Z.leb_le _ _) Ht). apply IH. assumption.
Qed.

Lemma restoring_due d ws : Forall (fun t => StatBars.due t <= d) (StatBars.restoring d ws).
Proof.
  apply Forall_forall. intros t Ht. unfold StatBars.restoring in Ht.
  apply elem_of_lookup_imap in Ht as (i & w & -> & _). simpl. lia.
Qed.

Lemma restoring_width d ws w :
  Forall (fun x => x = w) ws ->
  Forall (fun t => StatBars.width t = w) (StatBars.restoring d ws).
Proof.
  intros Hws. apply Forall_forall. intros t Ht. unfold StatBars.restoring in Ht.
  apply elem_of_lookup_imap in Ht as (i & x & -> & Hx). simpl.
  apply (Forall_lookup_1 _ _ _ _ Hws Hx).
Qed.

(** Empty bars with only ["0%"] waiting to be written stay empty. *)
Lemma emptied_forever n trace : forall p,
  StatBars.bars p = StatBars.emptied n ->
  Forall (fun t => StatBars.width t = "0%") (StatBars.timers p) ->
  StatBars.bars (StatBars.run trace p) = StatBars.emptied n.
Proof.
  induction trace as [|e trace IH]; intros p Hb Ht; [assumption|].
  cbn [StatBars.run]. apply IH; destruct e; cbn [StatBars.step].
  - rewrite statBars_updateProgress_eq. cbn [StatBars.bars]. rewrite Hb.
    unfold StatBars.emptied. rewrite length_replicate. reflexivity.
  - assumption.
  - unfold StatBars.fire. destruct (StatBars.timers p) as [|t ts]; [assumption|].
    apply Forall_cons in Ht as [Hw _].
    destruct (_ <=? _); [|assumption]. cbn [StatBars.bars].
    rewrite Hb, Hw. apply insert_replicate.
  - rewrite statBars_updateProgress_eq. cbn [StatBars.timers]. apply Forall_app. split; [assumption|].
    apply restoring_width. rewrite Hb.
    eapply Forall_impl; [apply Forall_replicate_eq|]. intros x Hx. symmetry. exact Hx.
  - assumption.
  - unfold StatBars.fire. destruct (StatBars.timers p) as [|t ts] eqn:Hts;
      [rewrite Hts; constructor|].
    destruct (_ <=? _); [|rewrite Hts; assumption]. cbn [StatBars.timers].
    apply Forall_cons in Ht as [_ Ht]. assumption.
Qed.

(** X17.  Called on a page at rest, [updateProgress] empties every stat
    bar; the bars stay empty until 100 ms have passed, fill again in
    document order as the timers run, and once the last timer has run every
    bar has the width it had before the call.  Waiting 100 ms and running
    one timer per bar gets there. *)
Theorem stat_bars_come_back p trace :
  StatBars.timers p = [] ->
  forallb StatBars.isClock trace = true ->
  let n := length (StatBars.bars p) in
  let p' := StatBars.run trace (StatBars.updateProgress p) in
  (exists k, StatBars.bars p' = take k (StatBars.bars p) ++ StatBars.emptied (n - k)) /\
  (StatBars.elapsed trace < 100 -> StatBars.bars p' = StatBars.emptied n) /\
  (StatBars.timers p' = [] -> StatBars.bars p' = StatBars.bars p) /\
  StatBars.timers
    (StatBars.run (StatBars.Elapse 100 :: replicate n StatBars.Fire)
       (StatBars.updateProgress p)) = [].
Proof.
  intros Hrest Hclock n p'.
  destruct (clock_runs_prefix trace (StatBars.updateProgress p) Hclock)
    as (k & Ht & Hb & _ & Hd).
  fold p' in Ht, Hb. rewrite statBars_updateProgress_eq in Ht, Hb, Hd.
  cbn [StatBars.bars StatBars.now StatBars.timers] in Ht, Hb, Hd.
  rewrite Hrest in Ht, Hb, Hd. cbn [app] in Ht, Hb, Hd. fold n in Hb.
  assert (Hlen : length (StatBars.emptied n) = n) by apply length_replicate.
  rewrite restored_restoring in Hb by (rewrite Hlen; reflexivity).
  assert (Hdrop : drop k (StatBars.emptied n) = StatBars.emptied (n - k))
    by apply drop_replicate.
  rewrite Hdrop in Hb.
  split; [exists k; assumption|]. split; [|split].
  - intros Hms. destruct k as [|k]; [rewrite Hb, Nat.sub_0_r; reflexivity|].
    destruct (StatBars.bars p) as [|w ws] eqn:Hws; [subst n; rewrite Hb; reflexivity|].
    specialize (Hd (StatBars.Timer (StatBars.now p + 100) 0 w)).
    cbn [StatBars.restoring imap take StatBars.due] in Hd.
    specialize (Hd ltac:(left)). lia.
  - intros Hdone. rewrite Hdone in Ht. symmetry in Ht.
    apply (f_equal length) in Ht. rewrite length_drop in Ht.
    unfold StatBars.restoring in Ht. rewrite length_imap in Ht. cbn [length] in Ht.
    rewrite Hb, take_ge by (fold n; lia).
    replace (n - k)%nat with 0%nat by (subst n; lia). apply app_nil_r.
  - rewrite statBars_updateProgress_eq, Hrest. cbn [app StatBars.run StatBars.step].
    cbn [StatBars.bars StatBars.now StatBars.timers].
    replace n with (length (StatBars.restoring (StatBars.now p + 100) (StatBars.bars p)))
      by (unfold StatBars.restoring; apply length_imap).
    apply fire_all. eapply Forall_impl; [apply restoring_due|]. simpl. intros; lia.
Qed.

Lemma stat_bars_come_back_witness :
  StatBars.bars
    (StatBars.run [StatBars.Elapse 40; StatBars.Fire; StatBars.Elapse 70;
                   StatBars.Fire; StatBars.Fire]
       (StatBars.updateProgress (StatBars.atRest ["85%"; "60%"]))) = ["85%"; "60%"].
Proof.
  apply (stat_bars_come_back (StatBars.atRest ["85%"; "60%"])
           [StatBars.Elapse 40; StatBars.Fire; StatBars.Elapse 70;
            StatBars.Fire; StatBars.Fire] eq_refl eq_refl).
  reflexivity.
Defined.

(** X18.  The two calls [init] makes in a row lose the widths: the second
    call reads the ["0%"] the first one wrote and queues timers that write
    it back after the timers of the first call have restored the widths.
    Once the queue has run out every stat bar is empty, and no later call
    of [updateProgress], timer or wait fills it again. *)
Theorem stat_bars_empty_after_init p trace later :
  StatBars.timers p = [] ->
  forallb StatBars.isClock trace = true ->
  StatBars.timers (StatBars.run trace (StatBars.init p)) = [] ->
  StatBars.bars (StatBars.run later (StatBars.run trace (StatBars.init p))) =
    StatBars.emptied (length (StatBars.bars p)).
Proof.
  intros Hrest Hclock Hdone.
  destruct (clock_runs_prefix trace (StatBars.init p) Hclock) as (k & Ht & Hb & _).
  unfold StatBars.init in *. rewrite !statBars_updateProgress_eq in *.
  cbn [StatBars.bars StatBars.now StatBars.timers] in *.
  rewrite Hrest in *. cbn [app] in *.
  set (n := length (StatBars.bars p)) in *.
  set (d := StatBars.now p + 100) in *.
  assert (Hlen : length (StatBars.emptied n) = n) by apply length_replicate.
  rewrite Hlen in *.
  apply emptied_forever; [|rewrite Hdone; constructor].
  rewrite Hdone in Ht. symmetry in Ht. apply (f_equal length) in Ht.
  rewrite length_drop in Ht. cbn [length] in Ht.
  rewrite Hb, take_ge by lia. rewrite restored_app.
  pose proof (restored_restoring d (StatBars.bars p) n (StatBars.emptied n)) as H1.
  rewrite take_ge in H1 by (unfold StatBars.restoring; rewrite length_imap; fold n; lia).
  rewrite H1 by (rewrite Hlen; reflexivity).
  rewrite take_ge, drop_ge, app_nil_r by (fold n; lia).
  pose proof (restored_restoring d (StatBars.emptied n) n (StatBars.bars p)) as H2.
  rewrite take_ge in H2 by (unfold StatBars.restoring; rewrite length_imap; lia).
  rewrite H2 by (rewrite Hlen; reflexivity).
  rewrite take_ge, drop_ge, app_nil_r by (fold n; lia). reflexivity.
Qed.

Lemma stat_bars_empty_after_init_witness :
  StatBars.bars
    (StatBars.run [StatBars.UpdateProgress; StatBars.Elapse 100; StatBars.Fire; StatBars.Fire]
       (StatBars.run [StatBars.Elapse 100; StatBars.Fire; StatBars.Fire;
                      StatBars.Fire; StatBars.Fire]
          (StatBars.init (StatBars.atRest ["85%"; "60%"])))) = ["0%"; "0%"].
Proof.
  apply (stat_bars_empty_after_init (StatBars.atRest ["85%"; "60%"])
           [StatBars.Elapse 100; StatBars.Fire; StatBars.Fire; StatBars.Fire; StatBars.Fire]
           [StatBars.UpdateProgress; StatBars.Elapse 100; StatBars.Fire; StatBars.Fire]
           eq_refl eq_refl eq_refl).
Defined.

(** ** The loading state *)

Lemma visit_fold images : forall p,
  let p' := fold_left Loading.visit images p in
  Loading.loadedImages p' = (Loading.loadedImages p + Loading.completed images)%nat /\
  Loading.totalImages p' = Loading.totalImages p /\
  Loading.listening p' = Loading.listening p ++ (negb <$> images) /\
  Loading.bodyLoaded p' =
    Loading.bodyLoaded p ||
    ((Loading.loadedImages p <? Loading.totalImages p)%nat &&
     (Loading.totalImages p <=? Loading.loadedImages p + Loading.completed images)%nat).
Proof.
  induction images as [|c images IH]; intros p; cbv zeta.
  - unfold Loading.completed. simpl. rewrite Nat.add_0_r, app_nil_r.
    repeat split.
    destruct (Nat.ltb_spec (Loading.loadedImages p) (Loading.totalImages p));
      destruct (Nat.leb_spec (Loading.totalImages p) (Loading.loadedImages p));
      simpl; rewrite ?orb_false_r; reflexivity || lia.
  - cbn [fold_left]. destruct (IH (Loading.visit p c)) as (Hn & Ht & Hl & Hb).
    rewrite Hn, Ht, Hl, Hb. clear IH Hn Ht Hl Hb.
    unfold Loading.completed. destruct c; cbn [Loading.visit].
    + rewrite filter_cons_True by reflexivity.
      cbn [Loading.updateLoadingProgress Loading.bodyLoaded Loading.loadedImages
           Loading.totalImages Loading.listening length fmap list_fmap negb].
      rewrite <- app_assoc. repeat split; [lia|].
      set (k := length (filter _ images)).
      destruct (Loading.bodyLoaded p); [reflexivity|]. cbn [orb].
      destruct (Nat.eqb_spec (S (Loading.loadedImages p)) (Loading.totalImages p));
        destruct (Nat.ltb_spec (S (Loading.loadedImages p)) (Loading.totalImages p));
        destruct (Nat.ltb_spec (Loading.loadedImages p) (Loading.totalImages p));
        destruct (Nat.leb_spec (Loading.totalImages p) (S (Loading.loadedImages p) + k));
        destruct (Nat.leb_spec (Loading.totalImages p) (Loading.loadedImages p + S k));
        simpl; reflexivity || lia.
    + rewrite filter_cons_False by discriminate.
      cbn [Loading.bodyLoaded Loading.loadedImages Loading.totalImages Loading.listening
           fmap list_fmap negb].
      rewrite <- app_assoc. repeat split.
Qed.

Lemma setup_eq body images :
  Loading.setup body images =
  {| Loading.bodyLoaded := body || (length images <=? Loading.completed images)%nat;
     Loading.loadedImages := Loading.completed images;
     Loading.totalImages := length images;
     Loading.listening := negb <$> images |}.
Proof.
  unfold Loading.setup. destruct (Nat.ltb_spec 0 (length images)) as [Hn | Hn].
  - match goal with |- fold_left _ _ ?p = _ =>
      destruct (visit_fold images p) as (Hc & Ht & Hl & Hb);
      destruct (fold_left Loading.visit images p) as [b c t l]
    end.
    cbn [Loading.bodyLoaded Loading.loadedImages Loading.totalImages Loading.listening
         Nat.add app] in *.
    subst. f_equal. destruct (Nat.ltb_spec 0 (length images)); [|lia].
    reflexivity.
  - destruct images; [|simpl in Hn; lia]. rewrite orb_true_r. reflexivity.
Qed.

(** Events add to the counter when they reach a listener; the class is set
    when the counter passes the number of images, and is never removed. *)
Lemma run_count images trace : forall p,
  Loading.listening p = negb <$> images ->
  let p' := Loading.run trace p in
  Loading.loadedImages p' = (Loading.loadedImages p + Loading.heard images trace)%nat /\
  Loading.totalImages p' = Loading.totalImages p /\
  Loading.bodyLoaded p' =
    Loading.bodyLoaded p ||
    ((Loading.loadedImages p <? Loading.totalImages p)%nat &&
     (Loading.totalImages p <=? Loading.loadedImages p + Loading.heard images trace)%nat).
Proof.
  induction trace as [|e trace IH]; intros p Hl; cbv zeta.
  - unfold Loading.heard. simpl. rewrite Nat.add_0_r. repeat split.
    destruct (Nat.ltb_spec (Loading.loadedImages p) (Loading.totalImages p));
      destruct (Nat.leb_spec (Loading.totalImages p) (Loading.loadedImages p));
      simpl; rewrite ?orb_false_r; reflexivity || lia.
  - cbn [Loading.run]. unfold Loading.step, Loading.heard. rewrite Hl, list_lookup_fmap.
    destruct (images !! Loading.target e) as [[|]|] eqn:Hi; cbn [fmap option_fmap option_map negb].
    + rewrite filter_cons_False by (rewrite Hi; discriminate). apply IH. assumption.
    + rewrite filter_cons_True by assumption.
      destruct (IH (Loading.updateLoadingProgress p) Hl) as (Hc & Ht & Hb).
      rewrite Hc, Ht, Hb. clear IH Hc Ht Hb.
      cbn [Loading.updateLoadingProgress Loading.bodyLoaded Loading.loadedImages
           Loading.totalImages length].
      fold (Loading.heard images trace). set (k := Loading.heard images trace).
      repeat split; [lia|].
      destruct (Loading.bodyLoaded p); [reflexivity|]. cbn [orb].
      destruct (Nat.eqb_spec (S (Loading.loadedImages p)) (Loading.totalImages p));
        destruct (Nat.ltb_spec (S (Loading.loadedImages p)) (Loading.totalImages p));
        destruct (Nat.ltb_spec (Loading.loadedImages p) (Loading.totalImages p));
        destruct (Nat.leb_spec (Loading.totalImages p) (S (Loading.loadedImages p) + k));
        destruct (Nat.leb_spec (Loading.totalImages p) (Loading.loadedImages p + S k));
        simpl; reflexivity || lia.
    + rewrite filter_cons_False by (rewrite Hi; discriminate). apply IH. assumption.
Qed.

Lemma bodyLoaded_count body images trace :
  Loading.bodyLoaded (Loading.run trace (Loading.setup body images)) =
  body || (length images <=? Loading.completed images + Loading.heard images trace)%nat.
Proof.
  destruct (run_count images trace (Loading.setup body images)) as (_ & _ & ->);
    [rewrite setup_eq; reflexivity|].
  rewrite setup_eq.
  cbn [Loading.bodyLoaded Loading.loadedImages Loading.totalImages].
  destruct body; [reflexivity|]. cbn [orb].
  destruct (Nat.leb_spec (length images) (Loading.completed images));
    destruct (Nat.ltb_spec (Loading.completed images) (length images));
    destruct (Nat.leb_spec (length images)
                (Loading.completed images + Loading.heard images trace));
    simpl; reflexivity || lia.
Qed.

Lemma filter_ext_in {A} (P Q : A -> Prop) `{!forall x, Decision (P x)}
    `{!forall x, Decision (Q x)} (l : list A) :
  (forall x, x ∈ l -> P x <-> Q x) -> filter P l = filter Q l.
Proof.
  induction l as [|x l IH]; intros Hext; [reflexivity|].
  assert (Hl : filter P l = filter Q l)
    by (apply IH; intros y Hy; apply Hext; right; assumption).
  destruct (decide (P x)) as [Hp | Hp].
  - rewrite !filter_cons_True by (assumption || (apply Hext; [left | assumption])).
    rewrite Hl. reflexivity.
  - rewrite !filter_cons_False; [assumption | | assumption].
    intros Hq. apply Hp, Hext; [left | assumption].
Qed.

(** Every image is complete or pending. *)
Lemma completed_pending images :
  (Loading.completed images + length (Loading.pending images) = length images)%nat.
Proof.
  unfold Loading.completed, Loading.pending.
  induction images as [|c images IH] using rev_ind; [reflexivity|].
  rewrite length_app. cbn [length]. rewrite Nat.add_1_r, seq_S, !filter_app, !length_app.
  cbn [Nat.add].
  rewrite (filter_ext_in (fun i => (images ++ [c]) !! i = Some false)
             (fun i => images !! i = Some false) (seq 0 (length images))).
  2:{ intros i [_ Hi]%elem_of_seq. rewrite lookup_app_l by lia. reflexivity. }
  destruct c.
  - rewrite filter_cons_True by reflexivity.
    rewrite filter_cons_False
      by (rewrite lookup_app_r, Nat.sub_diag by lia; discriminate).
    simpl. lia.
  - rewrite filter_cons_False by discriminate.
    rewrite filter_cons_True by (rewrite lookup_app_r, Nat.sub_diag by lia; reflexivity).
    simpl. lia.
Qed.

(** X19.  When no image fires more than one event, the body is marked
    ['loaded'] exactly when every image has finished, having been complete
    from the start or having loaded or failed since (or when the class was
    there already); a page without images is marked at once. *)
Theorem body_loaded_when_images_finished body images trace :
  NoDup (Loading.target <$> trace) ->
  Loading.bodyLoaded (Loading.run trace (Loading.setup body images)) = true <->
  body = true \/
  forall i, (i < length images)%nat -> Loading.finished images trace i.
Proof.
  intros Hnd. rewrite bodyLoaded_count.
  pose proof (completed_pending images) as Hsum.
  set (H := filter (fun e => images !! Loading.target e = Some false) trace).
  assert (Hheard : Loading.heard images trace = length (Loading.target <$> H))
    by (rewrite length_fmap; reflexivity).
  assert (HndH : NoDup (Loading.target <$> H)).
  { eapply sublist_NoDup; [exact Hnd|]. apply fmap_sublist, sublist_filter. }
  assert (HndP : NoDup (Loading.pending images))
    by apply NoDup_filter, NoDup_seq.
  assert (Hsub : forall i, i ∈ Loading.target <$> H -> i ∈ Loading.pending images).
  { intros i (e & -> & He)%list_elem_of_fmap. apply list_elem_of_filter in He as [He _].
    apply list_elem_of_filter. split; [assumption|].
    apply elem_of_seq. apply lookup_lt_Some in He. lia. }
  destruct body; [split; auto|]. cbn [orb]. rewrite Nat.leb_le. split.
  - intros Hle. right. intros i Hi.
    destruct (lookup_lt_is_Some_2 images i Hi) as [[|] Hc]; [left; assumption|].
    right.
    assert (Hperm : Loading.target <$> H ≡ₚ Loading.pending images).
    { apply submseteq_length_Permutation; [apply NoDup_submseteq; assumption | lia]. }
    assert (Hin : i ∈ Loading.target <$> H).
    { rewrite Hperm. apply list_elem_of_filter. split; [assumption|].
      apply elem_of_seq. lia. }
    apply list_elem_of_fmap in Hin as (e & -> & He).
    apply list_elem_of_fmap. exists e. split; [reflexivity|].
    apply list_elem_of_filter in He as [_ He]. assumption.
  - intros [Hb | Hall]; [discriminate|].
    assert (Hle : (length (Loading.pending images) <= length (Loading.target <$> H))%nat).
    { apply submseteq_length, NoDup_submseteq; [assumption|].
      intros i [Hc Hi]%list_elem_of_filter. apply elem_of_seq in Hi.
      destruct (Hall i ltac:(lia)) as [Hc' | Hin]; [congruence|].
      apply list_elem_of_fmap in Hin as (e & -> & He).
      apply list_elem_of_fmap. exists e. split; [reflexivity|].
      apply list_elem_of_filter. split; assumption. }
    lia.
Qed.

Lemma body_loaded_when_images_finished_witness :
  Loading.bodyLoaded
    (Loading.run [Loading.Loaded 2; Loading.Failed 0]
       (Loading.setup false [false; true; false])) = true.
Proof.
  apply (body_loaded_when_images_finished false [false; true; false]
           [Loading.Loaded 2; Loading.Failed 0]).
  - apply (bool_decide_eq_true_1 (NoDup (Loading.target <$> [Loading.Loaded 2; Loading.Failed 0]))).
    vm_compute. reflexivity.
  - right. intros i Hi. unfold Loading.finished.
    destruct i as [|[|[|i]]]; simpl in Hi; [right | left | right | lia];
      first [reflexivity | apply (bool_decide_eq_true_1 _); vm_compute; reflexivity].
Defined.

(** X20.  The listener counts events, not images: the body is marked
    ['loaded'] as soon as the images complete at the start and the events
    that reached a listener number as many as the images, and the mark is
    never taken back.  So the events of a single image mark the page while
    the others are still loading. *)
Theorem loading_counts_events body images trace i :
  Loading.bodyLoaded (Loading.run trace (Loading.setup body images)) =
    body || (length images <=? Loading.completed images + Loading.heard images trace)%nat /\
  (forall more,
     Loading.bodyLoaded (Loading.run trace (Loading.setup body images)) = true ->
     Loading.bodyLoaded (Loading.run (trace ++ more) (Loading.setup body images)) = true) /\
  (images !! i = Some false ->
   Loading.bodyLoaded
     (Loading.run (replicate (length images) (Loading.Loaded i)) (Loading.setup body images))
   = true).
Proof.
  split; [apply bodyLoaded_count|]. split.
  - intros more. rewrite !bodyLoaded_count. unfold Loading.heard.
    rewrite filter_app, length_app.
    destruct body; [reflexivity|]. cbn [orb]. rewrite !Nat.leb_le. lia.
  - intros Hi. rewrite bodyLoaded_count.
    assert (Hall : Loading.heard images (replicate (length images) (Loading.Loaded i)) =
                   length images).
    { unfold Loading.heard. generalize (length images) as n.
      induction n as [|n IH]; [reflexivity|]. cbn [replicate].
      rewrite filter_cons_True by exact Hi. simpl. rewrite IH. reflexivity. }
    rewrite Hall. destruct body; [reflexivity|]. cbn [orb]. apply Nat.leb_le. lia.
Qed.

Lemma loading_counts_events_witness :
  Loading.bodyLoaded
    (Loading.run (replicate 3 (Loading.Loaded 0)) (Loading.setup false [false; true; false]))
  = true.
Proof.
  apply (loading_counts_events false [false; true; false] [] 0). reflexivity.
Defined.

(** ** The tabs *)

Lemma firstWithId_ids s els : forall els',
  Tabs.elementId <$> els' = Tabs.elementId <$> els ->
  Tabs.firstWithId s els' = Tabs.firstWithId s els.
Proof.
  induction els as [|el els IH]; intros [|el' els'] Hid; try discriminate; [reflexivity|].
  simpl in *. injection Hid as Hhd Htl. rewrite Hhd, (IH els' Htl). reflexivity.
Qed.

Lemma firstWithId_Some s els : forall j,
  Tabs.firstWithId s els = Some j ->
  exists el, els !! j = Some el /\ Tabs.elementId el = s.
Proof.
  induction els as [|el els IH]; intros j Hj; simpl in Hj; [discriminate|].
  destruct (bool_decide_reflect (Tabs.elementId el = s)) as [Hs | Hs].
  - injection Hj as <-. exists el. split; [reflexivity | assumption].
  - destruct (Tabs.firstWithId s els) as [k|]; [|discriminate].
    injection Hj as <-. apply (IH k eq_refl).
Qed.

(** What is left of an element when its ['active'] class is put aside. *)
Lemma set_active_twice v v' el :
  Tabs.set_active v (Tabs.set_active v' el) = Tabs.set_active v el.
Proof. reflexivity. Qed.

Lemma set_active_same el : Tabs.set_active (Tabs.active el) el = el.
Proof. destruct el. reflexivity. Qed.

(** The listener, element by element. *)
Lemma clickListener_lookup b button els i :
  els !! b = Some button ->
  Tabs.clickListener b els !! i =
  (fun el =>
     Tabs.set_active
       (bool_decide (i = b) ||
        bool_decide (Tabs.getElementById (Tabs.targetTab button) els = Some i) ||
        (Tabs.active el && negb (Tabs.tabButton el) && negb (Tabs.tabContent el))) el)
  <$> els !! i.
Proof.
  intros Hb. unfold Tabs.clickListener. rewrite Hb. cbv zeta.
  set (els1 := alter (Tabs.set_active true) b
                 (Tabs.removeActive Tabs.tabContent (Tabs.removeActive Tabs.tabButton els))).
  assert (Hids : Tabs.elementId <$> els1 = Tabs.elementId <$> els).
  { apply list_eq. intros k. subst els1. rewrite !list_lookup_fmap.
    destruct (decide (b = k)) as [-> | Hne].
    - rewrite list_lookup_alter_eq. unfold Tabs.removeActive. rewrite !list_lookup_fmap.
      destruct (els !! k) as [el|]; [|reflexivity]. simpl.
      destruct (Tabs.tabButton el); simpl; destruct (Tabs.tabContent el); reflexivity.
    - rewrite list_lookup_alter_ne by assumption.
      unfold Tabs.removeActive. rewrite !list_lookup_fmap.
      destruct (els !! k) as [el|]; [|reflexivity]. simpl.
      destruct (Tabs.tabButton el); simpl; destruct (Tabs.tabContent el); reflexivity. }
  assert (Hget : Tabs.getElementById (Tabs.targetTab button) els1 =
                 Tabs.getElementById (Tabs.targetTab button) els).
  { unfold Tabs.getElementById. destruct (bool_decide _); [reflexivity|].
    apply firstWithId_ids. assumption. }
  rewrite Hget.
  assert (H1 : els1 !! i =
               (fun el => Tabs.set_active
                            (bool_decide (i = b) ||
                             (Tabs.active el && negb (Tabs.tabButton el) &&
                              negb (Tabs.tabContent el))) el) <$> els !! i).
  { subst els1. destruct (decide (b = i)) as [-> | Hne].
    - rewrite list_lookup_alter_eq. unfold Tabs.removeActive. rewrite !list_lookup_fmap.
      rewrite bool_decide_eq_true_2 by reflexivity.
      destruct (els !! i) as [el|]; [|reflexivity]. simpl.
      destruct (Tabs.tabButton el); simpl; destruct (Tabs.tabContent el); reflexivity.
    - rewrite list_lookup_alter_ne by assumption.
      unfold Tabs.removeActive. rewrite !list_lookup_fmap.
      rewrite bool_decide_eq_false_2 by congruence.
      destruct (els !! i) as [[id tb tc a dt]|]; [|reflexivity]. simpl.
      destruct tb; simpl; destruct tc; simpl; rewrite ?andb_false_r, ?andb_true_r;
        reflexivity. }
  destruct (Tabs.getElementById (Tabs.targetTab button) els) as [j|].
  - destruct (decide (j = i)) as [-> | Hne].
    + rewrite list_lookup_alter_eq, H1.
      rewrite (bool_decide_eq_true_2 (Some i = Some i)) by reflexivity.
      destruct (els !! i) as [el|]; [|reflexivity]. simpl.
      rewrite orb_true_r. reflexivity.
    + rewrite list_lookup_alter_ne by assumption. rewrite H1.
      rewrite (bool_decide_eq_false_2 (Some j = Some i)) by congruence.
      rewrite orb_false_r. reflexivity.
  - rewrite H1. rewrite (bool_decide_eq_false_2 (None = Some i)) by discriminate.
    rewrite orb_false_r. reflexivity.
Qed.

Lemma clickListener_length b els : length (Tabs.clickListener b els) = length els.
Proof.
  unfold Tabs.clickListener. destruct (els !! b); [|reflexivity]. cbv zeta.
  destruct (Tabs.getElementById _ _);
    rewrite ?length_alter; unfold Tabs.removeActive; rewrite !length_fmap; reflexivity.
Qed.

(** A click changes nothing but ['active'] classes. *)
Lemma clickListener_ids b els :
  Tabs.set_active false <$> Tabs.clickListener b els = Tabs.set_active false <$> els.
Proof.
  destruct (els !! b) as [button|] eqn:Hb;
    [|unfold Tabs.clickListener; rewrite Hb; reflexivity].
  apply list_eq. intros i.
  rewrite !list_lookup_fmap, (clickListener_lookup b button els i Hb).
  destruct (els !! i); reflexivity.
Qed.

Lemma getElementById_clicked s b els :
  Tabs.getElementById s (Tabs.clickListener b els) = Tabs.getElementById s els.
Proof.
  unfold Tabs.getElementById. destruct (bool_decide _); [reflexivity|].
  apply firstWithId_ids.
  pose proof (f_equal (fmap Tabs.elementId) (clickListener_ids b els)) as H.
  rewrite <- !list_fmap_compose in H. exact H.
Qed.

(** X21.  A click on a tab button whose [data-tab] names a tab panel shows
    that tab and no other, whatever was shown before: afterwards the
    clicked button is the only active tab button and the named panel the
    only active tab panel; elements that are neither keep their classes,
    and no element changes in anything but its ['active'] class. *)
Theorem tab_click_shows_one_panel els b button j panel :
  els !! b = Some button ->
  Tabs.tabButton button = true -> Tabs.tabContent button = false ->
  Tabs.getElementById (Tabs.targetTab button) els = Some j ->
  els !! j = Some panel ->
  Tabs.tabContent panel = true -> Tabs.tabButton panel = false ->
  length (Tabs.clickListener b els) = length els /\
  forall i el, els !! i = Some el ->
    exists el', Tabs.clickListener b els !! i = Some el' /\
      Tabs.set_active false el' = Tabs.set_active false el /\
      (Tabs.tabButton el = true -> Tabs.active el' = bool_decide (i = b)) /\
      (Tabs.tabContent el = true -> Tabs.active el' = bool_decide (i = j)) /\
      (Tabs.tabButton el = false -> Tabs.tabContent el = false ->
       Tabs.active el' = Tabs.active el).
Proof.
  intros Hb Hbb Hbc Hget Hj Hpc Hpb.
  split; [apply clickListener_length|]. intros i el Hi.
  rewrite (clickListener_lookup b button els i Hb), Hi, Hget. cbn [fmap option_fmap option_map].
  eexists. split; [reflexivity|]. split; [reflexivity|]. cbn [Tabs.active Tabs.set_active].
  split; [|split].
  - intros Hib. rewrite Hib, andb_false_r, orb_false_r.
    rewrite (bool_decide_eq_false_2 (Some j = Some i)); [apply orb_false_r|].
    intros [= ->]. congruence.
  - intros Hic. rewrite Hic, andb_false_r, orb_false_r.
    rewrite (bool_decide_eq_false_2 (i = b)) by (intros ->; congruence).
    cbn [orb]. apply bool_decide_ext. split; [intros [= ->] | intros ->]; reflexivity.
  - intros Hib Hic. rewrite Hib, Hic, !andb_true_r.
    rewrite (bool_decide_eq_false_2 (i = b)) by (intros ->; congruence).
    rewrite (bool_decide_eq_false_2 (Some j = Some i)) by (intros [= ->]; congruence).
    reflexivity.
Qed.

Lemma tab_click_shows_one_panel_witness :
  Tabs.active <$> Tabs.clickListener 1 Tabs.demoTabs = [false; true; false; false; true; true] /\
  length (Tabs.clickListener 1 Tabs.demoTabs) = length Tabs.demoTabs.
Proof.
  split; [vm_compute; reflexivity|].
  apply (tab_click_shows_one_panel Tabs.demoTabs 1
           (Tabs.Element "" true false false (Some "details")) 4
           (Tabs.Element "details" false true false None));
    reflexivity.
Defined.

(** X22.  A tab button whose [data-tab] is missing or names no element
    hides every panel: after a click on it no tab panel is active, and it
    is the only active tab button.  A missing attribute is looked up as the
    id ["null"]. *)
Theorem tab_button_without_panel_hides_all els b button :
  els !! b = Some button ->
  Tabs.getElementById (Tabs.targetTab button) els = None ->
  (Tabs.dataTab button = None -> Tabs.targetTab button = "null") /\
  forall i el', Tabs.clickListener b els !! i = Some el' ->
    Tabs.tabButton el' || Tabs.tabContent el' = true ->
    Tabs.active el' = bool_decide (i = b).
Proof.
  intros Hb Hget. split; [intros Hd; unfold Tabs.targetTab; rewrite Hd; reflexivity|].
  intros i el' Hi Htab.
  rewrite (clickListener_lookup b button els i Hb), Hget in Hi.
  destruct (els !! i) as [el|]; [|discriminate]. injection Hi as <-.
  cbn [Tabs.active Tabs.set_active Tabs.tabButton Tabs.tabContent] in *.
  rewrite orb_false_r.
  destruct (Tabs.tabButton el), (Tabs.tabContent el); try discriminate;
    rewrite ?andb_false_r, ?orb_false_r; reflexivity.
Qed.

Lemma tab_button_without_panel_hides_all_witness :
  exists el', Tabs.clickListener 2 Tabs.demoTabs !! 3%nat = Some el' /\
              Tabs.active el' = false.
Proof.
  destruct (tab_button_without_panel_hides_all Tabs.demoTabs 2
              (Tabs.Element "" true false false None) eq_refl eq_refl) as [_ H].
  eexists. split; [vm_compute; reflexivity|].
  apply (H 3%nat _ eq_refl eq_refl).
Defined.

(** X23.  Clicking a tab twice is clicking it once, and of two clicks the
    last one decides what the tab buttons and tab panels show. *)
Theorem last_tab_click_wins els a b :
  (b < length els)%nat ->
  Tabs.clickListener b (Tabs.clickListener b els) = Tabs.clickListener b els /\
  forall i el1 el2,
    Tabs.clickListener b (Tabs.clickListener a els) !! i = Some el1 ->
    Tabs.clickListener b els !! i = Some el2 ->
    Tabs.tabButton el2 || Tabs.tabContent el2 = true ->
    el1 = el2.
Proof.
  intros Hlt. destruct (lookup_lt_is_Some_2 els b Hlt) as [button Hb].
  assert (Hafter : forall c, exists v,
             Tabs.clickListener c els !! b = Some (Tabs.set_active v button)).
  { intros c. destruct (els !! c) as [bc|] eqn:Hc.
    - rewrite (clickListener_lookup c bc els b Hc), Hb. eexists. reflexivity.
    - unfold Tabs.clickListener. rewrite Hc, Hb. exists (Tabs.active button).
      rewrite set_active_same. reflexivity. }
  split.
  - apply list_eq. intros i. destruct (Hafter b) as [v Hv].
    rewrite (clickListener_lookup b _ _ i Hv), getElementById_clicked.
    change (Tabs.targetTab (Tabs.set_active v button)) with (Tabs.targetTab button).
    rewrite (clickListener_lookup b button els i Hb).
    destruct (els !! i) as [el|]; [|reflexivity].
    cbn [fmap option_fmap option_map]. f_equal.
    rewrite set_active_twice. f_equal.
    cbn [Tabs.active Tabs.set_active Tabs.tabButton Tabs.tabContent].
    destruct (bool_decide (i = b)), (bool_decide (_ = Some i)), (Tabs.active el),
      (Tabs.tabButton el), (Tabs.tabContent el); reflexivity.
  - intros i el1 el2 H1 H2 Htab. destruct (Hafter a) as [v Hv].
    rewrite (clickListener_lookup b _ _ i Hv), getElementById_clicked in H1.
    change (Tabs.targetTab (Tabs.set_active v button)) with (Tabs.targetTab button) in H1.
    rewrite (clickListener_lookup b button els i Hb) in H2.
    assert (Ha : exists va el, els !! i = Some el /\
                   Tabs.clickListener a els !! i = Some (Tabs.set_active va el)).
    { destruct (els !! i) as [el|] eqn:Hi; [|discriminate].
      destruct (els !! a) as [ba|] eqn:Hab.
      - rewrite (clickListener_lookup a ba els i Hab), Hi. eexists _, el.
        split; reflexivity.
      - unfold Tabs.clickListener. rewrite Hab. exists (Tabs.active el), el.
        rewrite set_active_same. split; [reflexivity | assumption]. }
    destruct Ha as (va & el & Hi & Hai). rewrite Hai in H1. rewrite Hi in H2.
    injection H1 as <-. injection H2 as <-.
    cbn [Tabs.active Tabs.set_active Tabs.tabButton Tabs.tabContent] in *.
    unfold Tabs.set_active. cbn [Tabs.elementId Tabs.tabButton Tabs.tabContent Tabs.dataTab].
    f_equal.
    destruct (Tabs.tabButton el), (Tabs.tabContent el); try discriminate;
      rewrite ?andb_false_r; reflexivity.
Qed.

Lemma last_tab_click_wins_witness :
  Tabs.clickListener 0 (Tabs.clickListener 0 Tabs.demoTabs) = Tabs.clickListener 0 Tabs.demoTabs.
Proof.
  apply (last_tab_click_wins Tabs.demoTabs 1 0). simpl. lia.
Defined.

(** A constructor that throws on a canvas that is there makes
    [createCharts] report it, whatever comes before. *)
Lemma createCharts_thrown ids bad : forall w throwing,
  chartJs (window w) = Some throwing ->
  bad ∈ ids -> bad ∈ canvases (document w) -> bad ∈ throwing ->
  snd (createCharts ids w) = true.
Proof.
  induction ids as [|id ids IH]; intros w throwing Hlib Hin Hcv Hthrow;
    [inversion Hin|].
  cbn [createCharts]. rewrite Hlib.
  destruct (bool_decide_reflect (id ∈ canvases (document w))) as [Hc | Hc].
  - destruct (bool_decide_reflect (id ∈ throwing)) as [Ht | Ht]; [reflexivity|].
    apply elem_of_cons in Hin as [-> | Hin]; [contradiction|].
    apply (IH _ throwing); assumption.
  - apply elem_of_cons in Hin as [-> | Hin]; [contradiction|].
    apply (IH _ throwing); assumption.
Qed.

Lemma run_deaf n clicks : forall els,
  Tabs.run (replicate n false) clicks els = els.
Proof.
  induction clicks as [|i clicks IH]; intros els; [reflexivity|].
  unfold Tabs.run in *. cbn [fold_left]. unfold Tabs.click at 2.
  destruct (replicate n false !! i) as [[|]|] eqn:Hi; [|apply IH..].
  apply lookup_replicate in Hi as [Hi _]. discriminate.
Qed.

(** X24.  The tabs depend on the charts: [initTabs] is the last statement
    of the [try] block of [initCharts], so when a chart constructor throws
    no tab button gets its listener and clicks leave the page as it is,
    while without the chart library, or when no constructor throws, a click
    on a tab button runs the listener. *)
Theorem tabs_dead_after_chart_failure w els :
  (forall throwing bad clicks,
     chartJs (window w) = Some throwing ->
     bad ∈ chartIds -> bad ∈ canvases (document w) -> bad ∈ throwing ->
     Tabs.run (Tabs.listeners w els) clicks els = els) /\
  (chartJs (window w) = None \/
   (exists throwing,
      chartJs (window w) = Some throwing /\
      forall id, id ∈ chartIds -> id ∈ canvases (document w) -> id ∉ throwing) ->
   forall b button,
     els !! b = Some button -> Tabs.tabButton button = true ->
     Tabs.click (Tabs.listeners w els) b els = Tabs.clickListener b els).
Proof.
  split.
  - intros throwing bad clicks Hlib Hin Hcv Hthrow. unfold Tabs.listeners.
    rewrite (createCharts_thrown chartIds bad w throwing Hlib Hin Hcv Hthrow).
    apply run_deaf.
  - intros Hok b button Hb Htab. unfold Tabs.listeners.
    assert (Hsnd : snd (createCharts chartIds w) = false).
    { destruct Hok as [Hnone | (throwing & Hlib & Hclean)].
      - rewrite createCharts_none by assumption. reflexivity.
      - apply (createCharts_clean chartIds w throwing Hlib Hclean). }
    rewrite Hsnd. unfold Tabs.click, Tabs.initTabs.
    rewrite list_lookup_fmap, Hb. cbn [fmap option_fmap option_map]. rewrite Htab.
    reflexivity.
Qed.

Lemma tabs_dead_after_chart_failure_witness :
  Tabs.run (Tabs.listeners
              {| this := this (beforeLoad 3 (JS.lit "0"));
                 document := demoDocument 3;
                 window := throwingWindow ["successChart"] |}
              Tabs.demoTabs) [1%nat; 2%nat] Tabs.demoTabs = Tabs.demoTabs.
Proof.
  apply (proj1 (tabs_dead_after_chart_failure
                  {| this := this (beforeLoad 3 (JS.lit "0"));
                     document := demoDocument 3;
                     window := throwingWindow ["successChart"] |}
                  Tabs.demoTabs) ["successChart"] "successChart" [1%nat; 2%nat]).
  - vm_compute. reflexivity.
  - apply (bool_decide_eq_true_1 _). vm_compute. reflexivity.
  - apply (bool_decide_eq_true_1 _). vm_compute. reflexivity.
  - apply (bool_decide_eq_true_1 _). vm_compute. reflexivity.
Defined.
